(** * KaziWiz policy deliberation: a shallow embedding of the orchestrator

    The development follows the Python sources of the backend
    ([output_validator.py], [integrated_deliberation.py],
    [policy_service.py]) and of the stand-alone driver ([uagent_main.py]).

    Conventions of the embedding.
    - A Python [str] is a [list ascii].  Case mapping, [\w], [\s] and [\d]
      act on the ASCII range exactly as CPython does; characters above 127
      are opaque symbols (no case, no class).
    - A Python [float] is a primitive binary64 float, so every sum and
      quotient rounds as it does in CPython.
    - A [dict] whose iteration order is observed is an association list
      with in-place update.
    - The language model behind [crew.kickoff] is an oracle: the answer to
      the n-th invocation of a run is an arbitrary function of n and of the
      task, and it either returns text or raises. *)

From Stdlib Require Import String Ascii List ZArith Bool Arith Lia.
From Stdlib Require Import DecimalString Floats Uint63.
Import ListNotations.

Open Scope string_scope.
Open Scope list_scope.
Open Scope nat_scope.

Set Implicit Arguments.

(* ===================================================================== *)
(** * Part I.  Definitions                                               *)
(* ===================================================================== *)

(** ** Python strings *)

Module Py.

(** A string is the list of its characters.  The functions of this module
  are Python's on the characters of the ASCII range, with codes below 128:
  there [str.lower], [str.upper], [str.isspace] and the classes [\w], [\s]
  and [\d] of [re] are as defined here.  Beyond that range Python follows
  the Unicode tables (a letter such as U+00E9 belongs to [\w], and the
  upper case of U+00DF is two characters); what depends on the case or on
  the class of such characters is stated for [ascii_text] only. *)
Definition text := list ascii.

(** A literal of the source. *)
Definition str (s : string) : text := list_ascii_of_string s.
Arguments str s%_string.

Definition code (c : ascii) : nat := nat_of_ascii c.

Definition is_upper (c : ascii) : bool := (65 <=? code c) && (code c <=? 90).
Definition is_lower (c : ascii) : bool := (97 <=? code c) && (code c <=? 122).
Definition is_digit (c : ascii) : bool := (48 <=? code c) && (code c <=? 57).
Definition is_alpha (c : ascii) : bool := is_upper c || is_lower c.

(** [str.isspace] on the ASCII range: TAB..CR, FS..US and the blank. *)
Definition is_space (c : ascii) : bool :=
  ((9 <=? code c) && (code c <=? 13)) || ((28 <=? code c) && (code c <=? 32)).

(** [\w] of the [re] module. *)
Definition is_word (c : ascii) : bool :=
  is_alpha c || is_digit c || (code c =? 95).

Definition lower_char (c : ascii) : ascii :=
  if is_upper c then ascii_of_nat (code c + 32) else c.
Definition upper_char (c : ascii) : ascii :=
  if is_lower c then ascii_of_nat (code c - 32) else c.

(** [s.lower()] and [s.upper()]. *)
Definition lower (s : text) : text := map lower_char s.
Definition upper (s : text) : text := map upper_char s.

(** Every character of [s] is of the ASCII range. *)
Definition ascii_text (s : text) : Prop :=
  forallb (fun c => code c <? 128) s = true.

Fixpoint text_eqb (a b : text) : bool :=
  match a, b with
  | [], [] => true
  | x :: a', y :: b' => Ascii.eqb x y && text_eqb a' b'
  | _, _ => false
  end.

(** [s.startswith(p)]. *)
Fixpoint starts_with (p s : text) : bool :=
  match p, s with
  | [], _ => true
  | _ :: _, [] => false
  | a :: p', b :: s' => Ascii.eqb a b && starts_with p' s'
  end.

(** [kw in s]: [kw] occurs in [s] as a contiguous substring. *)
Fixpoint contains (kw s : text) : bool :=
  starts_with kw s ||
  match s with
  | [] => false
  | _ :: s' => contains kw s'
  end.

(** [sum(1 for kw in kws if kw in s)]. *)
Definition count_keywords (kws : list text) (s : text) : nat :=
  length (filter (fun kw => contains kw s) kws).

(** [s[:n]]. *)
Definition slice_to (n : nat) (s : text) : text := firstn n s.

(** [s.replace(a, b)] for single characters. *)
Definition replace_char (a b : ascii) (s : text) : text :=
  map (fun c => if Ascii.eqb c a then b else c) s.

(** [s.title()]: a letter that follows a letter is lowered, any other
    letter is raised. *)
Fixpoint title_from (previous_is_cased : bool) (s : text) : text :=
  match s with
  | [] => []
  | c :: s' =>
      if is_alpha c
      then (if previous_is_cased then lower_char c else upper_char c)
             :: title_from true s'
      else c :: title_from false s'
  end.
Definition title (s : text) : text := title_from false s.

(** [s.strip()]. *)
Fixpoint lstrip (s : text) : text :=
  match s with
  | c :: s' => if is_space c then lstrip s' else s
  | [] => []
  end.
Definition rstrip (s : text) : text := rev (lstrip (rev s)).
Definition strip (s : text) : text := rstrip (lstrip s).

(** [str(n)] for a natural number, and ["\n".join(parts)]. *)
Definition str_of_nat (n : nat) : text :=
  str (NilEmpty.string_of_uint (Nat.to_uint n)).

Definition newline : ascii := ascii_of_nat 10.

Fixpoint join (sep : text) (parts : list text) : text :=
  match parts with
  | [] => []
  | [p] => p
  | p :: rest => p ++ sep ++ join sep rest
  end.

(** *** Insertion-ordered dictionaries *)

Section Dict.
Variable V : Type.

Definition dict := list (text * V).

Fixpoint dict_get (k : text) (d : dict) : option V :=
  match d with
  | [] => None
  | (k', v) :: d' => if text_eqb k k' then Some v else dict_get k d'
  end.

(** [d[k] = v]: an existing key keeps its place. *)
Fixpoint dict_set (k : text) (v : V) (d : dict) : dict :=
  match d with
  | [] => [(k, v)]
  | (k', v') :: d' =>
      if text_eqb k k' then (k', v) :: d' else (k', v') :: dict_set k v d'
  end.

Definition dict_keys (d : dict) : list text := map fst d.
Definition dict_values (d : dict) : list V := map snd d.
Definition dict_has (k : text) (d : dict) : bool :=
  existsb (text_eqb k) (dict_keys d).
End Dict.

End Py.

(** ** The fragment of Python's [re] that the validator uses

  Only the truth value of [re.search] is observed, so a pattern is read as
  a regular expression and [search] asks whether some substring belongs to
  its language.  All patterns are compiled with [re.IGNORECASE]. *)

Module Re.
Import Py.

(** One character of a pattern. *)
Inductive cset :=
| Lit (c : ascii)          (* a literal character, in either case *)
| Word                     (* \w *)
| Space                    (* \s *)
| Digit                    (* \d *)
| AnyOf (l : list ascii).  (* [...] of literal characters *)

Definition cset_match (p : cset) (x : ascii) : bool :=
match p with
| Lit c => Ascii.eqb (lower_char x) (lower_char c)
| Word => is_word x
| Space => is_space x
| Digit => is_digit x
| AnyOf l => existsb (fun c => Ascii.eqb (lower_char x) (lower_char c)) l
end.

Inductive re :=
| Nul                      (* matches nothing *)
| Eps                      (* matches the empty string *)
| Sym (p : cset)
| Cat (a b : re)
| Alt (a b : re)
| Star (a : re).

(** [a+], a literal string, and a sequence of items. *)
Definition Plus (a : re) : re := Cat a (Star a).
Definition lit (s : string) : re :=
fold_right (fun c r => Cat (Sym (Lit c)) r) Eps (str s).
Definition seq (items : list re) : re := fold_right Cat Eps items.

Definition cset_eqb (p q : cset) : bool :=
match p, q with
| Lit a, Lit b => Ascii.eqb a b
| Word, Word | Space, Space | Digit, Digit => true
| AnyOf l, AnyOf m => text_eqb l m
| _, _ => false
end.

Fixpoint re_eqb (a b : re) : bool :=
match a, b with
| Nul, Nul | Eps, Eps => true
| Sym p, Sym q => cset_eqb p q
| Cat a1 a2, Cat b1 b2 => re_eqb a1 b1 && re_eqb a2 b2
| Alt a1 a2, Alt b1 b2 => re_eqb a1 b1 && re_eqb a2 b2
| Star a1, Star b1 => re_eqb a1 b1
| _, _ => false
end.

Fixpoint nullable (r : re) : bool :=
match r with
| Nul => false
| Eps => true
| Sym _ => false
| Cat a b => nullable a && nullable b
| Alt a b => nullable a || nullable b
| Star _ => true
end.

(** Constructors that drop the dead branches of a derivative. *)
Definition cat (a b : re) : re :=
match a, b with
| Nul, _ => Nul
| _, Nul => Nul
| Eps, _ => b
| _, _ => Cat a b
end.

Definition alt (a b : re) : re :=
match a, b with
| Nul, _ => b
| _, Nul => a
| _, _ => if re_eqb a b then a else Alt a b
end.

(** What is left of [r] to be matched once [c] has been read. *)
Fixpoint deriv (c : ascii) (r : re) : re :=
match r with
| Nul | Eps => Nul
| Sym p => if cset_match p c then Eps else Nul
| Cat a b =>
    alt (cat (deriv c a) b) (if nullable a then deriv c b else Nul)
| Alt a b => alt (deriv c a) (deriv c b)
| Star a => cat (deriv c a) (Star a)
end.

(** Some prefix of [s] matches [r]. *)
Fixpoint match_here (r : re) (s : text) : bool :=
nullable r ||
match s with
| [] => false
| c :: s' => match_here (deriv c r) s'
end.

(** [bool(re.search(r, s))]: a match starts at some position of [s]. *)
Fixpoint search (r : re) (s : text) : bool :=
match_here r s ||
match s with
| [] => false
| _ :: s' => search r s'
end.

(** What is left of [r] once the whole of [s] has been read. *)
Definition run (r : re) (s : text) : re :=
fold_left (fun d c => deriv c d) s r.

(** A compiled pattern together with its source text. *)
Record pattern := { source : text; ast : re }.

End Re.

(** ** [output_validator.py] *)

Module OutputValidator.
Import Py Re.

(** [CODE_PATTERNS], in the order of the source. *)
Definition CODE_PATTERNS : list pattern :=
[ {| source := str "```[\w]*\n";
     ast := seq [lit "```"; Star (Sym Word); Sym (Lit newline)] |};
  {| source := str "#include\s+<";
     ast := seq [lit "#include"; Plus (Sym Space); lit "<"] |};
  {| source := str "import\s+\w+\s+from";
     ast := seq [lit "import"; Plus (Sym Space); Plus (Sym Word);
                 Plus (Sym Space); lit "from"] |};
  {| source := str "def\s+\w+\s*\(";
     ast := seq [lit "def"; Plus (Sym Space); Plus (Sym Word);
                 Star (Sym Space); lit "("] |};
  {| source := str "class\s+\w+\s*[:\(]";
     ast := seq [lit "class"; Plus (Sym Space); Plus (Sym Word);
                 Star (Sym Space); Sym (AnyOf (str ":("))] |};
  {| source := str "function\s+\w+\s*\(";
     ast := seq [lit "function"; Plus (Sym Space); Plus (Sym Word);
                 Star (Sym Space); lit "("] |};
  {| source := str "<\?php"; ast := lit "<?php" |};
  {| source := str "<!DOCTYPE"; ast := lit "<!DOCTYPE" |};
  {| source := str "<script"; ast := lit "<script" |};
  {| source := str "glsl|shader|vertex|fragment";
     ast := Alt (lit "glsl")
              (Alt (lit "shader") (Alt (lit "vertex") (lit "fragment"))) |};
  {| source := str "layout\s*\(location";
     ast := seq [lit "layout"; Star (Sym Space); lit "(location"] |};
  {| source := str "gl_Position"; ast := lit "gl_Position" |};
  {| source := str "#version\s+\d+";
     ast := seq [lit "#version"; Plus (Sym Space); Plus (Sym Digit)] |};
  {| source := str "int\s+main\s*\(";
     ast := seq [lit "int"; Plus (Sym Space); lit "main";
                 Star (Sym Space); lit "("] |};
  {| source := str "public\s+static\s+void\s+main";
     ast := seq [lit "public"; Plus (Sym Space); lit "static";
                 Plus (Sym Space); lit "void"; Plus (Sym Space);
                 lit "main"] |};
  {| source := str "---\nlayout:";
     ast := seq [lit "---"; Sym (Lit newline); lit "layout:"] |};
  {| source := str "\$\$\s*\\begin\{";
     ast := seq [lit "$$"; Star (Sym Space); lit "\begin{"] |} ].

Definition CODE_KEYWORDS : list text :=
map str
  [ "jupyter"; "notebook"; "algorithm"; "implementation";
    "compile"; "runtime"; "binary"; "pointer"; "malloc";
    "vertex"; "shader"; "rendering"; "opengl"; "webgl";
    "array"; "buffer"; "matrix multiplication"; "gpu";
    "tensorflow"; "pytorch"; "neural network architecture";
    "docker"; "kubernetes"; "api endpoint"; "sql query" ].

Definition policy_keywords : list text :=
map str
  [ "policy"; "carbon tax"; "economic"; "fiscal"; "impact";
    "government"; "revenue"; "emission"; "climate"; "environment";
    "stakeholder"; "implementation"; "analysis"; "evidence" ].

(** The second component of the verdict. *)
Inductive reason :=
| OutputTooShort
| ContainsCodePattern (pattern : text)
| TooManyCodeKeywords (code_keyword_count : nat)
| LacksPolicyContent
| ValidPolicyAnalysis.

(** The message the source builds for each reason. *)
Definition reason_text (r : reason) : text :=
match r with
| OutputTooShort => str "Output too short"
| ContainsCodePattern p => str "Contains code pattern: " ++ p
| TooManyCodeKeywords n =>
    str "Contains too many code keywords (" ++ str_of_nat n ++ str ")"
| LacksPolicyContent => str "Lacks policy-related content"
| ValidPolicyAnalysis => str "Valid policy analysis"
end.

Definition matches_code_pattern (output : text) (p : pattern) : bool :=
search (ast p) output.

Definition is_valid_policy_output (output : text) : bool * reason :=
if (match output with [] => true | _ => false end) || (length output <? 50)
then (false, OutputTooShort)
else
  match find (matches_code_pattern output) CODE_PATTERNS with
  | Some p => (false, ContainsCodePattern (source p))
  | None =>
      let output_lower := lower output in
      let code_keyword_count := count_keywords CODE_KEYWORDS output_lower in
      if 3 <=? code_keyword_count
      then (false, TooManyCodeKeywords code_keyword_count)
      else
        let policy_keyword_count :=
          count_keywords policy_keywords output_lower in
        if policy_keyword_count <? 2
        then (false, LacksPolicyContent)
        else (true, ValidPolicyAnalysis)
  end.

(** *** [extract_policy_content]

  [re.sub] scans from the left; where the pattern matches, the match is
  replaced and the scan resumes behind it.  [match_at bol s] is the length
  of the match that starts at the head of [s], [bol] telling whether this
  position opens a line ([^] under [re.MULTILINE]). *)

Section Sub.
Variable match_at : bool -> text -> option nat.
Variable repl : text.

Fixpoint sub_from (skip : nat) (bol : bool) (s : text) : text :=
  match s with
  | [] => []
  | c :: s' =>
      let bol' := Ascii.eqb c newline in
      match skip with
      | S k => sub_from k bol' s'
      | O =>
          match match_at bol s with
          | Some (S n) => repl ++ sub_from n bol' s'
          | _ => c :: sub_from 0 bol' s'
          end
      end
  end.

Definition sub (s : text) : text := sub_from 0 true s.
End Sub.

(** Length of the longest prefix of characters that satisfy [p]. *)
Fixpoint span (p : ascii -> bool) (s : text) : nat :=
match s with
| c :: s' => if p c then S (span p s') else 0
| [] => 0
end.

(** Distance from the head of [s] to the end of the first occurrence of
  [needle]: what a lazy [.*?needle] consumes under [re.DOTALL]. *)
Fixpoint find_end (needle s : text) : option nat :=
if starts_with needle s then Some (length needle)
else
  match s with
  | [] => None
  | _ :: s' => option_map S (find_end needle s')
  end.

(** A delimiter, then lazily anything up to the next closing delimiter. *)
Definition match_delimited (opening closing s : text) : option nat :=
if starts_with opening s
then option_map (Nat.add (length opening))
       (find_end closing (skipn (length opening) s))
else None.

(** [```[\w]*\n.*?```] *)
Definition match_code_block (_ : bool) (s : text) : option nat :=
if starts_with (str "```") s then
  let s1 := skipn 3 s in
  let w := span is_word s1 in
  match skipn w s1 with
  | c :: s2 =>
      if Ascii.eqb c newline
      then option_map (fun k => 3 + w + 1 + k) (find_end (str "```") s2)
      else None
  | [] => None
  end
else None.

(** [<[^>]+>] *)
Definition match_tag (_ : bool) (s : text) : option nat :=
match s with
| "<"%char :: s1 =>
    let n := span (fun c => negb (Ascii.eqb c ">"%char)) s1 in
    match n, skipn n s1 with
    | S _, _ :: _ => Some (1 + n + 1)
    | _, _ => None
    end
| _ => None
end.

(** [\$\$.*?\$\$] *)
Definition match_math_block (_ : bool) (s : text) : option nat :=
match_delimited (str "$$") (str "$$") s.

(** [^---.*?---] *)
Definition match_frontmatter (bol : bool) (s : text) : option nat :=
if bol then match_delimited (str "---") (str "---") s else None.

(** [\n{3,}] *)
Definition match_blank_lines (_ : bool) (s : text) : option nat :=
let n := span (Ascii.eqb newline) s in
if 3 <=? n then Some n else None.

Definition extract_policy_content (output : text) : text :=
let output := sub match_code_block [] output in
let output := sub match_tag [] output in
let output := sub match_math_block [] output in
let output := sub match_frontmatter [] output in
let output := sub match_blank_lines [newline; newline] output in
strip output.

(** *** [create_fallback_response]: the fixed text around the two fields. *)

Definition fallback_opening : text := str "
**".

Definition fallback_heading : text := str " Analysis: ".

Definition fallback_evidence : text := str "**

**Position:** CONDITIONAL SUPPORT

**Key Considerations:**

1. **Evidence Required:** Due to technical limitations in generating detailed analysis, I recommend consulting recent policy research reports and case studies on ".

Definition fallback_economic : text := str ".

2. **Economic Impact:** The economic implications of ".

Definition fallback_closing : text := str " require careful evaluation of fiscal impacts, market effects, and distributional consequences across different stakeholder groups.

3. **Implementation Feasibility:** Successful implementation depends on regulatory framework design, enforcement mechanisms, and stakeholder engagement.

4. **Risk Assessment:** Potential unintended consequences must be evaluated through pilot programs and phased rollout approaches.

**Recommendation:** Conduct comprehensive cost-benefit analysis and stakeholder consultation before proceeding with policy implementation.

*Note: This is a placeholder response. For detailed analysis, please consult subject matter experts and peer-reviewed policy research.*
".

Definition create_fallback_response (agent_role policy_topic : text) : text :=
fallback_opening ++ agent_role ++ fallback_heading ++ policy_topic
++ fallback_evidence ++ policy_topic
++ fallback_economic ++ policy_topic
++ fallback_closing.

End OutputValidator.

(** ** Python numbers used by the consensus heuristic *)

Module PyNum.

(** [float(n)] for an [int] below [2^63]; counts and [len] are such. *)
Definition float_of_nat (n : nat) : float :=
PrimFloat.of_uint63 (Uint63.of_Z (Z.of_nat n)).

(** [int(x)]: truncation towards zero; [None] stands for the
  [OverflowError] on an infinity and the [ValueError] on a NaN. *)
Definition int_of_float (x : float) : option Z :=
match Prim2SF x with
| S754_zero _ => Some 0%Z
| S754_finite s m e => Some (cond_Zopp s (Z.shiftl (Zpos m) e))
| S754_infinity _ => None
| S754_nan => None
end.

End PyNum.

(** ** [integrated_deliberation.py] *)

Module Deliberation.
Import Py OutputValidator PyNum.

(** *** Data *)

(** Values carried by events and reports. *)
Inductive value :=
| VStr (s : text)
| VNat (n : nat)
| VInt (z : Z)
| VBool (b : bool)
| VClock                                  (* a reading of the wall clock *)
| VDict (fields : list (text * value)).

(** One call of [emit_event(event, data, session_id)]. *)
Record event :=
{ event_name : text; data : list (text * value); session : text }.

(** The task handed to [Crew(...).kickoff]: the template of the task
  system that built it with its arguments, or the description that the
  debate phase writes itself. *)
Inductive task :=
| problem_statement_task (policy_topic context : text)
| economic_analysis_task (policy_topic : text)
| social_welfare_task (policy_topic : text)
| geospatial_demographic_task (policy_topic : text)
| income_inequality_task (policy_topic : text)
| resource_allocation_task (policy_topic : text)
| adaptation_feedback_task (policy_topic : text)
| legal_compliance_task (policy_topic : text)
| research_task (policy_topic focus_area : text)
| debate_task (description : text)
| voting_task (policy_topic : text)
| voting_coordination_task (policy_topic votes_summary : text).

Inductive outcome :=
| Raised (message : text)
| Returned (output : text).

(** The language model: its answer to the n-th invocation of a run. *)
Definition oracle := nat -> text -> task -> outcome.

(** A record of one [crew.kickoff]. *)
Record invocation := { agent : text; job : task; answer : outcome }.

Record debate_entry :=
{ round : nat; agent_id : text; agent_name : text; argument : text }.

Record debate_record :=
{ history : list debate_entry; rounds : nat; consensus_reached : bool }.

(** [self.results]: one optional entry per key the phases write. *)
Record results :=
{ problem_statement : option text;
  research : option (dict text);
  debate : option debate_record;
  voting : option (dict text);
  final_announcement : option text;
  final_decision : option text;
  final_report : option (list (text * value)) }.

Definition no_results : results :=
{| problem_statement := None; research := None; debate := None;
   voting := None; final_announcement := None; final_decision := None;
   final_report := None |}.

Definition set_problem_statement (v : text) (r : results) : results :=
{| problem_statement := Some v; research := research r;
   debate := debate r; voting := voting r;
   final_announcement := final_announcement r;
   final_decision := final_decision r; final_report := final_report r |}.
Definition set_research (v : dict text) (r : results) : results :=
{| problem_statement := problem_statement r; research := Some v;
   debate := debate r; voting := voting r;
   final_announcement := final_announcement r;
   final_decision := final_decision r; final_report := final_report r |}.
Definition set_debate (v : debate_record) (r : results) : results :=
{| problem_statement := problem_statement r; research := research r;
   debate := Some v; voting := voting r;
   final_announcement := final_announcement r;
   final_decision := final_decision r; final_report := final_report r |}.
Definition set_voting (v : dict text) (r : results) : results :=
{| problem_statement := problem_statement r; research := research r;
   debate := debate r; voting := Some v;
   final_announcement := final_announcement r;
   final_decision := final_decision r; final_report := final_report r |}.
Definition set_final_announcement (v : text) (r : results) : results :=
{| problem_statement := problem_statement r; research := research r;
   debate := debate r; voting := voting r;
   final_announcement := Some v;
   final_decision := final_decision r; final_report := final_report r |}.
Definition set_final_decision (v : text) (r : results) : results :=
{| problem_statement := problem_statement r; research := research r;
   debate := debate r; voting := voting r;
   final_announcement := final_announcement r;
   final_decision := Some v; final_report := final_report r |}.
Definition set_final_report (v : list (text * value)) (r : results)
: results :=
{| problem_statement := problem_statement r; research := research r;
   debate := debate r; voting := voting r;
   final_announcement := final_announcement r;
   final_decision := final_decision r; final_report := Some v |}.

(** The orchestrator as the phases see it: [self.results], the events
  handed to the emitter so far, and the invocations made so far. *)
Record state :=
{ self_results : results;
  emitted : list event;
  invocations : list invocation }.

(** *** Effects: state and exceptions *)

Inductive result (A : Type) :=
| Raise (message : text)
| Return (a : A).
Arguments Raise {A} message.
Arguments Return {A} a.

Definition M (A : Type) : Type := state -> state * result A.

Definition ret {A} (a : A) : M A := fun st => (st, Return a).
Definition raise {A} (message : text) : M A := fun st => (st, Raise message).
Definition bind {A B} (m : M A) (k : A -> M B) : M B :=
fun st =>
  match m st with
  | (st', Return a) => k a st'
  | (st', Raise e) => (st', Raise e)
  end.

Notation "x <- m ;; k" := (bind m (fun x => k))
(at level 61, m at next level, right associativity).
Notation "m ;; k" := (bind m (fun _ => k))
(at level 61, right associativity).

(** [for x in xs: acc = body(acc, x)]. *)
Fixpoint for_each {A B} (xs : list A) (acc : B) (body : B -> A -> M B)
: M B :=
match xs with
| [] => ret acc
| x :: xs' => acc' <- body acc x ;; for_each xs' acc' body
end.

Definition update_results (f : results -> results) : M unit :=
fun st =>
  ({| self_results := f (self_results st);
      emitted := emitted st;
      invocations := invocations st |}, Return tt).

Definition get_results : M results := fun st => (st, Return (self_results st)).

(** *** The consensus heuristic *)

Definition agreement_keywords : list text :=
map str ["agree"; "support"; "concur"; "consensus"; "aligned";
         "correct"]%string.
Definition disagreement_keywords : list text :=
map str ["disagree"; "oppose"; "against"; "however"; "but";
         "contrary"]%string.

(** The body of the loop of [_assess_consensus]: the score that one
  argument adds to [total_score], if it adds one. *)
Definition argument_score (argument : text) : option float :=
let arg_lower := lower argument in
let agreement_count := count_keywords agreement_keywords arg_lower in
let disagreement_count := count_keywords disagreement_keywords arg_lower in
if 0 <? agreement_count + disagreement_count
then Some (float_of_nat agreement_count
           / float_of_nat (agreement_count + disagreement_count)
           * 100)%float
else None.

(** [total_score] after the loop.  The source starts from the integer 0,
  which the first addition turns into the float of the same value. *)
Definition total_score (arguments : list text) : float :=
fold_left
  (fun total argument =>
     match argument_score argument with
     | Some score => (total + score)%float
     | None => total
     end)
  arguments 0%float.

Definition _assess_consensus (round_arguments : dict text) : option Z :=
match round_arguments with
| [] => Some 0%Z
| _ :: _ =>
    match int_of_float (total_score (dict_values round_arguments)
                        / float_of_nat (length round_arguments))%float with
    | Some consensus_level => Some (Z.min (Z.max consensus_level 0) 100)
    | None => None
    end
end.

(** *** The agent catalogue ([agent_system.py]) *)

Record agent_definition :=
{ def_id : text; def_name : text; def_category : text }.

Definition agent_definitions : list agent_definition :=
[ Build_agent_definition (str "problem_statement")
    (str "Problem Statement Expert") (str "orchestration");
  Build_agent_definition (str "turn_management")
    (str "Turn Management Expert") (str "orchestration");
  Build_agent_definition (str "voting_announcement")
    (str "Voting Coordinator") (str "orchestration");
  Build_agent_definition (str "economic")
    (str "Economic Analyst") (str "core");
  Build_agent_definition (str "social")
    (str "Social Dynamics Expert") (str "core");
  Build_agent_definition (str "geospatial")
    (str "Geospatial Analyst") (str "core");
  Build_agent_definition (str "income")
    (str "Income Distribution Analyst") (str "core");
  Build_agent_definition (str "resource")
    (str "Resource Management Expert") (str "core");
  Build_agent_definition (str "legal")
    (str "Legal Adviser") (str "core");
  Build_agent_definition (str "economic_macro")
    (str "Macro-Economic Expert") (str "economic_moe");
  Build_agent_definition (str "economic_micro")
    (str "Micro-Economic Expert") (str "economic_moe");
  Build_agent_definition (str "policy_impact")
    (str "Policy Impact Expert") (str "economic_moe");
  Build_agent_definition (str "trade_investment")
    (str "Trade & Investment Expert") (str "economic_moe");
  Build_agent_definition (str "healthcare_welfare")
    (str "Healthcare Expert") (str "social_moe");
  Build_agent_definition (str "education_welfare")
    (str "Education Expert") (str "social_moe");
  Build_agent_definition (str "housing_welfare")
    (str "Housing Expert") (str "social_moe");
  Build_agent_definition (str "geographic_poverty")
    (str "Geographic Poverty Expert") (str "geospatial_moe");
  Build_agent_definition (str "demographic_policy")
    (str "Demographic Policy Expert") (str "geospatial_moe");
  Build_agent_definition (str "resource_access")
    (str "Resource Access Expert") (str "geospatial_moe");
  Build_agent_definition (str "inequality_causes")
    (str "Inequality Causes Expert") (str "income_moe");
  Build_agent_definition (str "income_redistribution")
    (str "Redistribution Policy Expert") (str "income_moe");
  Build_agent_definition (str "inequality_impact")
    (str "Inequality Impact Expert") (str "income_moe");
  Build_agent_definition (str "resource_optimization")
    (str "Resource Optimization Expert") (str "resource_moe");
  Build_agent_definition (str "realtime_allocation")
    (str "Real-Time Allocation Expert") (str "resource_moe");
  Build_agent_definition (str "system_efficiency")
    (str "System Efficiency Expert") (str "resource_moe");
  Build_agent_definition (str "policy_monitoring")
    (str "Policy Monitoring Expert") (str "feedback_moe");
  Build_agent_definition (str "adaptive_policy")
    (str "Adaptive Policy Expert") (str "feedback_moe") ].

(** The methods of [DecisionAgentSystem], for [hasattr]. *)
Definition agent_system_methods : list text :=
map str
  [ "__init__"; "problem_statement_expert"; "turn_management_expert";
    "voting_announcement_expert"; "economic_agent"; "social_agent";
    "geospatial_agent"; "income_agent"; "resource_agent"; "legal_agent";
    "macro_economic_expert"; "micro_economic_expert";
    "policy_impact_expert"; "trade_investment_expert";
    "healthcare_welfare_expert"; "education_welfare_expert";
    "housing_welfare_expert"; "geographic_poverty_expert";
    "demographic_policy_expert"; "resource_access_expert";
    "inequality_causes_expert"; "income_redistribution_expert";
    "inequality_impact_expert"; "resource_optimization_expert";
    "realtime_allocation_expert"; "system_efficiency_expert";
    "policy_monitoring_expert"; "adaptive_policy_expert";
    "get_all_agent_definitions" ].

Definition method_map : dict text :=
[ (str "problem_statement", str "problem_statement_expert");
  (str "turn_management", str "turn_management_expert");
  (str "voting_announcement", str "voting_announcement_expert");
  (str "economic", str "economic_agent");
  (str "social", str "social_agent");
  (str "geospatial", str "geospatial_agent");
  (str "income", str "income_agent");
  (str "resource", str "resource_agent");
  (str "legal", str "legal_agent");
  (str "economic_macro", str "macro_economic_expert");
  (str "economic_micro", str "micro_economic_expert");
  (str "policy_impact", str "policy_impact_expert");
  (str "trade_investment", str "trade_investment_expert");
  (str "healthcare_welfare", str "healthcare_welfare_expert");
  (str "education_welfare", str "education_welfare_expert");
  (str "housing_welfare", str "housing_welfare_expert");
  (str "geographic_poverty", str "geographic_poverty_expert");
  (str "demographic_policy", str "demographic_policy_expert");
  (str "resource_access", str "resource_access_expert");
  (str "inequality_causes", str "inequality_causes_expert");
  (str "income_redistribution", str "income_redistribution_expert");
  (str "inequality_impact", str "inequality_impact_expert");
  (str "resource_optimization", str "resource_optimization_expert");
  (str "realtime_allocation", str "realtime_allocation_expert");
  (str "system_efficiency", str "system_efficiency_expert");
  (str "policy_monitoring", str "policy_monitoring_expert");
  (str "adaptive_policy", str "adaptive_policy_expert") ].

(** The [agents] dictionary maps an agent id to the agent built for it;
  the agent is named by the method that built it. *)
Definition agents_dict := dict text.

Definition orchestration_ids : list text :=
map str ["problem_statement"; "turn_management";
         "voting_announcement"]%string.

(** [[a for a in agents.keys() if a not in [...]]]. *)
Definition domain_experts_of (agents : agents_dict) : list text :=
filter (fun a => negb (existsb (text_eqb a) orchestration_ids))
  (dict_keys agents).

(** [agent_id.replace('_', ' ').title()]. *)
Definition display_name (agent_id : text) : text :=
title (replace_char "_" " " agent_id).

Definition research_groups : list (text * list text) :=
[ (str "Economic Analysis",
   map str ["economic"; "economic_macro"; "economic_micro";
            "policy_impact"; "trade_investment"]%string);
  (str "Social Welfare",
   map str ["social"; "healthcare_welfare"; "education_welfare";
            "housing_welfare"]%string);
  (str "Geospatial",
   map str ["geospatial"; "geographic_poverty"; "demographic_policy";
            "resource_access"]%string);
  (str "Income Inequality",
   map str ["income"; "inequality_causes"; "income_redistribution";
            "inequality_impact"]%string);
  (str "Resource Management",
   map str ["resource"; "resource_optimization"; "realtime_allocation";
            "system_efficiency"]%string);
  (str "Adaptation",
   map str ["policy_monitoring"; "adaptive_policy"]%string);
  (str "Legal",
   map str ["legal"]%string) ].

(** The chain of substring tests that picks the research template. *)
Definition research_task_for (agent_id policy_topic : text) : task :=
let id := lower agent_id in
let has (kw : string) := contains (str kw) id in
(if has "economic" then economic_analysis_task policy_topic
else if has "social" || has "healthcare" || has "education"
        || has "housing"
then social_welfare_task policy_topic
else if has "geo" || has "demographic"
then geospatial_demographic_task policy_topic
else if has "income" || has "inequality"
then income_inequality_task policy_topic
else if has "resource" || has "allocation" || has "efficiency"
then resource_allocation_task policy_topic
else if has "monitoring" || has "adaptive"
then adaptation_feedback_task policy_topic
else if has "legal" then legal_compliance_task policy_topic
else research_task policy_topic (display_name agent_id))%string.

(** *** The text of a debate task

  The lines of the two templates are indented as the source has them, by
  sixteen and by twelve blanks; a line that is empty but for its
  indentation keeps it. *)

Definition pad16 : text := repeat " "%char 16.
Definition pad12 : text := repeat " "%char 12.

Definition debate_task_round : text :=
[newline] ++ pad16 ++ str "**Round ".

Definition debate_task_previous : text := str " Debate on: ".

Definition debate_task_instructions : text :=
str "**" ++ [newline] ++ pad16 ++ [newline] ++ pad16
++ str "Previous Arguments from Other Experts:" ++ [newline] ++ pad16.

Definition debate_task_respond : text :=
[newline] ++ pad16 ++ [newline] ++ pad16 ++ str "Your Task:"
++ [newline] ++ pad16
++ str "1. Consider the arguments presented by other experts above"
++ [newline] ++ pad16
++ str "2. Identify points of agreement and disagreement"
++ [newline] ++ pad16 ++ str "3. Present YOUR perspective on ".

Definition debate_task_closing : text :=
[newline] ++ pad16
++ str "4. Respond to arguments you disagree with (provide counter-arguments)"
++ [newline] ++ pad16
++ str "5. Build upon arguments you agree with (provide supporting evidence)"
++ [newline] ++ pad16
++ str "6. Propose synthesis or compromise positions where appropriate"
++ [newline] ++ pad16 ++ [newline] ++ pad16
++ str "Be specific, evidence-based, and engage directly with others' points."
++ [newline] ++ pad16.

(** One entry of the context of [_build_debate_context]. *)
Definition context_part (arg : debate_entry) : text :=
[newline] ++ pad12 ++ str "**" ++ agent_name arg ++ str " (Round "
++ str_of_nat (round arg) ++ str "):**"
++ [newline] ++ pad12 ++ slice_to 300 (argument arg) ++ str "..."
++ [newline] ++ pad12.

Definition _build_debate_context (debate_history : list debate_entry)
  (current_round : nat) (current_agent : text) : text :=
match debate_history with
| [] => str "No previous arguments yet. You are among the first to speak."
| _ :: _ =>
    let relevant_args :=
      filter
        (fun arg =>
           (round arg <? current_round)
           || ((round arg =? current_round)
               && negb (text_eqb (agent_id arg) current_agent)))
        debate_history in
    match relevant_args with
    | [] => str "No previous arguments in this round yet."
    | _ :: _ =>
        join [newline]
          (map context_part
             (skipn (length relevant_args - 5) relevant_args))
    end
end.

Definition task_description (round_num : nat) (policy_topic context : text)
: text :=
debate_task_round ++ str_of_nat round_num ++ debate_task_previous
++ policy_topic ++ debate_task_instructions ++ context
++ debate_task_respond ++ policy_topic ++ debate_task_closing.

Definition str_of_Z (z : Z) : text :=
if (z <? 0)%Z then "-"%char :: str_of_nat (Z.to_nat (- z))
else str_of_nat (Z.to_nat z).

Definition max_rounds : nat := 3.

(** *** The orchestrator *)

Section Orchestrator.

(** The language model, whether an event emitter was given to the
    constructor, and the session the run belongs to. *)
Variable llm : oracle.
Variable event_emitter : bool.
Variable session_id : text.

(** [emit_event]: the event goes to the emitter when there is one; a
    failure of the emitter is logged and not raised. *)
Definition emit_event (name : string) (payload : list (string * value))
  : M unit :=
  fun st =>
    if event_emitter
    then ({| self_results := self_results st;
             emitted :=
               emitted st
               ++ [ {| event_name := str name;
                       data := map (fun kv => (str (fst kv), snd kv))
                                 payload;
                       session := session_id |} ];
             invocations := invocations st |}, Return tt)
    else (st, Return tt).

(** [str(await asyncio.to_thread(Crew(agents=[agent], tasks=[task],
    ...).kickoff))]. *)
Definition kickoff (agent_id : text) (t : task) : M text :=
  fun st =>
    let a := llm (length (invocations st)) agent_id t in
    let st' :=
      {| self_results := self_results st;
         emitted := emitted st;
         invocations :=
           invocations st
           ++ [ {| agent := agent_id; job := t; answer := a |} ] |} in
    match a with
    | Raised message => (st', Raise message)
    | Returned output => (st', Return output)
    end.

(** [agents[key]]; the message is [str(KeyError(key))]. *)
Definition agent_at (agents : agents_dict) (key : string) : M text :=
  match dict_get (str key) agents with
  | Some a => ret a
  | None => raise ("'"%char :: str key ++ ["'"%char])
  end.

Definition initialize_agents : M agents_dict :=
  for_each agent_definitions ([] : agents_dict)
    (fun agents agent_def =>
       let agent_id := def_id agent_def in
       emit_event "agent_created"
         [ ("agent_id", VStr agent_id);
           ("agent_name", VStr (def_name agent_def));
           ("category", VStr (def_category agent_def));
           ("status", VStr (str "initialized")) ] ;;
       match dict_get agent_id method_map with
       | Some method_name =>
           if existsb (text_eqb method_name) agent_system_methods
           then ret (dict_set agent_id method_name agents)
           else ret agents
       | None => ret agents
       end).

Definition phase_problem_statement (agents : agents_dict)
    (policy_topic context : text) : M unit :=
  emit_event "phase_started"
    [ ("phase", VNat 2);
      ("phase_name", VStr (str "Problem Statement"));
      ("message", VStr (str "Clarifying the policy challenge...")) ] ;;
  _ <- agent_at agents "problem_statement" ;;
  emit_event "agent_started"
    [ ("agent_id", VStr (str "problem_statement"));
      ("agent_name", VStr (str "Problem Statement Expert"));
      ("action", VStr (str "clarifying problem")) ] ;;
  result <- kickoff (str "problem_statement")
              (problem_statement_task policy_topic context) ;;
  let result_str :=
    if fst (is_valid_policy_output result)
    then extract_policy_content result
    else create_fallback_response (str "Problem Statement Expert")
           policy_topic in
  update_results (set_problem_statement result_str) ;;
  emit_event "agent_completed"
    [ ("agent_id", VStr (str "problem_statement"));
      ("output", VStr (slice_to 500 result)) ] ;;
  emit_event "phase_completed"
    [ ("phase", VNat 2);
      ("phase_name", VStr (str "Problem Statement")) ].

(** [total_count] of the research phase. *)
Definition research_total_count : nat :=
  list_sum (map (fun g => length (snd g)) research_groups).

(** The body of the inner loop of [phase_research]. *)
Definition research_step (agents : agents_dict) (policy_topic : text)
    (group_name : text) (acc : dict text * nat) (agent_id : text)
  : M (dict text * nat) :=
  let '(research_results, completed_count) := acc in
  if negb (dict_has agent_id agents) then ret acc
  else
    emit_event "agent_started"
      [ ("agent_id", VStr agent_id);
        ("agent_name", VStr (display_name agent_id));
        ("action", VStr (str "conducting research"));
        ("group", VStr group_name) ] ;;
    result <- kickoff agent_id (research_task_for agent_id policy_topic) ;;
    let result_str :=
      if fst (is_valid_policy_output result)
      then extract_policy_content result
      else create_fallback_response (display_name agent_id)
             policy_topic in
    let research_results := dict_set agent_id result_str research_results in
    let completed_count := completed_count + 1 in
    emit_event "agent_completed"
      [ ("agent_id", VStr agent_id);
        ("output", VStr (slice_to 500 result));
        ("progress",
         VStr (str_of_nat completed_count ++ str "/"
               ++ str_of_nat research_total_count)) ] ;;
    ret (research_results, completed_count).

Definition phase_research (agents : agents_dict) (policy_topic : text)
  : M unit :=
  emit_event "phase_started"
    [ ("phase", VNat 3);
      ("phase_name", VStr (str "Research & Analysis"));
      ("message", VStr (str "All experts conducting research..."));
      ("total_agents", VNat (length (domain_experts_of agents))) ] ;;
  acc <- for_each research_groups (([] : dict text), 0)
           (fun acc group =>
              for_each (snd group) acc
                (research_step agents policy_topic (fst group))) ;;
  update_results (set_research (fst acc)) ;;
  emit_event "phase_completed"
    [ ("phase", VNat 3);
      ("phase_name", VStr (str "Research & Analysis"));
      ("completed_agents", VNat (snd acc)) ].

(** The body of the inner loop of [phase_debate]: one agent speaks. *)
Definition debate_step (policy_topic : text) (round_num : nat)
    (number_of_experts : nat)
    (acc : dict text * list debate_entry) (indexed : nat * text)
  : M (dict text * list debate_entry) :=
  let '(round_arguments, debate_history) := acc in
  let '(i, agent_id) := indexed in
  emit_event "agent_started"
    [ ("agent_id", VStr agent_id);
      ("agent_name", VStr (display_name agent_id));
      ("action",
       VStr (str "debating (Round " ++ str_of_nat round_num ++ str ")"));
      ("progress",
       VStr (str "Round " ++ str_of_nat round_num ++ str ": "
             ++ str_of_nat (i + 1) ++ str "/"
             ++ str_of_nat number_of_experts)) ] ;;
  let context := _build_debate_context debate_history round_num agent_id in
  result <- kickoff agent_id
              (debate_task (task_description round_num policy_topic
                              context)) ;;
  let argument := result in
  let round_arguments := dict_set agent_id argument round_arguments in
  let debate_history :=
    debate_history
    ++ [ {| round := round_num; agent_id := agent_id;
            agent_name := display_name agent_id;
            argument := argument |} ] in
  emit_event "agent_completed"
    [ ("agent_id", VStr agent_id);
      ("output", VStr (slice_to 500 argument));
      ("round", VNat round_num) ] ;;
  ret (round_arguments, debate_history).

(** One pass of the outer loop up to the consensus check: every domain
    expert speaks once. *)
Definition debate_round (policy_topic : text) (domain_experts : list text)
    (round_num : nat) (debate_history : list debate_entry)
  : M (dict text * list debate_entry) :=
  emit_event "debate_round_started"
    [ ("round", VNat round_num);
      ("total_rounds", VNat max_rounds);
      ("message",
       VStr (str "Round " ++ str_of_nat round_num
             ++ str ": Agents presenting arguments and rebuttals...")) ] ;;
  for_each (combine (List.seq 0 (length domain_experts)) domain_experts)
    (([] : dict text), debate_history)
    (debate_step policy_topic round_num (length domain_experts)).

(** The outer loop of [phase_debate] over the round numbers still to
    come.  The result is [debate_history], the last value of
    [round_num] and [consensus_reached] as the loop leaves them. *)
Fixpoint debate_rounds (policy_topic : text) (domain_experts : list text)
    (round_nums : list nat) (debate_history : list debate_entry)
    (last_round : nat) : M (list debate_entry * nat * bool) :=
  match round_nums with
  | [] => ret (debate_history, last_round, false)
  | round_num :: later =>
      acc <- debate_round policy_topic domain_experts round_num
               debate_history ;;
      let '(round_arguments, debate_history) := acc in
      if round_num <? max_rounds then
        match _assess_consensus round_arguments with
        | None => raise (str "cannot convert float to integer")
        | Some consensus_level =>
            emit_event "consensus_check"
              [ ("round", VNat round_num);
                ("consensus_level", VInt consensus_level);
                ("message",
                 VStr (str "Consensus level: "
                       ++ str_of_Z consensus_level ++ str "% - "
                       ++ (if (consensus_level <? 70)%Z
                           then str "Continuing debate..."
                           else str "High agreement reached!"))) ] ;;
            if (70 <=? consensus_level)%Z then
              emit_event "consensus_reached"
                [ ("round", VNat round_num);
                  ("message",
                   VStr (str "Strong consensus reached among experts!")) ] ;;
              ret (debate_history, round_num, true)
            else
              debate_rounds policy_topic domain_experts later
                debate_history round_num
        end
      else
        debate_rounds policy_topic domain_experts later debate_history
          round_num
  end.

Definition phase_debate (agents : agents_dict) (policy_topic : text)
  : M unit :=
  emit_event "phase_started"
    [ ("phase", VNat 4);
      ("phase_name", VStr (str "Structured Debate"));
      ("message", VStr (str "Experts engaging in dynamic debate...")) ] ;;
  let domain_experts := domain_experts_of agents in
  final <- debate_rounds policy_topic domain_experts
             (List.seq 1 max_rounds) [] 0 ;;
  let '(debate_history, round_num, consensus_reached) := final in
  update_results
    (set_debate {| history := debate_history; rounds := round_num;
                   consensus_reached := consensus_reached |}) ;;
  emit_event "phase_completed"
    [ ("phase", VNat 4);
      ("phase_name", VStr (str "Structured Debate"));
      ("total_rounds", VNat round_num);
      ("consensus_reached", VBool consensus_reached) ].

(** The body of the loop of [phase_voting]. *)
Definition voting_step (policy_topic : text) (number_of_experts : nat)
    (voting_results : dict text) (indexed : nat * text)
  : M (dict text) :=
  let '(i, agent_id) := indexed in
  emit_event "agent_started"
    [ ("agent_id", VStr agent_id);
      ("agent_name", VStr (display_name agent_id));
      ("action", VStr (str "voting"));
      ("progress",
       VStr (str_of_nat (i + 1) ++ str "/"
             ++ str_of_nat number_of_experts)) ] ;;
  result <- kickoff agent_id (voting_task policy_topic) ;;
  let voting_results := dict_set agent_id result voting_results in
  emit_event "vote_cast"
    [ ("agent_id", VStr agent_id);
      ("vote", VStr (slice_to 200 result)) ] ;;
  emit_event "agent_completed"
    [ ("agent_id", VStr agent_id);
      ("output", VStr (slice_to 500 result)) ] ;;
  ret voting_results.

Definition phase_voting (agents : agents_dict) (policy_topic : text)
  : M unit :=
  emit_event "phase_started"
    [ ("phase", VNat 5);
      ("phase_name", VStr (str "Democratic Voting"));
      ("message", VStr (str "Experts casting votes...")) ] ;;
  let domain_experts := domain_experts_of agents in
  voting_results <-
    for_each (combine (List.seq 0 (length domain_experts)) domain_experts)
      ([] : dict text)
      (voting_step policy_topic (length domain_experts)) ;;
  update_results (set_voting voting_results) ;;
  emit_event "phase_completed"
    [ ("phase", VNat 5);
      ("phase_name", VStr (str "Democratic Voting"));
      ("total_votes", VNat (length voting_results)) ].

(** The decision that [phase_results] reads off the announcement. *)
Definition extract_decision (announcement : text) : text :=
  let result_str := upper announcement in
  if contains (str "APPROVED") result_str
     || contains (str "APPROVE") result_str
  then str "APPROVED"
  else if contains (str "REJECTED") result_str
          || contains (str "REJECT") result_str
  then str "REJECTED"
  else str "CONDITIONAL".

Definition phase_results (agents : agents_dict) (policy_topic : text)
  : M unit :=
  emit_event "phase_started"
    [ ("phase", VNat 6);
      ("phase_name", VStr (str "Results Analysis"));
      ("message", VStr (str "Tallying votes and analyzing results...")) ] ;;
  _ <- agent_at agents "voting_announcement" ;;
  emit_event "agent_started"
    [ ("agent_id", VStr (str "voting_announcement"));
      ("agent_name", VStr (str "Voting Coordinator"));
      ("action", VStr (str "announcing results")) ] ;;
  result <- kickoff (str "voting_announcement")
              (voting_coordination_task policy_topic
                 (str "Review all votes above")) ;;
  update_results (set_final_announcement result) ;;
  let final_decision := extract_decision result in
  update_results (set_final_decision final_decision) ;;
  emit_event "results_announced"
    [ ("decision", VStr final_decision);
      ("announcement", VStr (slice_to 500 result)) ] ;;
  emit_event "phase_completed"
    [ ("phase", VNat 6);
      ("phase_name", VStr (str "Results Analysis"));
      ("final_decision", VStr final_decision) ].

Definition or_default {A} (o : option A) (default : A) : A :=
  match o with Some a => a | None => default end.

Definition phase_final_report (policy_topic : text) : M unit :=
  emit_event "phase_started"
    [ ("phase", VNat 7);
      ("phase_name", VStr (str "Final Report"));
      ("message", VStr (str "Generating comprehensive report...")) ] ;;
  r <- get_results ;;
  let report :=
    map (fun kv => (str (fst kv), snd kv))
      [ ("policy_topic", VStr policy_topic);
        ("timestamp", VClock);
        ("problem_statement", VStr (or_default (problem_statement r) []));
        ("research_count", VNat (length (or_default (research r) [])));
        ("debate_count",
         VNat (match debate r with Some _ => 3 | None => 0 end));
        ("votes_count", VNat (length (or_default (voting r) [])));
        ("final_decision",
         VStr (or_default (final_decision r) (str "Unknown")));
        ("final_announcement",
         VStr (or_default (final_announcement r) [])) ] in
  update_results (set_final_report report) ;;
  emit_event "report_generated" [ ("report", VDict report) ] ;;
  emit_event "phase_completed"
    [ ("phase", VNat 7);
      ("phase_name", VStr (str "Final Report")) ].

(** The body of the [try] block of [run_deliberation]. *)
Definition deliberation (policy_topic background_context : text)
  : M unit :=
  emit_event "phase_started"
    [ ("phase", VNat 1);
      ("phase_name", VStr (str "Initialization"));
      ("message", VStr (str "Initializing all expert agents...")) ] ;;
  agents <- initialize_agents ;;
  emit_event "phase_completed"
    [ ("phase", VNat 1);
      ("phase_name", VStr (str "Initialization"));
      ("agent_count", VNat (length agents)) ] ;;
  phase_problem_statement agents policy_topic background_context ;;
  phase_research agents policy_topic ;;
  phase_debate agents policy_topic ;;
  phase_voting agents policy_topic ;;
  phase_results agents policy_topic ;;
  phase_final_report policy_topic ;;
  r <- get_results ;;
  emit_event "deliberation_complete"
    [ ("session_id", VStr session_id);
      ("duration_seconds", VClock);
      ("total_agents", VNat (length agents));
      ("final_decision",
       VStr (or_default (final_decision r) (str "Unknown"))) ].

(** What [run_deliberation] returns: [{'success': True, 'results': ...}]
    or [{'success': False, 'error': ...}]. *)
Inductive run_result :=
| Succeeded (run_results : results)
| Failed (error : text).

Definition run_deliberation (policy_topic background_context : text)
    (st : state) : state * run_result :=
  match deliberation policy_topic background_context st with
  | (st', Return _) => (st', Succeeded (self_results st'))
  | (st', Raise e) =>
      (fst (emit_event "deliberation_error"
              [ ("error", VStr e);
                ("phase", VStr (str "Unknown")) ] st'),
       Failed e)
  end.

End Orchestrator.

End Deliberation.

(** ** [policy_service.py] *)

Module PolicyService.
Import Py Deliberation.

(** [session.results]: empty at creation, then the results of the run or
  [{'error': message}].  The results of a run are held here as they are
  when the run ends; the code binds [session.results] to the dict
  [self.results] of the deliberation system itself, which later runs
  change, and [SharedResults] below follows that reference. *)
Inductive session_results :=
| NoResults
| DeliberationResults (r : results)
| ErrorResults (error : text).

(** [PolicySession], without its two time stamps. *)
Record PolicySession :=
{ session_id : text;
  policy_topic : text;
  background_context : text;
  status : text;
  current_phase : nat;
  phase_name : text;
  session_results_of : session_results }.

Definition with_outcome (s : PolicySession) (new_status : text)
  (r : session_results) : PolicySession :=
{| session_id := session_id s;
   policy_topic := policy_topic s;
   background_context := background_context s;
   status := new_status;
   current_phase := current_phase s;
   phase_name := phase_name s;
   session_results_of := r |}.

(** The service: its sessions and the one deliberation system that all
  sessions share. *)
Record service :=
{ active_sessions : dict PolicySession;
  deliberation_system : state }.

Section Service.
Variable llm : oracle.
Variable event_emitter : bool.

(** [_run_deliberation].  [run_deliberation] catches every [Exception]
    itself, so the handler of this method is never entered by a failing
    agent; what an agent raises is such an exception (a cancellation of
    the task is not one and is not modelled). *)
Definition _run_deliberation (sid : text) (svc : service)
  : service * result unit :=
  match dict_get sid (active_sessions svc) with
  | None => (svc, Raise ("'"%char :: sid ++ ["'"%char]))
  | Some session =>
      let '(st', r) :=
        run_deliberation llm event_emitter sid
          (policy_topic session) (background_context session)
          (deliberation_system svc) in
      let session' :=
        match r with
        | Succeeded res =>
            with_outcome session (str "completed")
              (DeliberationResults res)
        | Failed e =>
            with_outcome session (str "error") (ErrorResults e)
        end in
      ({| active_sessions := dict_set sid session' (active_sessions svc);
          deliberation_system := st' |}, Return tt)
  end.
End Service.

End PolicyService.

(** ** [uagent_main.py]: the entry point of the stand-alone driver *)

Module AutoPolicy.
Import Py.

(** The instance of [AutoPolicyDeliberationSystem]: its six parameters,
  the other attributes and methods that [setattr] has replaced by a
  string, and what was printed.  The values of the inputs are strings. *)
Record system :=
{ policy_topic : text;
  background_context : text;
  city_data : text;
  policy_type : text;
  time_range : text;
  interests : text;
  replaced : dict text;
  printed : list text }.

(** The attributes set by [__init__] besides the six parameters, and the
  methods that the class defines under a plain name. *)
Definition other_attributes : list text :=
map str
  [ "agent_system"; "task_system"; "deliberation_results"; "agents";
    "is_initialized"; "update_parameters"; "kickoff"; "run";
    "run_quick_analysis"; "run_research_only"; "run_debate_only";
    "initialize_agents_for_policy"; "run_problem_statement_phase";
    "run_turn_management_setup"; "run_research_phase";
    "run_debate_phase"; "run_voting_phase"; "run_final_announcement";
    "generate_final_summary_report"; "run_full_deliberation" ].

Definition parameter_names : list text :=
map str
  [ "policy_topic"; "background_context"; "city_data"; "policy_type";
    "time_range"; "interests" ].

(** A name with two leading and two trailing underscores.  Every object
  has attributes of such names ([__class__], [__dict__], [__doc__],
  [__init__], ...): which ones depends on the version of Python, and
  [setattr] raises for some of them and sets others.  The model does not
  say what an input of such a name does. *)
Definition is_dunder (key : text) : bool :=
(4 <=? length key) && starts_with (str "__") key
&& starts_with (str "__") (rev key).

(** [hasattr(self, key)] for a key that is not such a name. *)
Definition hasattr (key : text) : bool :=
existsb (text_eqb key) parameter_names
|| existsb (text_eqb key) other_attributes.

Definition setattr (key value : text) (self : system) : system :=
let put (name : string) (old : text) :=
  if text_eqb key (str name) then value else old in
{| policy_topic := put "policy_topic" (policy_topic self);
   background_context := put "background_context" (background_context self);
   city_data := put "city_data" (city_data self);
   policy_type := put "policy_type" (policy_type self);
   time_range := put "time_range" (time_range self);
   interests := put "interests" (interests self);
   replaced :=
     if existsb (text_eqb key) other_attributes
     then dict_set key value (replaced self)
     else replaced self;
   printed := printed self |}.

Definition print (line : text) (self : system) : system :=
{| policy_topic := policy_topic self;
   background_context := background_context self;
   city_data := city_data self;
   policy_type := policy_type self;
   time_range := time_range self;
   interests := interests self;
   replaced := replaced self;
   printed := printed self ++ [line] |}.

(** The loop of [update_parameters] over keys of plain names. *)
Definition update_attributes (kwargs : dict text) (self : system) : system :=
fold_left
  (fun self kv =>
     let '(key, value) := kv in
     if hasattr key
     then print (str "Updated " ++ key ++ str ": " ++ value)
            (setattr key value self)
     else self)
  kwargs self.

(** [update_parameters], called with the keywords [kwargs]; [None] where
  the model does not say what happens: some key is a name with double
  underscores. *)
Definition update_parameters (kwargs : dict text) (self : system)
: option system :=
if existsb is_dunder (dict_keys kwargs) then None
else Some (update_attributes kwargs self).

Definition set_background_context (value : text) (self : system) : system :=
setattr (str "background_context") value self.

Definition truthy (s : text) : bool :=
match s with [] => false | _ :: _ => true end.

(** How [kickoff] ends: in the call of a method, with its arguments, or
  in a [TypeError], which a method raises when an input has replaced it
  by a string, and the call of [update_parameters] when [self] is among
  the keywords. *)
Inductive dispatch :=
| run_full_deliberation (topic context : text)
| run_quick_analysis
| run_research_only
| run_debate_only
| not_callable (method : text)
| keyword_self.

Definition call (self : system) (method : string) (d : dispatch) : dispatch :=
if dict_has (str method) (replaced self)
then not_callable (str method) else d.

(** [kickoff] behind the update of the parameters. *)
Definition kickoff_from (mode : text) (self : system) : system * dispatch :=
let self :=
  if truthy (city_data self) || truthy (policy_type self)
     || truthy (time_range self) || truthy (interests self)
  then
    let context_parts :=
      (if truthy (city_data self)
       then [str "City/Region: " ++ city_data self] else [])
      ++ (if truthy (policy_type self)
          then [str "Policy Type: " ++ policy_type self] else [])
      ++ (if truthy (time_range self)
          then [str "Evaluation Timeframe: " ++ time_range self] else [])
      ++ (if truthy (interests self)
          then [str "Key Evaluation Criteria: " ++ interests self]
          else []) in
    if negb (truthy (background_context self))
    then set_background_context (join [newline] context_parts) self
    else set_background_context
           (background_context self ++ [newline; newline]
            ++ join [newline] context_parts) self
  else self in
let full :=
  call self "run_full_deliberation"
    (run_full_deliberation (policy_topic self) (background_context self)) in
(self,
 if text_eqb mode (str "full") then full
 else if text_eqb mode (str "quick")
 then call self "run_quick_analysis" run_quick_analysis
 else if text_eqb mode (str "research_only")
 then call self "run_research_only" run_research_only
 else if text_eqb mode (str "debate_only")
 then call self "run_debate_only" run_debate_only
 else full).

(** [kickoff(inputs)]: the instance as the call leaves it and how the
  call ends; [None] where [update_parameters] is [None]. *)
Definition kickoff (inputs : option (dict text)) (self : system)
: option (system * dispatch) :=
match inputs with
| Some (kv :: rest) =>
    let kwargs := kv :: rest in
    if dict_has (str "update_parameters") (replaced self)
    then Some (self, not_callable (str "update_parameters"))
    else if dict_has (str "self") kwargs
    then Some (self, keyword_self)
    else
      match update_parameters kwargs self with
      | None => None
      | Some self' =>
          Some (kickoff_from
                  match dict_get (str "mode") kwargs with
                  | Some m => m
                  | None => str "full"
                  end self')
      end
| _ => Some (kickoff_from (str "full") self)
end.

End AutoPolicy.

(** ** Notions in which the properties are stated *)

Module Notions.
Import Py Re OutputValidator Deliberation.

(** [word] occurs in [s] when letter case is ignored; [word] is written in
  lower case. *)
Definition occurs_lower (word s : text) : Prop :=
exists pre mid post, s = pre ++ mid ++ post /\ lower mid = word.

(** The same for a [word] written in upper case. *)
Definition occurs_upper (word s : text) : Prop :=
exists pre mid post, s = pre ++ mid ++ post /\ upper mid = word.

(** [s] mentions one of the keywords. *)
Definition mentions (keywords : list text) (s : text) : Prop :=
exists kw, In kw keywords /\ occurs_lower kw s.

(** The language of a pattern. *)
Inductive Matches : re -> text -> Prop :=
| MEps : Matches Eps []
| MSym p c : cset_match p c = true -> Matches (Sym p) [c]
| MCat a b u v : Matches a u -> Matches b v -> Matches (Cat a b) (u ++ v)
| MAltL a b u : Matches a u -> Matches (Alt a b) u
| MAltR a b u : Matches b u -> Matches (Alt a b) u
| MStar0 a : Matches (Star a) []
| MStarS a u v :
  Matches a u -> Matches (Star a) v -> Matches (Star a) (u ++ v).

(** Some substring of [s] belongs to the language of [r]. *)
Definition found (r : re) (s : text) : Prop :=
exists pre mid post, s = pre ++ mid ++ post /\ Matches r mid.

(** Some code pattern is found in [s]. *)
Definition has_code_pattern (s : text) : Prop :=
exists p, In p CODE_PATTERNS /\ found (ast p) s.

(** [n] of the [keywords] occur in [s], letter case ignored. *)
Inductive occurring (s : text) : list text -> nat -> Prop :=
| occurring_nil : occurring s [] 0
| occurring_hit kw kws n :
  occurs_lower kw s -> occurring s kws n -> occurring s (kw :: kws) (S n)
| occurring_miss kw kws n :
  ~ occurs_lower kw s -> occurring s kws n -> occurring s (kw :: kws) n.

(** The opening fence of a code block whose language tag is made of
  letters, digits and underscores: three backquotes, the tag, which may
  be empty, a line break. *)
Definition has_code_fence (s : text) : Prop :=
exists pre tag post,
  forallb is_word tag = true /\
  s = pre ++ str "```" ++ tag ++ [newline] ++ post.

(** A fenced code block: an opening fence of three backquotes with what
  follows them on their line, the lines of the block, and a closing
  fence. *)
Definition has_fenced_block (s : text) : Prop :=
exists pre info body post,
  ~ In newline info /\
  s = pre ++ str "```" ++ info ++ [newline] ++ body ++ str "```" ++ post.

(** The arguments of round [r] as the history records them, keyed by
  agent. *)
Definition arguments_of_round (h : list debate_entry) (r : nat) : dict text :=
fold_left (fun d e => dict_set (agent_id e) (argument e) d)
  (filter (fun e => round e =? r) h) [].

(** The (round, agent) pairs of a debate in which every expert of
  [experts] spoke in each of the rounds 1..[n]. *)
Definition schedule (experts : list text) (n : nat) : list (nat * text) :=
flat_map (fun r => map (pair r) experts) (List.seq 1 n).

Definition slot (e : debate_entry) : nat * text := (round e, agent_id e).

(** What the first two phases record for an output. *)
Definition validated (role policy_topic output : text) : text :=
if fst (is_valid_policy_output output)
then extract_policy_content output
else create_fallback_response role policy_topic.

End Notions.

(* ===================================================================== *)
(** * Part II.  Properties                                               *)
(* ===================================================================== *)

(** ** Strings *)

Module PyFacts.
Import Py Notions.

Lemma text_eqb_eq (a b : text) : text_eqb a b = true <-> a = b.
Proof.
revert b; induction a as [|x a IH]; intros [|y b]; simpl;
  try (split; [discriminate | discriminate]); try tauto.
rewrite andb_true_iff, Ascii.eqb_eq, IH.
split; [intros [-> ->]; reflexivity | intros H; inversion H; auto].
Qed.

Lemma text_eqb_refl (a : text) : text_eqb a a = true.
Proof. apply text_eqb_eq; reflexivity. Qed.

Lemma text_eqb_neq (a b : text) : text_eqb a b = false <-> a <> b.
Proof.
rewrite <- text_eqb_eq. destruct (text_eqb a b); split; congruence.
Qed.

Lemma starts_with_spec (p s : text) :
starts_with p s = true <-> exists post, s = p ++ post.
Proof.
revert s; induction p as [|a p IH]; intros s; simpl.
- split; [intros _; exists s; reflexivity | reflexivity].
- destruct s as [|b s].
  + split; [discriminate | intros [post H]; discriminate].
  + rewrite andb_true_iff, Ascii.eqb_eq, IH. split.
    * intros [-> [post ->]]. exists post; reflexivity.
    * intros [post H]. inversion H; subst. split; eauto.
Qed.

Lemma contains_spec (kw s : text) :
contains kw s = true <-> exists pre post, s = pre ++ kw ++ post.
Proof.
induction s as [|c s IH]; simpl.
- rewrite orb_false_r, starts_with_spec. split.
  + intros [post H]. exists [], post. exact H.
  + intros [pre [post H]]. destruct pre; [eauto|discriminate].
- rewrite orb_true_iff, starts_with_spec, IH. split.
  + intros [[post H] | [pre [post H]]].
    * exists [], post. exact H.
    * exists (c :: pre), post. rewrite H. reflexivity.
  + intros [[|c' pre] [post H]].
    * left. exists post. exact H.
    * right. inversion H; subst. eauto.
Qed.

Lemma contains_app_l (kw a b : text) :
contains kw a = true -> contains kw (a ++ b) = true.
Proof.
rewrite !contains_spec. intros [pre [post ->]].
exists pre, (post ++ b). rewrite <- !app_assoc. reflexivity.
Qed.

Lemma contains_app_r (kw a b : text) :
contains kw b = true -> contains kw (a ++ b) = true.
Proof.
rewrite !contains_spec. intros [pre [post ->]].
exists (a ++ pre), post. rewrite <- !app_assoc. reflexivity.
Qed.

(** A word that extends a word occurring nowhere occurs nowhere. *)
Lemma contains_longer (kw ext s : text) :
contains (kw ++ ext) s = true -> contains kw s = true.
Proof.
rewrite !contains_spec. intros [pre [post ->]].
exists pre, (ext ++ post). rewrite <- !app_assoc. reflexivity.
Qed.

Lemma map_split3 (f : ascii -> ascii) (s pre kw post : text) :
map f s = pre ++ kw ++ post ->
exists pre' mid post', s = pre' ++ mid ++ post' /\ map f mid = kw.
Proof.
intros H.
apply map_eq_app in H. destruct H as [pre' [rest [-> [_ H]]]].
apply map_eq_app in H. destruct H as [mid [post' [-> [H _]]]].
exists pre', mid, post'. split; [reflexivity | exact H].
Qed.

Lemma contains_lower (kw s : text) :
contains kw (lower s) = true <-> occurs_lower kw s.
Proof.
rewrite contains_spec. unfold occurs_lower, lower. split.
- intros [pre [post H]]. eapply map_split3; eauto.
- intros [pre [mid [post [-> <-]]]].
  exists (map lower_char pre), (map lower_char post).
  rewrite !map_app. reflexivity.
Qed.

Lemma contains_upper (kw s : text) :
contains kw (upper s) = true <-> occurs_upper kw s.
Proof.
rewrite contains_spec. unfold occurs_upper, upper. split.
- intros [pre [post H]]. eapply map_split3; eauto.
- intros [pre [mid [post [-> <-]]]].
  exists (map upper_char pre), (map upper_char post).
  rewrite !map_app. reflexivity.
Qed.

Lemma count_keywords_le (kws : list text) (s : text) :
count_keywords kws s <= length kws.
Proof. unfold count_keywords. apply filter_length_le. Qed.

Lemma count_keywords_pos (kws : list text) (s : text) :
0 < count_keywords kws s <->
exists kw, In kw kws /\ contains kw s = true.
Proof.
unfold count_keywords. induction kws as [|k kws IH]; simpl.
- split; [lia | intros [kw [[] _]]].
- destruct (contains k s) eqn:E; simpl.
  + split; [intros _; exists k; auto | lia].
  + rewrite IH. split.
    * intros [kw [H1 H2]]. exists kw; auto.
    * intros [kw [[<- | H1] H2]]; [congruence | exists kw; auto].
Qed.

Lemma count_keywords_mentions (kws : list text) (s : text) :
0 < count_keywords kws (lower s) <-> mentions kws s.
Proof.
rewrite count_keywords_pos. unfold mentions.
split; intros [kw [H1 H2]]; exists kw; split; auto;
  apply contains_lower; assumption.
Qed.

Lemma count_keywords_zero (kws : list text) (s : text) :
count_keywords kws (lower s) = 0 <-> ~ mentions kws s.
Proof.
rewrite <- count_keywords_mentions. lia.
Qed.


Lemma dict_get_set_same (V : Type) (k : text) (v : V) (d : dict V) :
dict_get k (dict_set k v d) = Some v.
Proof.
induction d as [|[k' w] d IH]; simpl.
- rewrite text_eqb_refl. reflexivity.
- destruct (text_eqb k k') eqn:E; simpl; rewrite E; auto.
Qed.


End PyFacts.


(** ** The decision label of the results phase *)

Module DecisionFacts.
Import Py Notions PyFacts Deliberation.

Lemma approved_has_approve (s : text) :
contains (str "APPROVED") s = true -> contains (str "APPROVE") s = true.
Proof. apply (contains_longer (str "APPROVE") (str "D")). Qed.

Lemma rejected_has_reject (s : text) :
contains (str "REJECTED") s = true -> contains (str "REJECT") s = true.
Proof. apply (contains_longer (str "REJECT") (str "ED")). Qed.

(** An announcement that says REJECTED and also carries the letters of
  APPROVE is read as an approval. *)
Lemma extract_decision_rejected_counterexample :
let announcement := str "REJECTED: the motion is not approved." in
occurs_upper (str "REJECTED") announcement /\
extract_decision announcement = str "APPROVED" /\
extract_decision announcement <> str "REJECTED".
Proof.
cbv zeta. split; [|split].
- apply contains_upper. vm_compute. reflexivity.
- vm_compute. reflexivity.
- vm_compute. discriminate.
Qed.

(** C5 (as amended).  The label is read off the coordinator's output with
  letter case ignored: APPROVED when the output contains APPROVED or
  APPROVE; otherwise REJECTED when it contains REJECTED or REJECT;
  CONDITIONAL when it contains none of the four. *)
Theorem extract_decision_spec (announcement : text) :
(occurs_upper (str "APPROVED") announcement \/
 occurs_upper (str "APPROVE") announcement ->
 extract_decision announcement = str "APPROVED") /\
(~ occurs_upper (str "APPROVE") announcement ->
 occurs_upper (str "REJECTED") announcement \/
 occurs_upper (str "REJECT") announcement ->
 extract_decision announcement = str "REJECTED") /\
(~ occurs_upper (str "APPROVED") announcement ->
 ~ occurs_upper (str "APPROVE") announcement ->
 ~ occurs_upper (str "REJECTED") announcement ->
 ~ occurs_upper (str "REJECT") announcement ->
 extract_decision announcement = str "CONDITIONAL").
Proof.
unfold extract_decision.
rewrite <- !contains_upper.
pose proof (approved_has_approve (upper announcement)) as HA.
pose proof (rejected_has_reject (upper announcement)) as HR.
destruct (contains (str "APPROVED") (upper announcement)),
         (contains (str "APPROVE") (upper announcement)),
         (contains (str "REJECTED") (upper announcement)),
         (contains (str "REJECT") (upper announcement));
  simpl; repeat split; intros; try reflexivity;
  try (exfalso; intuition congruence).
Qed.

End DecisionFacts.

(** ** The entry point of the stand-alone driver *)

Module KickoffFacts.
Import Py PyFacts AutoPolicy.



Lemma dict_has_set_other (V : Type) (m k : text) (v : V) (d : dict V) :
text_eqb m k = false -> dict_has m (dict_set k v d) = dict_has m d.
Proof.
intros E. unfold dict_has.
induction d as [|[k' w] d IH]; cbn [dict_set dict_keys map fst existsb].
- rewrite E. reflexivity.
- destruct (text_eqb k k') eqn:Ek; cbn [dict_keys map fst existsb].
  + reflexivity.
  + unfold dict_keys in IH. rewrite IH. reflexivity.
Qed.



(** A method that the inputs do not name is as it was. *)
Lemma replaced_update_attributes (m : text) (kwargs : dict text) :
dict_get m kwargs = None ->
forall self,
  dict_has m (replaced (update_attributes kwargs self))
  = dict_has m (replaced self).
Proof.
unfold update_attributes.
induction kwargs as [|[k v] kwargs IH]; intros H self;
  cbn [fold_left]; [reflexivity|].
cbn [dict_get] in H.
destruct (text_eqb m k) eqn:E; [discriminate|].
rewrite (IH H). destruct (hasattr k); [|reflexivity].
cbn [print setattr replaced].
destruct (existsb (text_eqb k) other_attributes); [|reflexivity].
apply dict_has_set_other. exact E.
Qed.



(** [kickoff] with inputs that are not empty. *)
Lemma kickoff_given (inputs : dict text) (self : system) :
inputs <> [] ->
kickoff (Some inputs) self
= if dict_has (str "update_parameters") (replaced self)
  then Some (self, not_callable (str "update_parameters"))
  else if dict_has (str "self") inputs
  then Some (self, keyword_self)
  else
    match update_parameters inputs self with
    | None => None
    | Some self' =>
        Some (kickoff_from
                match dict_get (str "mode") inputs with
                | Some m => m
                | None => str "full"
                end self')
    end.
Proof.
intros H. destruct inputs as [|kv rest]; [congruence | reflexivity].
Qed.


(** An instance as [__init__] leaves it. *)
Definition initial (policy_topic : text) : system :=
{| policy_topic := policy_topic; background_context := [];
   city_data := []; policy_type := []; time_range := [];
   interests := []; replaced := []; printed := [] |}.




(** The call of the example in full. *)
Example kickoff_unknown_mode_in_nairobi :
option_map snd
  (kickoff (Some [(str "city_data", str "Nairobi"); (str "mode", str "turbo")])
     (initial (str "Congestion Tax")))
= Some (run_full_deliberation (str "Congestion Tax")
          (str "City/Region: Nairobi")).
Proof. vm_compute. reflexivity. Qed.

End KickoffFacts.


(** ** The score of one argument *)

Module ScoreFacts.
Import Py Notions PyFacts PyNum Deliberation.

Lemma agreement_count_le (s : text) :
  count_keywords agreement_keywords s <= 6.
Proof. apply (count_keywords_le agreement_keywords). Qed.

Lemma disagreement_count_le (s : text) :
  count_keywords disagreement_keywords s <= 6.
Proof. apply (count_keywords_le disagreement_keywords). Qed.

(** The score in terms of the two counts. *)
Definition score_of_counts (a d : nat) : option float :=
  if 0 <? a + d
  then Some (float_of_nat a / float_of_nat (a + d) * 100)%float
  else None.

Lemma argument_score_counts (argument : text) :
  argument_score argument
  = score_of_counts
      (count_keywords agreement_keywords (lower argument))
      (count_keywords disagreement_keywords (lower argument)).
Proof. reflexivity. Qed.

Lemma up_to_six (n : nat) :
  0 < n -> n <= 6 -> n = 1 \/ n = 2 \/ n = 3 \/ n = 4 \/ n = 5 \/ n = 6.
Proof. lia. Qed.

Lemma score_only_agreement (a : nat) :
  0 < a -> a <= 6 -> score_of_counts a 0 = Some 100%float.
Proof.
  intros H0 H6.
  destruct (up_to_six H0 H6) as [-> | [-> | [-> | [-> | [-> | ->]]]]];
    vm_compute; reflexivity.
Qed.

Lemma score_only_disagreement (d : nat) :
  0 < d -> d <= 6 -> score_of_counts 0 d = Some 0%float.
Proof.
  intros H0 H6.
  destruct (up_to_six H0 H6) as [-> | [-> | [-> | [-> | [-> | ->]]]]];
    vm_compute; reflexivity.
Qed.

(** The consensus of a round in which a single argument was made. *)
Definition single (argument : text) : option Z :=
  _assess_consensus [(str "economic", argument)].

Lemma single_score (argument : text) (x : float) (z : Z) :
  argument_score argument = Some x ->
  int_of_float ((0 + x) / float_of_nat 1)%float = Some z ->
  single argument = Some (Z.min (Z.max z 0) 100).
Proof.
  intros Hs Hz. unfold single, _assess_consensus, total_score.
  cbn [dict_values map snd fold_left length]. rewrite Hs, Hz. reflexivity.
Qed.

(** C2.  An argument that mentions agreement keywords only scores 100, one
    that mentions disagreement keywords only scores 0, and one that mentions
    neither adds no score; as the only argument of a round they give the
    round the consensus levels 100, 0 and 0. *)
Theorem argument_score_by_keywords (argument : text) :
  (mentions agreement_keywords argument ->
   ~ mentions disagreement_keywords argument ->
   argument_score argument = Some 100%float /\
   single argument = Some 100%Z) /\
  (~ mentions agreement_keywords argument ->
   mentions disagreement_keywords argument ->
   argument_score argument = Some 0%float /\
   single argument = Some 0%Z) /\
  (~ mentions agreement_keywords argument ->
   ~ mentions disagreement_keywords argument ->
   argument_score argument = None /\
   single argument = Some 0%Z).
Proof.
  rewrite <- !count_keywords_zero, <- !count_keywords_mentions.
  pose proof (agreement_count_le (lower argument)) as Ha.
  pose proof (disagreement_count_le (lower argument)) as Hd.
  split; [|split]; intros H1 H2; split.
  - rewrite argument_score_counts, H2. apply score_only_agreement; lia.
  - apply (@single_score argument 100%float 100%Z);
      [| vm_compute; reflexivity].
    rewrite argument_score_counts, H2. apply score_only_agreement; lia.
  - rewrite argument_score_counts, H1. apply score_only_disagreement; lia.
  - apply (@single_score argument 0%float 0%Z);
      [| vm_compute; reflexivity].
    rewrite argument_score_counts, H1. apply score_only_disagreement; lia.
  - rewrite argument_score_counts, H1, H2. reflexivity.
  - unfold single, _assess_consensus, total_score.
    cbn [dict_values map snd fold_left length].
    rewrite argument_score_counts, H1, H2. vm_compute. reflexivity.
Qed.

(** The keyword "agree" is a part of "disagree": an argument that says
    only "I disagree" mentions both lists and scores 50. *)
Example disagree_mentions_agree :
  argument_score (str "I disagree") = Some 50%float.
Proof. vm_compute. reflexivity. Qed.

End ScoreFacts.


(** ** The pattern matcher computes the language of a pattern *)

Module ReFacts.
Import Py Re Notions PyFacts.

Lemma cset_eqb_eq (p q : cset) : cset_eqb p q = true -> p = q.
Proof.
  destruct p, q; simpl; try discriminate; try reflexivity.
  - rewrite Ascii.eqb_eq. congruence.
  - rewrite text_eqb_eq. congruence.
Qed.

Lemma re_eqb_eq (a b : re) : re_eqb a b = true -> a = b.
Proof.
  revert b; induction a; intros [] H; simpl in H;
    try discriminate; try reflexivity.
  - apply cset_eqb_eq in H. congruence.
  - apply andb_true_iff in H. destruct H as [H1 H2].
    f_equal; auto.
  - apply andb_true_iff in H. destruct H as [H1 H2].
    f_equal; auto.
  - f_equal; auto.
Qed.

(** *** Inversion of [Matches] *)

Lemma Matches_Nul (w : text) : ~ Matches Nul w.
Proof. intros H; inversion H. Qed.

Lemma Matches_Eps (w : text) : Matches Eps w <-> w = [].
Proof. split; [intros H; inversion H; auto | intros ->; constructor]. Qed.

Lemma Matches_Sym (p : cset) (w : text) :
  Matches (Sym p) w <-> exists c, w = [c] /\ cset_match p c = true.
Proof.
  split.
  - intros H; inversion H; subst; eauto.
  - intros [c [-> H]]; constructor; auto.
Qed.

Lemma Matches_Cat (a b : re) (w : text) :
  Matches (Cat a b) w <->
  exists u v, w = u ++ v /\ Matches a u /\ Matches b v.
Proof.
  split.
  - intros H; inversion H; subst; eauto.
  - intros [u [v [-> [Ha Hb]]]]; constructor; auto.
Qed.

Lemma Matches_Alt (a b : re) (w : text) :
  Matches (Alt a b) w <-> Matches a w \/ Matches b w.
Proof.
  split.
  - intros H; inversion H; subst; auto.
  - intros [H | H]; [apply MAltL | apply MAltR]; auto.
Qed.

(** A non-empty word of [a*] starts with a non-empty word of [a]. *)
Lemma Matches_Star_cons (a : re) (c : ascii) (w : text) :
  Matches (Star a) (c :: w) ->
  exists u v, w = u ++ v /\ Matches a (c :: u) /\ Matches (Star a) v.
Proof.
  intros H. remember (Star a) as r eqn:Er. remember (c :: w) as s eqn:Es.
  revert a c w Er Es.
  induction H; intros a0 c0 w0 Er Es; try discriminate.
  inversion Er; subst a0.
  destruct u as [|c1 u].
  - simpl in Es. eapply IHMatches2; eauto.
  - simpl in Es. inversion Es; subst. eauto.
Qed.

(** *** The derivative *)

Lemma nullable_spec (r : re) : nullable r = true <-> Matches r [].
Proof.
  induction r; simpl.
  - split; [discriminate | intros H; inversion H].
  - split; [constructor | reflexivity].
  - split; [discriminate | intros H; inversion H].
  - rewrite andb_true_iff, IHr1, IHr2, Matches_Cat. split.
    + intros [H1 H2]. exists [], []. auto.
    + intros [u [v [E [H1 H2]]]]. symmetry in E.
      apply app_eq_nil in E. destruct E; subst; auto.
  - rewrite orb_true_iff, IHr1, IHr2, Matches_Alt. tauto.
  - split; [constructor | reflexivity].
Qed.

Lemma cat_spec (a b : re) (w : text) :
  Matches (cat a b) w <-> Matches (Cat a b) w.
Proof.
  rewrite Matches_Cat.
  assert (N1 : forall x, Matches Nul w <->
             exists u v, w = u ++ v /\ Matches Nul u /\ Matches x v).
  { intros x; split; [intros H; inversion H|].
    intros [u [v [_ [H _]]]]; inversion H. }
  assert (N2 : forall x, Matches Nul w <->
             exists u v, w = u ++ v /\ Matches x u /\ Matches Nul v).
  { intros x; split; [intros H; inversion H|].
    intros [u [v [_ [_ H]]]]; inversion H. }
  assert (E1 : forall x, Matches x w <->
             exists u v, w = u ++ v /\ Matches Eps u /\ Matches x v).
  { intros x; split.
    - intros H. exists [], w. repeat split; auto. constructor.
    - intros [u [v [-> [H Hx]]]]. apply Matches_Eps in H. subst. exact Hx. }
  destruct a; simpl; try apply N1;
    destruct b; simpl; try apply N2; try apply E1;
    apply Matches_Cat.
Qed.

Lemma alt_spec (a b : re) (w : text) :
  Matches (alt a b) w <-> Matches (Alt a b) w.
Proof.
  rewrite Matches_Alt.
  assert (L : forall x, Matches x w <-> Matches Nul w \/ Matches x w).
  { intros x; split; [auto | intros [H | H]; [inversion H | auto]]. }
  assert (R : forall x, Matches x w <-> Matches x w \/ Matches Nul w).
  { intros x; split; [auto | intros [H | H]; [auto | inversion H]]. }
  assert (G : forall x y,
             Matches (if re_eqb x y then x else Alt x y) w <->
             Matches x w \/ Matches y w).
  { intros x y. destruct (re_eqb x y) eqn:E.
    - apply re_eqb_eq in E. subst y. tauto.
    - apply Matches_Alt. }
  destruct a; cbv beta iota delta [alt]; try apply L;
    destruct b; cbv beta iota; try apply R; apply G.
Qed.

Lemma deriv_spec (c : ascii) (r : re) (w : text) :
  Matches (deriv c r) w <-> Matches r (c :: w).
Proof.
  revert w; induction r; intros w; simpl.
  - split; intros H; inversion H.
  - split; intros H; inversion H.
  - rewrite Matches_Sym. destruct (cset_match p c) eqn:E.
    + rewrite Matches_Eps. split.
      * intros ->. eauto.
      * intros [c' [H _]]. inversion H. reflexivity.
    + split; [intros H; inversion H|].
      intros [c' [H H']]. inversion H; subst. congruence.
  - rewrite alt_spec, Matches_Alt, cat_spec, !Matches_Cat. split.
    + intros [[u [v [-> [H1 H2]]]] | H].
      * exists (c :: u), v. rewrite IHr1 in H1. auto.
      * destruct (nullable r1) eqn:N; [|inversion H].
        exists [], (c :: w). rewrite IHr2 in H.
        apply nullable_spec in N. auto.
    + intros [[|c' u] [v [E [H1 H2]]]]; simpl in E.
      * right. apply nullable_spec in H1. rewrite H1.
        apply IHr2. rewrite E. exact H2.
      * inversion E; subst. left. exists u, v. rewrite IHr1. auto.
  - rewrite alt_spec, !Matches_Alt, IHr1, IHr2. tauto.
  - rewrite cat_spec, Matches_Cat. split.
    + intros [u [v [-> [H1 H2]]]]. rewrite IHr in H1.
      apply (MStarS H1 H2).
    + intros H. apply Matches_Star_cons in H.
      destruct H as [u [v [-> [H1 H2]]]]. exists u, v. rewrite IHr. auto.
Qed.

Lemma run_spec (s : text) (r : re) (w : text) :
  Matches (run r s) w <-> Matches r (s ++ w).
Proof.
  unfold run. revert r; induction s as [|c s IH]; intros r; simpl.
  - tauto.
  - rewrite IH. apply deriv_spec.
Qed.

Lemma match_here_spec (r : re) (s : text) :
  match_here r s = true <-> exists u v, s = u ++ v /\ Matches r u.
Proof.
  revert r; induction s as [|c s IH]; intros r; simpl.
  - rewrite orb_false_r, nullable_spec. split.
    + intros H. exists [], []. auto.
    + intros [u [v [E H]]]. symmetry in E. apply app_eq_nil in E.
      destruct E; subst. exact H.
  - rewrite orb_true_iff, nullable_spec, IH. split.
    + intros [H | [u [v [-> H]]]].
      * exists [], (c :: s). auto.
      * exists (c :: u), v. rewrite deriv_spec in H. auto.
    + intros [[|c' u] [v [E H]]]; simpl in E.
      * left. exact H.
      * inversion E; subst. right. exists u, v.
        rewrite deriv_spec. auto.
Qed.

(** [search] finds exactly the substrings of the language. *)
Lemma search_spec (r : re) (s : text) :
  search r s = true <-> found r s.
Proof.
  unfold found. induction s as [|c s IH]; cbn [search].
  - rewrite orb_false_r, match_here_spec. split.
    + intros [u [v [E H]]]. exists [], u, v. auto.
    + intros [pre [mid [post [E H]]]].
      destruct pre; [|discriminate]. exists mid, post. auto.
  - rewrite orb_true_iff, match_here_spec, IH. split.
    + intros [[u [v [E H]]] | [pre [mid [post [-> H]]]]].
      * exists [], u, v. auto.
      * exists (c :: pre), mid, post. auto.
    + intros [[|c' pre] [mid [post [E H]]]]; simpl in E.
      * left. exists mid, post. auto.
      * inversion E; subst. right. exists pre, mid, post. auto.
Qed.

Lemma search_false (r : re) (s : text) :
  search r s = false <-> ~ found r s.
Proof.
  rewrite <- search_spec. destruct (search r s); split; congruence.
Qed.

(** *** Words of some frequent patterns *)

Lemma cset_match_Lit (c : ascii) : cset_match (Lit c) c = true.
Proof. simpl. apply Ascii.eqb_refl. Qed.

Lemma Matches_literal (s : text) :
  Matches (fold_right (fun c r => Cat (Sym (Lit c)) r) Eps s) s.
Proof.
  induction s as [|c s IH]; simpl.
  - constructor.
  - apply (MCat (u := [c]) (v := s)); [|exact IH].
    constructor. apply cset_match_Lit.
Qed.

Lemma Matches_lit (s : string) : Matches (lit s) (str s).
Proof. apply Matches_literal. Qed.

Lemma Matches_Star_all (p : cset) (w : text) :
  forallb (cset_match p) w = true -> Matches (Star (Sym p)) w.
Proof.
  induction w as [|c w IH]; simpl; intros H.
  - constructor.
  - apply andb_true_iff in H. destruct H as [H1 H2].
    apply (MStarS (u := [c]) (v := w)); [constructor; auto | auto].
Qed.

End ReFacts.


(** ** The output validator *)

Module ValidatorFacts.
Import Py Re OutputValidator Notions PyFacts ReFacts.

Definition code_keyword_count (output : text) : nat :=
  count_keywords CODE_KEYWORDS (lower output).
Definition policy_keyword_count (output : text) : nat :=
  count_keywords policy_keywords (lower output).

Lemma find_first (A : Type) (f : A -> bool) (l : list A) (x : A) :
  find f l = Some x ->
  exists l1 l2,
    l = l1 ++ x :: l2 /\ f x = true /\ forall y, In y l1 -> f y = false.
Proof.
  induction l as [|a l IH]; simpl; [discriminate|].
  destruct (f a) eqn:E.
  - intros H; inversion H; subst. exists [], l. simpl. tauto.
  - intros H. destruct (IH H) as [l1 [l2 [-> [Hx Hl1]]]].
    exists (a :: l1), l2. simpl. repeat split; auto.
    intros y [<- | Hy]; auto.
Qed.

Lemma matches_code_pattern_found (output : text) (p : pattern) :
  matches_code_pattern output p = true <-> found (ast p) output.
Proof. apply search_spec. Qed.

Lemma find_code_pattern_none (output : text) :
  find (matches_code_pattern output) CODE_PATTERNS = None <->
  ~ has_code_pattern output.
Proof.
  unfold has_code_pattern. split.
  - intros H [p [Hp Hf]].
    pose proof (find_none _ _ H p Hp) as N.
    apply matches_code_pattern_found in Hf. congruence.
  - intros H. destruct (find _ CODE_PATTERNS) as [p|] eqn:E; [|reflexivity].
    exfalso. apply H. apply find_some in E. destruct E as [E1 E2].
    exists p. split; [exact E1|]. apply matches_code_pattern_found. exact E2.
Qed.

(** The test on the empty output is subsumed by the test on the length. *)
Lemma is_valid_policy_output_unfold (output : text) :
  is_valid_policy_output output =
  if length output <? 50 then (false, OutputTooShort)
  else
    match find (matches_code_pattern output) CODE_PATTERNS with
    | Some p => (false, ContainsCodePattern (source p))
    | None =>
        if 3 <=? code_keyword_count output
        then (false, TooManyCodeKeywords (code_keyword_count output))
        else if policy_keyword_count output <? 2
             then (false, LacksPolicyContent)
             else (true, ValidPolicyAnalysis)
    end.
Proof.
  unfold is_valid_policy_output, code_keyword_count, policy_keyword_count.
  cbv zeta. destruct output as [|c output].
  - reflexivity.
  - cbv beta iota delta [orb]. reflexivity.
Qed.

(** The first pattern of the list finds the opening fence of a block. *)
Definition code_block_pattern : pattern :=
  {| source := str "```[\w]*\n";
     ast := seq [lit "```"; Star (Sym Word); Sym (Lit newline)] |}.

Lemma code_block_pattern_listed : In code_block_pattern CODE_PATTERNS.
Proof. left. reflexivity. Qed.

Lemma code_fence_found (output : text) :
  has_code_fence output -> found (ast code_block_pattern) output.
Proof.
  intros [pre [tag [post [Htag ->]]]].
  exists pre, (str "```" ++ tag ++ [newline]), post. split.
  - rewrite <- !app_assoc. reflexivity.
  - unfold code_block_pattern, ast, seq. cbn [fold_right].
    apply MCat; [apply Matches_lit|].
    apply MCat; [apply Matches_Star_all; exact Htag|].
    rewrite <- (app_nil_r [newline]).
    apply MCat; [|constructor].
    constructor. apply cset_match_Lit.
Qed.

(** The keywords that the validator counts are those that occur. *)
Lemma occurring_count (kws : list text) (s : text) :
  occurring s kws (count_keywords kws (lower s)).
Proof.
  unfold count_keywords.
  induction kws as [|kw kws IH]; cbn [filter length]; [constructor|].
  destruct (contains kw (lower s)) eqn:E; cbn [length].
  - apply occurring_hit; [apply contains_lower; exact E | exact IH].
  - apply occurring_miss; [|exact IH].
    intros H. apply contains_lower in H. congruence.
Qed.

Lemma occurring_unique (kws : list text) (s : text) (n m : nat) :
  occurring s kws n -> occurring s kws m -> n = m.
Proof.
  intros Hn. revert m.
  induction Hn as [|kw kws n Hkw _ IH|kw kws n Hkw _ IH]; intros m Hm;
    inversion Hm; subst; try tauto; auto.
Qed.

(** A policy text with a block of C++ that the validator accepts: after
  the three backquotes of the opening fence comes [c++], which the
  pattern of the fence does not describe. *)
Lemma fenced_block_accepted_counterexample :
  let output :=
    str "The policy analysis shows an economic and fiscal impact on revenue.
```c++
int x = 1;
```" in
  ascii_text output /\ has_fenced_block output /\
  is_valid_policy_output output = (true, ValidPolicyAnalysis).
Proof.
  cbv zeta. split; [vm_compute; reflexivity|]. split.
  - exists (str "The policy analysis shows an economic and fiscal impact on revenue.
"), (str "c++"), (str "int x = 1;
"), [].
    split; [|reflexivity].
    intros H. cbn in H. intuition discriminate.
  - vm_compute. reflexivity.
Qed.

(** C3 (amended).  For an output of ASCII characters: the validator
    accepts exactly the outputs of at least 50 characters in which no code
    pattern is found, fewer than three code keywords occur and at least
    two policy keywords occur; a rejected output carries the reason of the
    first step that fails, in the order too short, code pattern (the first
    one of the list that is found), too many code keywords, lacks policy
    content.  So an output of fewer than 50 characters is rejected as too
    short, and one with the opening fence of a code block whose language
    tag is made of letters, digits and underscores is rejected whatever
    else it contains. *)
Theorem is_valid_policy_output_spec (output : text) :
  ascii_text output ->
  exists code_count policy_count,
    occurring output CODE_KEYWORDS code_count /\
    occurring output policy_keywords policy_count /\
    (forall n, occurring output CODE_KEYWORDS n -> n = code_count) /\
    (forall n, occurring output policy_keywords n -> n = policy_count) /\
    (fst (is_valid_policy_output output) = true <->
     50 <= length output /\ ~ has_code_pattern output /\
     code_count < 3 /\ 2 <= policy_count) /\
    (length output < 50 ->
     is_valid_policy_output output = (false, OutputTooShort)) /\
    (50 <= length output -> has_code_pattern output ->
     exists before p after,
       CODE_PATTERNS = before ++ p :: after /\
       found (ast p) output /\
       (forall q, In q before -> ~ found (ast q) output) /\
       is_valid_policy_output output
       = (false, ContainsCodePattern (source p))) /\
    (50 <= length output -> ~ has_code_pattern output ->
     3 <= code_count ->
     is_valid_policy_output output
     = (false, TooManyCodeKeywords code_count)) /\
    (50 <= length output -> ~ has_code_pattern output ->
     code_count < 3 -> policy_count < 2 ->
     is_valid_policy_output output = (false, LacksPolicyContent)) /\
    (fst (is_valid_policy_output output) = true ->
     is_valid_policy_output output = (true, ValidPolicyAnalysis)) /\
    (has_code_fence output -> fst (is_valid_policy_output output) = false).
Proof.
  intros _.
  exists (code_keyword_count output), (policy_keyword_count output).
  split; [apply occurring_count|]. split; [apply occurring_count|].
  split; [intros n Hn;
          exact (@occurring_unique _ _ _ _ Hn
                   (occurring_count CODE_KEYWORDS output))|].
  split; [intros n Hn;
          exact (@occurring_unique _ _ _ _ Hn
                   (occurring_count policy_keywords output))|].
  rewrite is_valid_policy_output_unfold.
  pose proof (find_code_pattern_none output) as Hnone.
  pose proof (@find_first _ (matches_code_pattern output) CODE_PATTERNS)
    as Hfirst.
  pose proof (code_fence_found (output := output)) as Hfence.
  destruct (Nat.ltb_spec (length output) 50) as [Hlen | Hlen].
  { cbn [fst]. repeat split; intros; try reflexivity; try lia;
      try discriminate; intuition lia. }
  destruct (find (matches_code_pattern output) CODE_PATTERNS) as [p|] eqn:Ef.
  { assert (Hhas : has_code_pattern output).
    { destruct (Hfirst p eq_refl) as [l1 [l2 [E [Hp _]]]].
      exists p. split; [rewrite E; apply in_elt|].
      apply matches_code_pattern_found. exact Hp. }
    cbn [fst]. repeat split; intros; try reflexivity; try lia;
      try discriminate; try tauto.
    destruct (Hfirst p eq_refl) as [l1 [l2 [E [Hp Hl1]]]].
    exists l1, p, l2. repeat split; auto.
    - apply matches_code_pattern_found. exact Hp.
    - intros q Hq Hfound. apply matches_code_pattern_found in Hfound.
      rewrite (Hl1 q Hq) in Hfound. discriminate. }
  assert (Hno : ~ has_code_pattern output) by (apply Hnone; reflexivity).
  assert (Hnofence : ~ has_code_fence output).
  { intros Hf. apply Hno. exists code_block_pattern.
    split; [apply code_block_pattern_listed | apply Hfence; exact Hf]. }
  destruct (Nat.leb_spec 3 (code_keyword_count output)) as [Hc | Hc].
  { cbn [fst]. repeat split; intros; try reflexivity; try lia;
      try discriminate; try tauto. }
  destruct (Nat.ltb_spec (policy_keyword_count output) 2) as [Hp | Hp].
  { cbn [fst]. repeat split; intros; try reflexivity; try lia;
      try discriminate; try tauto. }
  cbn [fst]. repeat split; intros; try reflexivity; try lia;
    try discriminate; try tauto.
Qed.

(** The theorem for a short policy text. *)
Lemma is_valid_policy_output_spec_witness :
  let output :=
    str "The carbon tax policy has a fiscal impact on government revenue." in
  exists code_count policy_count,
    occurring output CODE_KEYWORDS code_count /\
    occurring output policy_keywords policy_count /\
    (fst (is_valid_policy_output output) = true <->
     50 <= length output /\ ~ has_code_pattern output /\
     code_count < 3 /\ 2 <= policy_count).
Proof.
  cbv zeta.
  destruct (@is_valid_policy_output_spec
              (str "The carbon tax policy has a fiscal impact on government revenue."))
    as [c [p [Hc [Hp [_ [_ [Hiff _]]]]]]].
  - vm_compute. reflexivity.
  - exists c, p. auto.
Defined.

(** The shortest and a fenced instance. *)
Example empty_output_too_short :
  is_valid_policy_output [] = (false, OutputTooShort).
Proof. reflexivity. Qed.

Example fenced_policy_text_rejected :
  is_valid_policy_output
    (str "The carbon tax policy has a fiscal impact on government revenue.
```python
print(1)
```")
  = (false, ContainsCodePattern (str "```[\w]*\n")).
Proof. vm_compute. reflexivity. Qed.

End ValidatorFacts.


(** ** Reasoning about the effects of the orchestrator *)

Module EffectFacts.
Import Py PyFacts Deliberation.

(** The state reached from [st0] once the results have become [res] and
    the events [evs] and the invocations [invs] have been added. *)
Definition grown (st0 : state) (res : results) (evs : list event)
    (invs : list invocation) : state :=
  {| self_results := res;
     emitted := emitted st0 ++ evs;
     invocations := invocations st0 ++ invs |}.

Lemma grown_start (st0 : state) : st0 = grown st0 (self_results st0) [] [].
Proof. destruct st0. unfold grown. simpl. rewrite !app_nil_r. reflexivity. Qed.

(** [m], started after [res], [evs] and [invs], ends in a state and with a
    result that satisfy [Q]. *)
Definition wp {A} (st0 : state) (m : M A)
    (Q : results -> list event -> list invocation -> result A -> Prop)
    (res : results) (evs : list event) (invs : list invocation) : Prop :=
  exists res' evs' invs' r,
    m (grown st0 res evs invs) = (grown st0 res' evs' invs', r) /\
    Q res' evs' invs' r.

Lemma wp_ret {A} st0 (a : A) Q res evs invs :
  Q res evs invs (Return a) -> wp st0 (ret a) Q res evs invs.
Proof. intros H. exists res, evs, invs, (Return a). split; [reflexivity | exact H]. Qed.

Lemma wp_raise {A} st0 (e : text) (Q : _ -> _ -> _ -> result A -> Prop)
    res evs invs :
  Q res evs invs (Raise e) -> wp st0 (raise e) Q res evs invs.
Proof. intros H. exists res, evs, invs, (Raise e). split; [reflexivity | exact H]. Qed.

Lemma wp_bind {A B} st0 (m : M A) (k : A -> M B) Q res evs invs :
  wp st0 m
    (fun res' evs' invs' r =>
       match r with
       | Return a => wp st0 (k a) Q res' evs' invs'
       | Raise e => Q res' evs' invs' (Raise e)
       end) res evs invs ->
  wp st0 (bind m k) Q res evs invs.
Proof.
  intros [res1 [evs1 [invs1 [r1 [E H]]]]]. unfold bind. destruct r1 as [e | a].
  - exists res1, evs1, invs1, (Raise e). rewrite E. auto.
  - destruct H as [res2 [evs2 [invs2 [r2 [E2 H2]]]]].
    exists res2, evs2, invs2, r2. rewrite E. auto.
Qed.

Lemma wp_weaken {A} st0 (m : M A) (Q Q' : _ -> _ -> _ -> result A -> Prop)
    res evs invs :
  (forall res' evs' invs' r, Q res' evs' invs' r -> Q' res' evs' invs' r) ->
  wp st0 m Q res evs invs -> wp st0 m Q' res evs invs.
Proof.
  intros HQ [res1 [evs1 [invs1 [r1 [E H]]]]].
  exists res1, evs1, invs1, r1. auto.
Qed.

(** What a run started in [st0] ends in. *)
Lemma wp_run {A} st0 (m : M A) Q st' r :
  wp st0 m Q (self_results st0) [] [] ->
  m st0 = (st', r) ->
  exists res' evs' invs',
    st' = grown st0 res' evs' invs' /\ Q res' evs' invs' r.
Proof.
  intros [res1 [evs1 [invs1 [r1 [E H]]]]] Hm.
  rewrite <- grown_start in E. rewrite Hm in E. inversion E; subst.
  eauto.
Qed.

(** The events that one call of [emit_event] hands to the emitter. *)
Definition emits (event_emitter : bool) (session_id : text) (name : string)
    (payload : list (string * value)) : list event :=
  if event_emitter
  then [ {| event_name := str name;
            data := map (fun kv => (str (fst kv), snd kv)) payload;
            session := session_id |} ]
  else [].

Lemma wp_emit_event st0 em sid name payload Q res evs invs :
  Q res (evs ++ emits em sid name payload) invs (Return tt) ->
  wp st0 (emit_event em sid name payload) Q res evs invs.
Proof.
  intros H. exists res, (evs ++ emits em sid name payload), invs, (Return tt).
  split; [|exact H].
  unfold emit_event, emits, grown. destruct em; simpl.
  - rewrite app_assoc. reflexivity.
  - rewrite app_nil_r. reflexivity.
Qed.

Lemma emit_event_grown st0 em sid name payload res evs invs :
  emit_event em sid name payload (grown st0 res evs invs)
  = (grown st0 res (evs ++ emits em sid name payload) invs, Return tt).
Proof.
  unfold emit_event, emits, grown. destruct em; simpl.
  - rewrite app_assoc. reflexivity.
  - rewrite app_nil_r. reflexivity.
Qed.

Lemma wp_kickoff st0 llm agent_id t Q res evs invs :
  (forall a,
     a = llm (length (invocations st0) + length invs) agent_id t ->
     Q res evs (invs ++ [ {| agent := agent_id; job := t; answer := a |} ])
       match a with
       | Raised message => Raise message
       | Returned output => Return output
       end) ->
  wp st0 (kickoff llm agent_id t) Q res evs invs.
Proof.
  intros H.
  specialize (H _ eq_refl).
  set (a := llm (length (invocations st0) + length invs) agent_id t) in *.
  exists res, evs,
    (invs ++ [ {| agent := agent_id; job := t; answer := a |} ]),
    (match a with Raised e => Raise e | Returned o => Return o end).
  split; [|exact H].
  unfold kickoff, grown. cbn [invocations self_results emitted].
  rewrite length_app. fold a. rewrite app_assoc.
  destruct a; reflexivity.
Qed.

Lemma wp_update_results st0 f Q res evs invs :
  Q (f res) evs invs (Return tt) ->
  wp st0 (update_results f) Q res evs invs.
Proof.
  intros H. exists (f res), evs, invs, (Return tt). split; [reflexivity | exact H].
Qed.

Lemma wp_get_results st0 Q res evs invs :
  Q res evs invs (Return res) -> wp st0 get_results Q res evs invs.
Proof.
  intros H. exists res, evs, invs, (Return res). split; [reflexivity | exact H].
Qed.

(** A loop, with an invariant over the elements already visited. *)
Lemma wp_for_each {A B} st0 (body : B -> A -> M B)
    (I : list A -> B -> results -> list event -> list invocation -> Prop)
    Q (xs : list A) :
  (forall done x acc res evs invs,
     (exists rest, xs = done ++ x :: rest) ->
     I done acc res evs invs ->
     wp st0 (body acc x)
       (fun res' evs' invs' r =>
          match r with
          | Return acc' => I (done ++ [x]) acc' res' evs' invs'
          | Raise e => Q res' evs' invs' (Raise e)
          end) res evs invs) ->
  (forall acc res evs invs,
     I xs acc res evs invs -> Q res evs invs (Return acc)) ->
  forall acc res evs invs,
    I [] acc res evs invs ->
    wp st0 (for_each xs acc body) Q res evs invs.
Proof.
  intros Hbody Hend.
  assert (G : forall rest done acc res evs invs,
             xs = done ++ rest -> I done acc res evs invs ->
             wp st0 (for_each rest acc body) Q res evs invs).
  { induction rest as [|x rest IH]; intros done acc res evs invs E HI.
    - rewrite app_nil_r in E. subst done. apply wp_ret. apply Hend. exact HI.
    - cbn [for_each]. apply wp_bind.
      eapply wp_weaken; [|apply (Hbody done x acc); eauto].
      intros res' evs' invs' [e | acc'] H; [exact H|].
      apply (IH (done ++ [x])); [|exact H].
      rewrite <- app_assoc. exact E. }
  intros acc res evs invs HI. apply (G xs []); auto.
Qed.

(** An event other than the error event of the top-level handler. *)
Definition benign (e : event) : bool :=
  negb (text_eqb (event_name e) (str "deliberation_error")).

Definition returned (i : invocation) : bool :=
  match answer i with Returned _ => true | Raised _ => false end.

(** [l'] is [l] with an added part that satisfies [P]. *)
Definition added {X} (l l' : list X) (P : list X -> Prop) : Prop :=
  exists d, l' = l ++ d /\ P d.

Definition all_benign (evs : list event) : Prop := forallb benign evs = true.

Lemma added_refl {X} (l : list X) (P : list X -> Prop) : P [] -> added l l P.
Proof. intros H. exists []. rewrite app_nil_r. auto. Qed.

Lemma added_step {X} (l d1 d2 : list X) (P : list X -> Prop) :
  P (d1 ++ d2) -> added l ((l ++ d1) ++ d2) P.
Proof. intros H. exists (d1 ++ d2). rewrite app_assoc. auto. Qed.

Lemma added_one {X} (l d : list X) (P : list X -> Prop) :
  P d -> added l (l ++ d) P.
Proof. intros H. exists d. auto. Qed.

Lemma added_trans {X} (l l1 l2 : list X) (P1 P2 P : list X -> Prop) :
  added l l1 P1 -> added l1 l2 P2 ->
  (forall d1 d2, P1 d1 -> P2 d2 -> P (d1 ++ d2)) ->
  added l l2 P.
Proof.
  intros [d1 [-> H1]] [d2 [-> H2]] HP. exists (d1 ++ d2).
  rewrite app_assoc. auto.
Qed.

Lemma all_benign_app (a b : list event) :
  all_benign a -> all_benign b -> all_benign (a ++ b).
Proof. unfold all_benign. intros Ha Hb. rewrite forallb_app, Ha, Hb. reflexivity. Qed.

Lemma benign_emits em sid name payload :
  text_eqb (str name) (str "deliberation_error") = false ->
  all_benign (emits em sid name payload).
Proof.
  intros H. unfold all_benign, emits. destruct em; [|reflexivity].
  cbn [forallb]. unfold benign. cbn [event_name]. rewrite H. reflexivity.
Qed.

(** The invocations [invs] of a phase whose tasks satisfy [kind] all
    returned but the last one, which raised [e]. *)
Definition failed_by (e : text) (kind : task -> bool)
    (invs : list invocation) : Prop :=
  exists good rec,
    invs = good ++ [rec] /\
    forallb returned good = true /\
    forallb (fun i => kind (job i)) invs = true /\
    answer rec = Raised e.

Lemma failed_by_after (e : text) (kind : task -> bool)
    (invs1 invs2 : list invocation) :
  forallb returned invs1 = true ->
  forallb (fun i => kind (job i)) invs1 = true ->
  failed_by e kind invs2 -> failed_by e kind (invs1 ++ invs2).
Proof.
  intros R1 K1 [good [rec [-> [R2 [K2 Hans]]]]].
  exists (invs1 ++ good), rec. rewrite app_assoc. repeat split; auto.
  - rewrite forallb_app, R1, R2. reflexivity.
  - rewrite <- app_assoc, forallb_app, K1, K2. reflexivity.
Qed.

Lemma added_emit (l x : list event) em sid name payload :
  added l x all_benign ->
  text_eqb (str name) (str "deliberation_error") = false ->
  added l (x ++ emits em sid name payload) all_benign.
Proof.
  intros H E. eapply added_trans; [exact H | apply added_one |].
  - apply benign_emits. exact E.
  - intros; apply all_benign_app; assumption.
Qed.

(** The events added so far are benign. *)
Ltac benign_events :=
  repeat (apply added_emit; [|reflexivity]);
  first [ assumption | apply added_refl; reflexivity ].

Lemma added_benign (l l1 l2 : list event) :
  added l l1 all_benign -> added l1 l2 all_benign -> added l l2 all_benign.
Proof.
  intros H1 H2. eapply added_trans; [exact H1 | exact H2 |].
  intros; apply all_benign_app; assumption.
Qed.

(** A run, from any state, of a computation that is specified by what it
    adds. *)
Lemma phase_run {A} st (m : M A)
    (P : results -> results -> result A -> list invocation -> Prop) :
  (forall Q res evs invs,
     (forall res' evs' invs' out,
        added evs evs' all_benign -> added invs invs' (P res res' out) ->
        Q res' evs' invs' out) ->
     wp st m Q res evs invs) ->
  forall st' out,
    m st = (st', out) ->
    exists res' evs' new_invs,
      st' = grown st res' evs' new_invs /\ all_benign evs' /\
      P (self_results st) res' out new_invs.
Proof.
  intros W st' out E.
  specialize (W (fun res' evs' invs' out =>
                   added [] evs' all_benign /\
                   added [] invs' (P (self_results st) res' out))
                (self_results st) [] [] (fun _ _ _ _ Hev Hinv => conj Hev Hinv)).
  destruct (wp_run W E)
    as [res' [evs' [invs' [-> [[evs1 [-> Hev]] [new_invs [-> Hout]]]]]]].
  exists res', evs1, new_invs. auto.
Qed.

(** The same across the phases already run. *)
Ltac benign_chain :=
  repeat first
    [ assumption
    | apply added_refl; reflexivity
    | apply added_emit; [|reflexivity]
    | eapply added_benign; [|eassumption] ].

Ltac wp_step :=
  cbv beta;
  first [ apply wp_bind | apply wp_emit_event | apply wp_ret
        | apply wp_update_results | apply wp_get_results | apply wp_raise ].

Ltac wp_go := repeat wp_step.

End EffectFacts.


(** ** The debate phase *)

Module DebateFacts.
Import Py PyFacts Deliberation Notions EffectFacts.

Definition is_debate_task (t : task) : bool :=
  match t with debate_task _ => true | _ => false end.

(** The entries [new] of the history record the invocations [invs]: same
    agents in the same order, and each argument is what was returned. *)
Definition records (invs : list invocation) (new : list debate_entry) : Prop :=
  map (fun i => (agent i, answer i)) invs
  = map (fun e => (agent_id e, Returned (argument e))) new /\
  forallb (fun i => is_debate_task (job i)) invs = true.

Definition arguments_of (new : list debate_entry) : dict text :=
  fold_left (fun d e => dict_set (agent_id e) (argument e) d) new [].

Definition entry (r : nat) (a : text) (o : text) : debate_entry :=
  {| round := r; agent_id := a; agent_name := display_name a; argument := o |}.

Lemma records_nil : records [] [].
Proof. split; reflexivity. Qed.

Lemma records_app invs1 new1 invs2 new2 :
  records invs1 new1 -> records invs2 new2 ->
  records (invs1 ++ invs2) (new1 ++ new2).
Proof.
  intros [H1 K1] [H2 K2]. split.
  - rewrite !map_app, H1, H2. reflexivity.
  - rewrite forallb_app, K1, K2. reflexivity.
Qed.

Lemma records_one rec r o :
  answer rec = Returned o -> is_debate_task (job rec) = true ->
  records [rec] [entry r (agent rec) o].
Proof.
  intros H K. split; cbn [map forallb entry agent_id argument].
  - rewrite H. reflexivity.
  - rewrite K. reflexivity.
Qed.

Lemma records_length invs new : records invs new -> length invs = length new.
Proof.
  intros [H _]. apply (f_equal (@length _)) in H.
  rewrite !length_map in H. exact H.
Qed.

Lemma records_returned invs new :
  records invs new -> forallb returned invs = true.
Proof.
  intros [H _]. revert new H.
  induction invs as [|i invs IH]; intros [|e new] H; try discriminate;
    [reflexivity|].
  cbn [map] in H. inversion H as [[Ha Hans Hrest]].
  cbn [forallb]. unfold returned at 1. rewrite Hans. simpl. eauto.
Qed.

Lemma records_kinds invs new :
  records invs new -> forallb (fun i => is_debate_task (job i)) invs = true.
Proof. intros [_ K]. exact K. Qed.

(** One agent speaks: an entry is appended to the history. *)
Lemma wp_debate_step st0 llm em sid topic r n args hist i a Q res evs invs :
  (forall evs' rec,
     added evs evs' all_benign ->
     agent rec = a -> is_debate_task (job rec) = true ->
     match answer rec with
     | Raised e => Q res evs' (invs ++ [rec]) (Raise e)
     | Returned o =>
         Q res evs' (invs ++ [rec])
           (Return (dict_set a o args, hist ++ [entry r a o]))
     end) ->
  wp st0 (debate_step llm em sid topic r n (args, hist) (i, a)) Q
    res evs invs.
Proof.
  intros H. unfold debate_step.
  wp_step. wp_step. wp_step. apply wp_kickoff. intros ans _.
  match goal with
  | |- context [ {| agent := a; job := ?t; answer := ans |} ] =>
      set (rec := {| agent := a; job := t; answer := ans |})
  end.
  destruct ans as [e | o].
  - apply (H _ rec); try reflexivity.
    apply added_one. apply benign_emits. reflexivity.
  - wp_step. wp_step. wp_step.
    apply (H _ rec); try reflexivity.
    apply added_step. apply all_benign_app; apply benign_emits; reflexivity.
Qed.

(** What a round leaves behind. *)
Definition round_outcome (experts : list text) (r : nat)
    (hist : list debate_entry)
    (out : result (dict text * list debate_entry))
    (new_invs : list invocation) : Prop :=
  length new_invs <= length experts /\
  match out with
  | Return (args, hist') =>
      exists new,
        hist' = hist ++ new /\
        map slot new = map (pair r) experts /\
        args = arguments_of new /\
        records new_invs new
  | Raise e => failed_by e is_debate_task new_invs
  end.

Lemma map_snd_combine_seq (X : Type) (l : list X) (k : nat) :
  map snd (combine (List.seq k (length l)) l) = l.
Proof.
  revert k; induction l as [|x l IH]; intros k; simpl; [reflexivity|].
  rewrite IH. reflexivity.
Qed.

Lemma arguments_of_snoc new a o r :
  arguments_of (new ++ [entry r a o]) = dict_set a o (arguments_of new).
Proof. unfold arguments_of. rewrite fold_left_app. reflexivity. Qed.

Lemma wp_debate_round st0 llm em sid topic experts r hist Q res evs invs :
  (forall evs' invs' out,
     added evs evs' all_benign ->
     added invs invs' (round_outcome experts r hist out) ->
     Q res evs' invs' out) ->
  wp st0 (debate_round llm em sid topic experts r hist) Q res evs invs.
Proof.
  intros H. unfold debate_round. wp_step. wp_step.
  set (xs := combine (List.seq 0 (length experts)) experts).
  assert (Hxs : map snd xs = experts) by apply map_snd_combine_seq.
  apply (@wp_for_each _ _ st0 _
           (fun done (acc : dict text * list debate_entry)
                res' evs' invs' =>
              res' = res /\ added evs evs' all_benign /\
              exists new new_invs,
                invs' = invs ++ new_invs /\
                snd acc = hist ++ new /\
                map slot new = map (pair r) (map snd done) /\
                fst acc = arguments_of new /\
                records new_invs new) Q xs).
  - intros done [i a] [args h] res' evs' invs' [rest Hrest]
      [-> [Hev [new [new_invs [-> [Hh [Hslot [Hargs Hrec]]]]]]]].
    cbn [fst snd] in Hh, Hargs. subst h args.
    assert (Hlen : length new_invs < length experts).
    { rewrite (records_length Hrec).
      apply (f_equal (@length _)) in Hslot. rewrite !length_map in Hslot.
      rewrite Hslot, <- Hxs, length_map, Hrest, length_app. simpl. lia. }
    apply wp_debate_step. intros evs'' rec Hev' Hagent Hkind.
    destruct (answer rec) as [e | o] eqn:Hans.
    + apply H.
      * eapply added_trans; [exact Hev | exact Hev' |].
        intros; apply all_benign_app; assumption.
      * apply added_step. split.
        { rewrite length_app. simpl. lia. }
        exists new_invs, rec. split; [|split; [|split]]; auto.
        -- eapply records_returned; eauto.
        -- rewrite forallb_app, (records_kinds Hrec). simpl.
           rewrite Hkind. reflexivity.
    + split; [reflexivity|]. split.
      * eapply added_trans; [exact Hev | exact Hev' |].
        intros; apply all_benign_app; assumption.
      * exists (new ++ [entry r a o]), (new_invs ++ [rec]).
        cbn [fst snd]. split; [|split; [|split; [|split]]].
        -- rewrite app_assoc. reflexivity.
        -- rewrite app_assoc. reflexivity.
        -- rewrite !map_app, Hslot. reflexivity.
        -- symmetry. apply arguments_of_snoc.
        -- apply records_app; [exact Hrec|]. subst a.
           apply records_one; assumption.
  - intros [args h] res' evs' invs'
      [-> [Hev [new [new_invs [-> [Hh [Hslot [Hargs Hrec]]]]]]]].
    cbn [fst snd] in Hh, Hargs. subst h args. rewrite Hxs in Hslot.
    apply H; [exact Hev|]. apply added_one. split.
    + rewrite (records_length Hrec).
      apply (f_equal (@length _)) in Hslot. rewrite !length_map in Hslot. lia.
    + exists new. auto.
  - split; [reflexivity|]. split.
    + apply added_one. apply benign_emits. reflexivity.
    + exists [], []. cbn [fst snd]. rewrite !app_nil_r.
      split; [|split; [|split; [|split]]]; auto using records_nil.
Qed.

(** *** The rounds *)

Lemma slots_round (new : list debate_entry) (r : nat) (experts : list text) :
  map slot new = map (pair r) experts ->
  Forall (fun e => round e = r) new.
Proof.
  revert experts; induction new as [|e new IH]; intros [|a experts] H;
    simpl in H; try discriminate; constructor.
  - injection H as H1 _ _. exact H1.
  - injection H as _ _ H3. eapply IH. exact H3.
Qed.

Lemma slots_rounds (new : list debate_entry) (experts : list text)
    (done : list nat) :
  map slot new = flat_map (fun r => map (pair r) experts) done ->
  Forall (fun e => In (round e) done) new.
Proof.
  intros H. apply Forall_forall. intros e He.
  apply (in_map slot) in He. rewrite H in He.
  apply in_flat_map in He. destruct He as [r [Hr He]].
  apply in_map_iff in He. destruct He as [a [Ha _]].
  unfold slot in Ha. inversion Ha. congruence.
Qed.

Lemma filter_round_all (new : list debate_entry) (r : nat) :
  Forall (fun e => round e = r) new ->
  filter (fun e => round e =? r) new = new.
Proof.
  induction 1 as [|e new He _ IH]; simpl; [reflexivity|].
  rewrite He, Nat.eqb_refl, IH. reflexivity.
Qed.

Lemma filter_round_none (new : list debate_entry) (r : nat) :
  Forall (fun e => round e <> r) new ->
  filter (fun e => round e =? r) new = [].
Proof.
  induction 1 as [|e new He _ IH]; simpl; [reflexivity|].
  apply Nat.eqb_neq in He. rewrite He. exact IH.
Qed.

Lemma arguments_of_round_here (new1 new2 : list debate_entry) (r : nat) :
  Forall (fun e => round e = r) new1 ->
  Forall (fun e => round e <> r) new2 ->
  arguments_of_round (new1 ++ new2) r = arguments_of new1.
Proof.
  intros H1 H2. unfold arguments_of_round, arguments_of.
  rewrite filter_app, filter_round_all, filter_round_none, app_nil_r; auto.
Qed.

Lemma arguments_of_round_later (new1 new2 : list debate_entry) (r r' : nat) :
  Forall (fun e => round e = r) new1 -> r' <> r ->
  arguments_of_round (new1 ++ new2) r' = arguments_of_round new2 r'.
Proof.
  intros H1 Hne. unfold arguments_of_round.
  rewrite filter_app, filter_round_none; [reflexivity|].
  eapply Forall_impl; [|exact H1]. simpl. intros e He. congruence.
Qed.

Lemma last_cons (X : Type) (x d : X) (l : list X) :
  last (x :: l) d = last l x.
Proof.
  revert x d; induction l as [|y l IH]; intros x d; [reflexivity|].
  change (last (x :: y :: l) d) with (last (y :: l) d).
  rewrite !IH. reflexivity.
Qed.

Lemma last_in (X : Type) (d : X) (l : list X) : l <> [] -> In (last l d) l.
Proof.
  induction l as [|x l IH]; [congruence|]. intros _.
  destruct l as [|y l]; [left; reflexivity|].
  right. apply IH. discriminate.
Qed.

(** What the loop over the rounds [later] leaves behind. *)
Definition rounds_outcome (experts : list text) (later : list nat)
    (last_round : nat) (hist : list debate_entry)
    (out : result (list debate_entry * nat * bool))
    (new_invs : list invocation) : Prop :=
  length new_invs <= length later * length experts /\
  match out with
  | Return (hist', rn, reached) =>
      exists done rest new,
        later = done ++ rest /\
        hist' = hist ++ new /\
        map slot new = flat_map (fun r => map (pair r) experts) done /\
        rn = last done last_round /\
        records new_invs new /\
        (reached = true ->
         done <> [] /\ rn < max_rounds /\
         exists c, _assess_consensus (arguments_of_round new rn) = Some c
                   /\ (70 <= c)%Z) /\
        (reached = false -> rest = []) /\
        (forall r, In r done -> r < max_rounds ->
                   r <> rn \/ reached = false ->
                   exists c, _assess_consensus (arguments_of_round new r)
                             = Some c /\ (c < 70)%Z)
  | Raise e =>
      failed_by e is_debate_task new_invs \/ forallb returned new_invs = true
  end.

Lemma wp_debate_rounds st0 llm em sid topic experts later :
  NoDup later ->
  forall hist last_round Q res evs invs,
    (forall evs' invs' out,
       added evs evs' all_benign ->
       added invs invs' (rounds_outcome experts later last_round hist out) ->
       Q res evs' invs' out) ->
    wp st0 (debate_rounds llm em sid topic experts later hist last_round) Q
      res evs invs.
Proof.
  induction later as [|r later IH]; intros Hnd hist last_round Q res evs invs H.
  - cbn [debate_rounds]. apply wp_ret. apply H.
    + apply added_refl. reflexivity.
    + apply added_refl. split; [simpl; lia|].
      exists [], [], []. rewrite !app_nil_r.
      do 5 (split; [auto using records_nil|]).
      split; [discriminate|]. split; [reflexivity|]. intros r [].
  - inversion Hnd as [|? ? Hnotin Hnd']; subst.
    cbn [debate_rounds]. apply wp_bind. apply wp_debate_round.
    intros evs1 invs1 out1 Hev1 [new_invs1 [-> [Hlen1 Hout1]]].
    destruct out1 as [e | [args hist1]].
    { apply H; [exact Hev1|]. apply added_one. split.
      - simpl. lia.
      - left. exact Hout1. }
    destruct Hout1 as [new1 [-> [Hslot1 [-> Hrec1]]]].
    pose proof (@slots_round _ _ _ Hslot1) as Hround1.
    (* the part of the loop that follows the check *)
    assert (Hnext :
      (r < max_rounds ->
       exists c, _assess_consensus (arguments_of new1) = Some c /\ (c < 70)%Z) ->
      forall evs2, added evs evs2 all_benign ->
      wp st0
        (debate_rounds llm em sid topic experts later (hist ++ new1) r)
        Q res evs2 (invs ++ new_invs1)).
    { intros Hlow evs2 Hev2. apply IH; [exact Hnd'|].
      intros evs3 invs3 out3 Hev3 [new_invs2 [-> [Hlen2 Hout2]]].
      apply H.
      { eapply added_trans; [exact Hev2 | exact Hev3 |].
        intros; apply all_benign_app; assumption. }
      apply added_step. split.
      { rewrite length_app. simpl. lia. }
      destruct out3 as [e | [[hist' rn] reached]].
      - destruct Hout2 as [Hf | Hr].
        + left. apply failed_by_after; eauto using records_returned, records_kinds.
        + right. rewrite forallb_app, (records_returned Hrec1), Hr. reflexivity.
      - destruct Hout2 as [done [rest [new2 [-> [-> [Hslot2 [-> [Hrec2
          [HA [HB HC]]]]]]]]]].
        pose proof (@slots_rounds _ _ _ Hslot2) as Hrounds2.
        assert (Hnew2 : Forall (fun e => round e <> r) new2).
        { eapply Forall_impl; [|exact Hrounds2]. simpl.
          intros e He Heq. apply Hnotin. rewrite <- Heq.
          apply in_or_app. left. exact He. }
        exists (r :: done), rest, (new1 ++ new2).
        split; [reflexivity|]. split; [rewrite app_assoc; reflexivity|].
        split; [rewrite map_app, Hslot1, Hslot2; reflexivity|].
        split; [symmetry; apply last_cons|].
        split; [apply records_app; assumption|].
        split; [|split].
        + intros Hreached. destruct (HA Hreached) as [Hdone [Hrn [c Hc]]].
          split; [discriminate|]. split; [exact Hrn|]. exists c.
          rewrite arguments_of_round_later with (r := r); auto.
          intros Heq. apply Hnotin. rewrite <- Heq.
          apply in_or_app. left. apply last_in. exact Hdone.
        + exact HB.
        + intros r0 [<- | Hin] Hr0 Hcond.
          * rewrite arguments_of_round_here; auto.
          * rewrite arguments_of_round_later with (r := r); auto.
            intros Heq. apply Hnotin. rewrite <- Heq.
            apply in_or_app. left. exact Hin. }
    cbv beta iota.
    destruct (r <? max_rounds) eqn:Hr.
    + apply Nat.ltb_lt in Hr.
      destruct (_assess_consensus (arguments_of new1)) as [c|] eqn:Hc.
      * apply wp_bind. apply wp_emit_event.
        assert (Hev2 : added evs
                         (evs1 ++ emits em sid "consensus_check"
                            [ ("round", VNat r);
                              ("consensus_level", VInt c);
                              ("message",
                               VStr (str "Consensus level: "
                                     ++ str_of_Z c ++ str "% - "
                                     ++ (if (c <? 70)%Z
                                         then str "Continuing debate..."
                                         else str "High agreement reached!")))])
                         all_benign).
        { eapply added_trans; [exact Hev1 | apply added_one |].
          - apply benign_emits. reflexivity.
          - intros; apply all_benign_app; assumption. }
        destruct (70 <=? c)%Z eqn:Hge.
        -- apply Z.leb_le in Hge.
           apply wp_bind. apply wp_emit_event. apply wp_ret. apply H.
           { eapply added_trans; [exact Hev2 | apply added_one |].
             - apply benign_emits. reflexivity.
             - intros; apply all_benign_app; assumption. }
           apply added_one. split; [simpl; lia|].
           exists [r], later, new1.
           split; [reflexivity|]. split; [reflexivity|].
           split; [simpl; rewrite app_nil_r; exact Hslot1|].
           split; [reflexivity|]. split; [exact Hrec1|].
           split; [|split].
           ++ intros _. split; [discriminate|]. split; [exact Hr|].
              exists c. split; [|exact Hge].
              rewrite <- (app_nil_r new1).
              rewrite arguments_of_round_here; auto.
           ++ discriminate.
           ++ intros r0 [<- | []] _ [Hne | Hfalse]; [congruence | discriminate].
        -- apply Z.leb_gt in Hge. apply Hnext; [|exact Hev2].
           intros _. exists c. auto.
      * apply wp_raise. apply H; [exact Hev1|]. apply added_one. split.
        -- simpl. lia.
        -- right. eapply records_returned; eauto.
    + apply Nat.ltb_ge in Hr. apply Hnext; [|exact Hev1].
      intros Hlt. exfalso. lia.
Qed.

(** *** The phase *)

(** The shape of the record that a completed debate leaves: between one
    and three rounds in which every expert spoke once, in order; an early
    exit exactly when consensus was reached; and a round before the third
    is the last one exactly when its consensus level reached 70. *)
Definition debate_shape (experts : list text) (d : debate_record) : Prop :=
  1 <= rounds d <= 3 /\
  map slot (history d) = schedule experts (rounds d) /\
  (consensus_reached d = true <-> rounds d < 3) /\
  (forall r, 1 <= r -> r < 3 -> r <= rounds d ->
     (rounds d = r <->
      exists c, _assess_consensus (arguments_of_round (history d) r) = Some c
                /\ (70 <= c)%Z)).

Lemma rounds_shape (experts : list text) (h : list debate_entry) (rn : nat)
    (reached : bool) (invs : list invocation) :
  rounds_outcome experts [1; 2; 3] 0 [] (Return (h, rn, reached)) invs ->
  debate_shape experts
    {| history := h; rounds := rn; consensus_reached := reached |} /\
  records invs h.
Proof.
  intros [_ [done [rest [new [Hsplit [-> [Hslot [-> [Hrec [HA [HB HC]]]]]]]]]]].
  cbn [app]. split; [|exact Hrec].
  unfold debate_shape. cbn [history rounds consensus_reached].
  assert (Hcases :
            (done = [] /\ rest = [1; 2; 3]) \/ (done = [1] /\ rest = [2; 3])
            \/ (done = [1; 2] /\ rest = [3]) \/ (done = [1; 2; 3] /\ rest = [])).
  { destruct done as [|a [|b [|c [|x done]]]]; simpl in Hsplit.
    - left. auto.
    - right. left. inversion Hsplit. auto.
    - right. right. left. inversion Hsplit. auto.
    - right. right. right. inversion Hsplit. auto.
    - exfalso. inversion Hsplit. }
  assert (Hlow : forall r c c',
            _assess_consensus (arguments_of_round new r) = Some c ->
            (70 <= c)%Z ->
            _assess_consensus (arguments_of_round new r) = Some c' ->
            (c' < 70)%Z -> False).
  { intros r c c' E1 H1 E2 H2. rewrite E1 in E2. inversion E2. lia. }
  destruct Hcases as [[-> ->] | [[-> ->] | [[-> ->] | [-> ->]]]];
    cbn [last] in *; unfold max_rounds in *.
  - destruct reached.
    + destruct (HA eq_refl) as [Hne _]. congruence.
    + specialize (HB eq_refl). discriminate.
  - destruct reached; [|specialize (HB eq_refl); discriminate].
    destruct (HA eq_refl) as [_ [_ Hc]].
    split; [lia|]. split; [exact Hslot|]. split; [split; [lia | reflexivity]|].
    intros r H1 H3 Hle. assert (r = 1) by lia. subst r.
    split; [intros _; exact Hc | reflexivity].
  - destruct reached; [|specialize (HB eq_refl); discriminate].
    destruct (HA eq_refl) as [_ [_ Hc]].
    split; [lia|]. split; [exact Hslot|]. split; [split; [lia | reflexivity]|].
    intros r H1 H3 Hle. assert (Hr : r = 1 \/ r = 2) by lia.
    destruct Hr as [-> | ->].
    + split; [discriminate|]. intros [c [E Hge]]. exfalso.
      destruct (HC 1) as [c' [E' Hlt]]; [simpl; auto | lia | left; lia |].
      exact (Hlow _ _ _ E Hge E' Hlt).
    + split; [intros _; exact Hc | reflexivity].
  - destruct reached.
    { destruct (HA eq_refl) as [_ [Hlt _]]. lia. }
    split; [lia|]. split; [exact Hslot|].
    split; [split; [discriminate | lia]|].
    intros r H1 H3 Hle. split; [lia|]. intros [c [E Hge]]. exfalso.
    destruct (HC r) as [c' [E' Hlt]]; [simpl; lia | lia | right; reflexivity |].
    exact (Hlow _ _ _ E Hge E' Hlt).
Qed.

(** What the debate phase leaves behind. *)
Definition debate_outcome (experts : list text) (res res' : results)
    (out : result unit) (new_invs : list invocation) : Prop :=
  length new_invs <= 3 * length experts /\
  match out with
  | Return _ =>
      exists d,
        res' = set_debate d res /\ records new_invs (history d) /\
        debate_shape experts d
  | Raise e =>
      res' = res /\
      (failed_by e is_debate_task new_invs \/
       forallb returned new_invs = true)
  end.

Lemma wp_phase_debate st0 llm em sid agents topic Q res evs invs :
  (forall res' evs' invs' out,
     added evs evs' all_benign ->
     added invs invs'
       (debate_outcome (domain_experts_of agents) res res' out) ->
     Q res' evs' invs' out) ->
  wp st0 (phase_debate llm em sid agents topic) Q res evs invs.
Proof.
  intros H. unfold phase_debate. wp_step. wp_step. cbv zeta.
  wp_step. apply wp_debate_rounds.
  { repeat constructor; simpl; intuition discriminate. }
  intros evs1 invs1 out1 Hev1 [new_invs [-> Hout]].
  assert (Hev1' : added evs evs1 all_benign).
  { eapply added_trans; [apply added_one | exact Hev1 |].
    - apply (benign_emits em sid "phase_started"). reflexivity.
    - intros; apply all_benign_app; assumption. }
  destruct out1 as [e | [[h rn] reached]].
  - apply H; [exact Hev1'|]. apply added_one.
    destruct Hout as [Hlen Hout]. split; [exact Hlen|]. auto.
  - cbv beta iota. wp_step. wp_step. wp_step.
    apply H.
    + eapply added_trans; [exact Hev1' | apply added_one |].
      * apply benign_emits. reflexivity.
      * intros; apply all_benign_app; assumption.
    + apply added_one. pose proof Hout as [Hlen _]. split; [exact Hlen|].
      destruct (rounds_shape Hout) as [Hshape Hrec].
      eexists. split; [reflexivity|]. split; assumption.
Qed.

(** A run of the debate phase from any state. *)
Lemma phase_debate_run llm em sid agents topic st st' out :
  phase_debate llm em sid agents topic st = (st', out) ->
  exists res' evs' new_invs,
    st' = grown st res' evs' new_invs /\ all_benign evs' /\
    debate_outcome (domain_experts_of agents) (self_results st) res' out
      new_invs.
Proof.
  apply (@phase_run _ st (phase_debate llm em sid agents topic)
           (debate_outcome (domain_experts_of agents))).
  intros Q res evs invs H. apply wp_phase_debate. exact H.
Qed.

(** C1.  The debate loop makes at most three rounds of invocations; when
    the phase completes, its record holds between one and three rounds,
    consensus is recorded as reached exactly when the loop left before the
    third round, and a round r before the third is the recorded last round
    exactly when the consensus level of the arguments of round r is at
    least 70. *)
Theorem debate_rounds_bounded llm em sid agents topic st :
  let run := phase_debate llm em sid agents topic st in
  length (invocations (fst run))
  <= length (invocations st) + 3 * length (domain_experts_of agents) /\
  (snd run = Return tt ->
   exists d,
     debate (self_results (fst run)) = Some d /\
     debate_shape (domain_experts_of agents) d).
Proof.
  cbv zeta.
  destruct (phase_debate llm em sid agents topic st) as [st' out] eqn:E.
  cbn [fst snd].
  destruct (phase_debate_run _ _ _ _ _ _ E)
    as [res' [evs' [new_invs [-> [_ [Hlen Hout]]]]]].
  unfold grown. cbn [invocations self_results].
  rewrite length_app. split; [lia|].
  intros ->. destruct Hout as [d [-> [_ Hshape]]].
  exists d. split; [reflexivity | exact Hshape].
Qed.

Lemma length_schedule (experts : list text) (n : nat) :
  length (schedule experts n) = n * length experts.
Proof.
  unfold schedule. generalize 1 as s.
  induction n as [|n IH]; intros s; [reflexivity|].
  cbn [List.seq flat_map]. rewrite length_app, length_map, IH. reflexivity.
Qed.

(** C7.  The debate history only grows at its end: an agent's turn appends
    one entry for that round and agent, a completed round appends one
    entry per expert in the order of invocation, and the history of a
    completed debate lists the rounds in order, each with the experts in
    order. *)
Theorem debate_history_append_only llm em sid topic st :
  (forall r n args hist i a st' args' hist',
     debate_step llm em sid topic r n (args, hist) (i, a) st
     = (st', Return (args', hist')) ->
     exists e, hist' = hist ++ [e] /\ slot e = (r, a)) /\
  (forall experts r hist st' args hist',
     debate_round llm em sid topic experts r hist st
     = (st', Return (args, hist')) ->
     exists new,
       hist' = hist ++ new /\ map slot new = map (pair r) experts /\
       length hist' = length hist + length experts) /\
  (forall agents st',
     phase_debate llm em sid agents topic st = (st', Return tt) ->
     exists d,
       debate (self_results st') = Some d /\
       map slot (history d)
       = schedule (domain_experts_of agents) (rounds d) /\
       length (history d) = rounds d * length (domain_experts_of agents)).
Proof.
  split; [|split].
  - intros r n args hist i a st' args' hist' E.
    assert (W : wp st
                  (debate_step llm em sid topic r n (args, hist) (i, a))
                  (fun _ _ _ out =>
                     forall x y, out = Return (x, y) ->
                                 exists e, y = hist ++ [e] /\ slot e = (r, a))
                  (self_results st) [] []).
    { apply wp_debate_step. intros evs' rec _ _ _.
      destruct (answer rec); intros x y Hxy;
        [discriminate | inversion Hxy; eexists; split; reflexivity]. }
    destruct (wp_run W E) as [_ [_ [_ [_ K]]]]. eapply K. reflexivity.
  - intros experts r hist st' args hist' E.
    assert (W : wp st (debate_round llm em sid topic experts r hist)
                  (fun _ _ invs' out =>
                     added [] invs' (round_outcome experts r hist out))
                  (self_results st) [] []).
    { apply wp_debate_round. intros evs' invs' out _ Hinv. exact Hinv. }
    destruct (wp_run W E)
      as [_ [_ [_ [_ [new_invs [_ [_ [new [-> [Hslot _]]]]]]]]]].
    exists new. split; [reflexivity|]. split; [exact Hslot|].
    rewrite length_app. f_equal.
    apply (f_equal (@length _)) in Hslot. rewrite !length_map in Hslot.
    exact Hslot.
  - intros agents st' E.
    destruct (phase_debate_run _ _ _ _ _ _ E)
      as [res' [evs' [new_invs [-> [_ [_ [d [-> [_ [_ [Hslot _]]]]]]]]]]].
    assert (Hd : debate (set_debate d (self_results st)) = Some d)
      by reflexivity.
    cbn [grown self_results].
    exists d. split; [exact Hd|]. split; [exact Hslot|].
    apply (f_equal (@length _)) in Hslot. rewrite length_map in Hslot.
    rewrite Hslot. apply length_schedule.
Qed.

(** *** Three runs of the debate *)

(** Three experts next to the coordinator of the vote. *)
Definition panel : agents_dict :=
  [ (str "economic", str "economic_agent");
    (str "voting_announcement", str "voting_announcement_agent");
    (str "social", str "social_agent");
    (str "legal", str "legal_agent") ].

Definition fresh : state :=
  {| self_results := no_results; emitted := []; invocations := [] |}.

Definition debated (llm : oracle) : option (nat * bool * list (nat * text)) :=
  match debate (self_results
                  (fst (phase_debate llm true (str "s1") panel
                          (str "Carbon tax") fresh))) with
  | Some d => Some (rounds d, consensus_reached d, map slot (history d))
  | None => None
  end.

(** Experts who agree from the start: one round. *)
Example debate_ends_on_consensus :
  debated (fun _ _ _ => Returned (str "I agree with the proposal."))
  = Some (1, true,
          [ (1, str "economic"); (1, str "social"); (1, str "legal") ]).
Proof. vm_compute. reflexivity. Qed.

(** Experts who keep objecting: the three rounds, no consensus. *)
Example debate_runs_three_rounds :
  debated (fun _ _ _ => Returned (str "However, I oppose it."))
  = Some (3, false,
          [ (1, str "economic"); (1, str "social"); (1, str "legal");
            (2, str "economic"); (2, str "social"); (2, str "legal");
            (3, str "economic"); (3, str "social"); (3, str "legal") ]).
Proof. vm_compute. reflexivity. Qed.

(** Experts who come round in the second round. *)
Example debate_ends_in_second_round :
  debated (fun n _ _ =>
             if n <? 3 then Returned (str "I am against it.")
             else Returned (str "We concur."))
  = Some (2, true,
          [ (1, str "economic"); (1, str "social"); (1, str "legal");
            (2, str "economic"); (2, str "social"); (2, str "legal") ]).
Proof. vm_compute. reflexivity. Qed.

End DebateFacts.


(** ** The other phases *)

Module PhaseFacts.
Import Py PyFacts OutputValidator Deliberation Notions EffectFacts.

(** *** Loops that invoke one agent per element *)

Section InvokeLoop.
Variables X B : Type.
Variable st0 : state.
Variable body : B -> X -> M B.
Variable present : X -> bool.
Variable agent_of : X -> text.
Variable task_of : X -> task.
Variable update : B -> X -> text -> B.
Variable kind : task -> bool.
Hypothesis kind_task_of : forall x, kind (task_of x) = true.

(** The invocation by which element [x] got the answer [o]. *)
Definition invoked (xo : X * text) : invocation :=
  {| agent := agent_of (fst xo); job := task_of (fst xo);
     answer := Returned (snd xo) |}.

Definition updated (acc : B) (xos : list (X * text)) : B :=
  fold_left (fun acc xo => update acc (fst xo) (snd xo)) xos acc.

(** What the loop over [xs], started with [acc], leaves behind. *)
Definition loop_outcome (xs : list X) (acc : B) (out : result B)
    (new_invs : list invocation) : Prop :=
  match out with
  | Return acc' =>
      exists outs,
        length outs = length (filter present xs) /\
        new_invs = map invoked (combine (filter present xs) outs) /\
        acc' = updated acc (combine (filter present xs) outs)
  | Raise e => failed_by e kind new_invs
  end.

(** A step skips an absent element; for a present one it invokes the
    agent and, on an answer, updates the accumulator. *)
Hypothesis body_spec :
  forall acc x Q res evs invs,
    (if present x
     then forall evs' rec,
            added evs evs' all_benign ->
            agent rec = agent_of x -> job rec = task_of x ->
            match answer rec with
            | Raised e => Q res evs' (invs ++ [rec]) (Raise e)
            | Returned o =>
                Q res evs' (invs ++ [rec]) (Return (update acc x o))
            end
     else Q res evs invs (Return acc)) ->
    wp st0 (body acc x) Q res evs invs.

Lemma invoked_returned (xos : list (X * text)) :
  forallb returned (map invoked xos) = true.
Proof. induction xos; simpl; auto. Qed.

Lemma invoked_kind (xos : list (X * text)) :
  forallb (fun i => kind (job i)) (map invoked xos) = true.
Proof.
  induction xos as [|xo xos IH]; simpl; [reflexivity|].
  rewrite kind_task_of, IH. reflexivity.
Qed.

Lemma combine_snoc (U V : Type) (us : list U) (vs : list V) (u : U) (v : V) :
  length us = length vs ->
  combine (us ++ [u]) (vs ++ [v]) = combine us vs ++ [(u, v)].
Proof.
  revert vs; induction us as [|a us IH]; intros [|b vs] H;
    simpl in H; try discriminate; simpl; [reflexivity|].
  rewrite IH; auto.
Qed.

Lemma wp_invoke_loop (xs : list X) (acc : B) Q res evs invs :
  (forall evs' invs' out,
     added evs evs' all_benign ->
     added invs invs' (loop_outcome xs acc out) ->
     Q res evs' invs' out) ->
  wp st0 (for_each xs acc body) Q res evs invs.
Proof.
  intros H.
  apply (@wp_for_each _ _ st0 _
           (fun done acc' res' evs' invs' =>
              res' = res /\ added evs evs' all_benign /\
              added invs invs' (loop_outcome done acc (Return acc')))
           Q xs).
  - intros done x acc' res' evs' invs' _ [-> [Hev [new_invs [-> Hout]]]].
    destruct Hout as [outs [Hlen [-> ->]]].
    apply body_spec. destruct (present x) eqn:Hp.
    + intros evs'' rec Hev' Hagent Hjob.
      assert (Hev'' : added evs evs'' all_benign).
      { eapply added_trans; [exact Hev | exact Hev' |].
        intros; apply all_benign_app; assumption. }
      destruct (answer rec) as [e | o] eqn:Hans.
      * apply H; [exact Hev''|]. apply added_step.
        eexists _, rec. split; [reflexivity|].
        split; [apply invoked_returned|]. split; [|exact Hans].
        rewrite forallb_app, invoked_kind. simpl.
        rewrite Hjob, kind_task_of. reflexivity.
      * split; [reflexivity|]. split; [exact Hev''|]. apply added_step.
        exists (outs ++ [o]).
        rewrite filter_app. cbn [filter]. rewrite Hp.
        rewrite combine_snoc by (symmetry; exact Hlen).
        split; [rewrite !length_app, Hlen; reflexivity|]. split.
        -- rewrite map_app. f_equal. cbn [map]. unfold invoked.
           cbn [fst snd]. destruct rec; simpl in *. congruence.
        -- unfold updated. rewrite fold_left_app. reflexivity.
    + split; [reflexivity|]. split; [exact Hev|].
      exists (map invoked (combine (filter present done) outs)).
      split; [reflexivity|]. exists outs.
      rewrite filter_app. cbn [filter]. rewrite Hp, app_nil_r. auto.
  - intros acc' res' evs' invs' [-> [Hev Hinv]]. apply H; assumption.
  - split; [reflexivity|]. split; [apply added_refl; reflexivity|].
    apply added_refl. exists []. simpl. auto.
Qed.

Lemma loop_outcome_returned xs acc acc' new_invs :
  loop_outcome xs acc (Return acc') new_invs ->
  forallb returned new_invs = true /\
  forallb (fun i => kind (job i)) new_invs = true.
Proof.
  intros [outs [_ [-> _]]]. split; [apply invoked_returned | apply invoked_kind].
Qed.

Lemma loop_outcome_nil acc : loop_outcome [] acc (Return acc) [].
Proof. exists []. simpl. auto. Qed.

Lemma combine_app (U V : Type) (us us' : list U) (vs vs' : list V) :
  length us = length vs ->
  combine (us ++ us') (vs ++ vs') = combine us vs ++ combine us' vs'.
Proof.
  revert vs; induction us as [|a us IH]; intros [|b vs] H;
    simpl in H; try discriminate; simpl; [reflexivity|].
  rewrite IH; auto.
Qed.

Lemma loop_outcome_app xs1 xs2 acc acc1 out invs1 invs2 :
  loop_outcome xs1 acc (Return acc1) invs1 ->
  loop_outcome xs2 acc1 out invs2 ->
  loop_outcome (xs1 ++ xs2) acc out (invs1 ++ invs2).
Proof.
  intros H1 H2. pose proof (loop_outcome_returned H1) as [R1 K1].
  destruct H1 as [outs1 [Hlen1 [-> ->]]].
  destruct out as [e | acc2].
  - apply failed_by_after; assumption.
  - destruct H2 as [outs2 [Hlen2 [-> ->]]]. exists (outs1 ++ outs2).
    rewrite filter_app, combine_app by (symmetry; exact Hlen1).
    split; [rewrite !length_app; congruence|]. split.
    + rewrite map_app. reflexivity.
    + unfold updated. rewrite fold_left_app. reflexivity.
Qed.

End InvokeLoop.

(** *** Voting *)

Definition is_voting_task (t : task) : bool :=
  match t with voting_task _ => true | _ => false end.

Definition voted (topic : text) (ao : text * text) : invocation :=
  {| agent := fst ao; job := voting_task topic; answer := Returned (snd ao) |}.

(** The dictionary that assignments in the order of [pairs] build. *)
Definition assigned (pairs : list (text * text)) : dict text :=
  fold_left (fun d ao => dict_set (fst ao) (snd ao) d) pairs [].

Definition voting_outcome (experts : list text) (topic : text)
    (res res' : results) (out : result unit)
    (new_invs : list invocation) : Prop :=
  match out with
  | Return _ =>
      exists outs,
        length outs = length experts /\
        new_invs = map (voted topic) (combine experts outs) /\
        res' = set_voting (assigned (combine experts outs)) res
  | Raise e => res' = res /\ failed_by e is_voting_task new_invs
  end.

Lemma filter_true (X : Type) (xs : list X) : filter (fun _ => true) xs = xs.
Proof. induction xs; simpl; congruence. Qed.

Lemma map_combine_indexed (X Y Z : Type) (f : Y * Z -> X) (idx : list nat)
    (ys : list Y) (zs : list Z) :
  length idx = length ys ->
  map (fun x : (nat * Y) * Z => f (snd (fst x), snd x))
    (combine (combine idx ys) zs)
  = map f (combine ys zs).
Proof.
  revert idx zs; induction ys as [|y ys IH]; intros [|i idx] zs H;
    simpl in H; try discriminate; [reflexivity|].
  destruct zs as [|z zs]; [reflexivity|].
  simpl. rewrite IH; auto.
Qed.

Lemma fold_combine_indexed (D Y Z : Type) (f : D -> Y * Z -> D)
    (idx : list nat) (ys : list Y) (zs : list Z) (d : D) :
  length idx = length ys ->
  fold_left (fun d (x : (nat * Y) * Z) => f d (snd (fst x), snd x))
    (combine (combine idx ys) zs) d
  = fold_left f (combine ys zs) d.
Proof.
  revert idx zs d; induction ys as [|y ys IH]; intros [|i idx] zs d H;
    simpl in H; try discriminate; [reflexivity|].
  destruct zs as [|z zs]; [reflexivity|].
  simpl. rewrite IH; auto.
Qed.

Lemma wp_phase_voting st0 llm em sid agents topic Q res evs invs :
  (forall res' evs' invs' out,
     added evs evs' all_benign ->
     added invs invs'
       (voting_outcome (domain_experts_of agents) topic res res' out) ->
     Q res' evs' invs' out) ->
  wp st0 (phase_voting llm em sid agents topic) Q res evs invs.
Proof.
  intros H. unfold phase_voting. wp_step. wp_step. cbv zeta.
  set (experts := domain_experts_of agents).
  set (xs := combine (List.seq 0 (length experts)) experts).
  assert (Hxs : length (List.seq 0 (length experts)) = length experts)
    by apply length_seq.
  wp_step.
  apply (@wp_invoke_loop (nat * text) (dict text) st0
           (voting_step llm em sid topic (length experts))
           (fun _ => true) snd (fun _ => voting_task topic)
           (fun d x o => dict_set (snd x) o d) is_voting_task
           (fun _ => eq_refl)).
  - intros acc [i a] Q' res' evs' invs' HQ. unfold voting_step.
    wp_go. apply wp_kickoff. intros ans _.
    match goal with
    | |- context [ {| agent := a; job := ?t; answer := ans |} ] =>
        set (rec := {| agent := a; job := t; answer := ans |})
    end.
    destruct ans as [e | o].
    + apply (HQ _ rec); try reflexivity. benign_events.
    + wp_go.
      apply (HQ _ rec); try reflexivity. benign_events.
  - intros evs1 invs1 out1 Hev1 [new_invs [-> Hout]].
    assert (Hev1' : added evs evs1 all_benign).
    { eapply added_trans; [|exact Hev1|]; [benign_events|].
      intros; apply all_benign_app; assumption. }
    destruct out1 as [e | votes].
    + apply H; [exact Hev1'|]. apply added_one. split; [reflexivity|].
      exact Hout.
    + wp_go.
      apply H; [benign_events|].
      apply added_one. destruct Hout as [outs [Hlen [-> ->]]].
        rewrite filter_true in *. exists outs.
        unfold xs in Hlen. rewrite length_combine, Hxs in Hlen.
        subst experts. cbn [grown self_results].
        split; [lia|]. split.
        -- unfold xs. apply (map_combine_indexed (voted topic)). exact Hxs.
        -- f_equal. unfold updated, assigned, xs.
           apply (fold_combine_indexed
                    (fun d (ao : text * text) => dict_set (fst ao) (snd ao) d)).
           exact Hxs.
Qed.

(** *** Research *)

Definition is_research_task (t : task) : bool :=
  match t with
  | problem_statement_task _ _ | debate_task _ | voting_task _
  | voting_coordination_task _ _ => false
  | _ => true
  end.

Lemma research_task_for_kind (a topic : text) :
  is_research_task (research_task_for a topic) = true.
Proof.
  unfold research_task_for. cbv zeta.
  repeat match goal with
         | |- context [if ?b then _ else _] => destruct b
         end; reflexivity.
Qed.

(** The research agents in the order of their groups, and those of them
    that are present in [agents]. *)
Definition research_ids : list text := concat (map snd research_groups).
Definition researchers (agents : agents_dict) : list text :=
  filter (fun a => dict_has a agents) research_ids.

Definition researched (topic : text) (ao : text * text) : invocation :=
  {| agent := fst ao; job := research_task_for (fst ao) topic;
     answer := Returned (snd ao) |}.

(** The dictionary of validated reports that the answers [pairs] build. *)
Definition reports (topic : text) (pairs : list (text * text)) : dict text :=
  assigned
    (map (fun ao => (fst ao, validated (display_name (fst ao)) topic (snd ao)))
       pairs).

Definition research_outcome (agents : agents_dict) (topic : text)
    (res res' : results) (out : result unit)
    (new_invs : list invocation) : Prop :=
  match out with
  | Return _ =>
      exists outs,
        length outs = length (researchers agents) /\
        new_invs = map (researched topic) (combine (researchers agents) outs) /\
        res' = set_research (reports topic (combine (researchers agents) outs))
                 res
  | Raise e => res' = res /\ failed_by e is_research_task new_invs
  end.

Definition research_update (topic : text) (acc : dict text * nat) (a o : text)
  : dict text * nat :=
  (dict_set a (validated (display_name a) topic o) (fst acc), snd acc + 1).

Lemma wp_research_step st0 llm em sid agents topic gname acc a Q res evs invs :
  (if dict_has a agents
   then forall evs' rec,
          added evs evs' all_benign ->
          agent rec = a -> job rec = research_task_for a topic ->
          match answer rec with
          | Raised e => Q res evs' (invs ++ [rec]) (Raise e)
          | Returned o =>
              Q res evs' (invs ++ [rec])
                (Return (research_update topic acc a o))
          end
   else Q res evs invs (Return acc)) ->
  wp st0 (research_step llm em sid agents topic gname acc a) Q res evs invs.
Proof.
  intros HQ. unfold research_step. destruct acc as [d n].
  destruct (dict_has a agents); cbn [negb].
  - wp_go. apply wp_kickoff. intros ans _.
    match goal with
    | |- context [ {| agent := a; job := ?t; answer := ans |} ] =>
        set (rec := {| agent := a; job := t; answer := ans |})
    end.
    destruct ans as [e | o].
    + apply (HQ _ rec); try reflexivity. benign_events.
    + cbv zeta. wp_go.
      apply (HQ _ rec); try reflexivity. benign_events.
  - wp_step. exact HQ.
Qed.

Lemma fst_updated_research topic pairs acc :
  fst (updated (research_update topic) acc pairs)
  = fold_left (fun d ao => dict_set (fst ao) (snd ao) d)
      (map (fun ao => (fst ao, validated (display_name (fst ao)) topic (snd ao)))
         pairs) (fst acc).
Proof.
  unfold updated. revert acc; induction pairs as [|[a o] pairs IH];
    intros acc; [reflexivity|].
  cbn [fold_left map fst snd]. rewrite IH. reflexivity.
Qed.

Lemma wp_research_groups st0 llm em sid agents topic groups :
  forall acc Q res evs invs,
    (forall evs' invs' out,
       added evs evs' all_benign ->
       added invs invs'
         (loop_outcome (fun a => dict_has a agents) (fun a => a)
            (fun a => research_task_for a topic) (research_update topic)
            is_research_task (concat (map snd groups)) acc out) ->
       Q res evs' invs' out) ->
    wp st0
      (for_each groups acc
         (fun acc group =>
            for_each (snd group) acc
              (research_step llm em sid agents topic (fst group))))
      Q res evs invs.
Proof.
  induction groups as [|g groups IH]; intros acc Q res evs invs H.
  - cbn [for_each]. wp_step. apply H; [benign_events|].
    apply added_refl. apply loop_outcome_nil.
  - cbn [for_each]. wp_step.
    apply (@wp_invoke_loop text (dict text * nat) st0
             (research_step llm em sid agents topic (fst g))
             (fun a => dict_has a agents) (fun a => a)
             (fun a => research_task_for a topic) (research_update topic)
             is_research_task (fun a => research_task_for_kind a topic)).
    + intros acc0 a Q' res' evs' invs' HQ. apply wp_research_step. exact HQ.
    + intros evs1 invs1 out1 Hev1 [new1 [-> Hout1]].
      cbn [map concat]. destruct out1 as [e | acc1].
      * apply H; [exact Hev1|]. apply added_one.
        destruct Hout1 as [good [rec [-> [R [K Hans]]]]].
        exists good, rec. auto.
      * apply IH. intros evs2 invs2 out2 Hev2 [new2 [-> Hout2]].
        apply H.
        -- eapply added_trans; [exact Hev1 | exact Hev2 |].
           intros; apply all_benign_app; assumption.
        -- apply added_step.
           eapply loop_outcome_app; eauto using research_task_for_kind.
Qed.

Lemma wp_phase_research st0 llm em sid agents topic Q res evs invs :
  (forall res' evs' invs' out,
     added evs evs' all_benign ->
     added invs invs' (research_outcome agents topic res res' out) ->
     Q res' evs' invs' out) ->
  wp st0 (phase_research llm em sid agents topic) Q res evs invs.
Proof.
  intros H. unfold phase_research. wp_step. wp_step. wp_step.
  apply wp_research_groups.
  intros evs1 invs1 out1 Hev1 [new_invs [-> Hout]].
  assert (Hev1' : added evs evs1 all_benign).
  { eapply added_trans; [|exact Hev1|]; [benign_events|].
    intros; apply all_benign_app; assumption. }
  destruct out1 as [e | acc].
  - apply H; [exact Hev1'|]. apply added_one. split; [reflexivity|].
    exact Hout.
  - wp_go. apply H; [benign_events|].
    apply added_one. destruct Hout as [outs [Hlen [-> ->]]].
    exists outs. split; [exact Hlen|]. split; [reflexivity|].
    cbn [grown self_results]. f_equal. apply fst_updated_research.
Qed.

(** *** The two phases with a single agent, and the report *)

Definition is_problem_statement_task (t : task) : bool :=
  match t with problem_statement_task _ _ => true | _ => false end.

Definition is_coordination_task (t : task) : bool :=
  match t with voting_coordination_task _ _ => true | _ => false end.

Definition problem_statement_outcome (topic context : text)
    (res res' : results) (out : result unit)
    (new_invs : list invocation) : Prop :=
  match out with
  | Return _ =>
      exists o,
        new_invs = [ {| agent := str "problem_statement";
                        job := problem_statement_task topic context;
                        answer := Returned o |} ] /\
        res' = set_problem_statement
                 (validated (str "Problem Statement Expert") topic o) res
  | Raise e =>
      res' = res /\
      (failed_by e is_problem_statement_task new_invs \/ new_invs = [])
  end.

Lemma failed_by_one (e : text) (kind : task -> bool) (rec : invocation) :
  kind (job rec) = true -> answer rec = Raised e -> failed_by e kind [rec].
Proof.
  intros K Hans. exists [], rec. simpl. rewrite K. auto.
Qed.

Lemma wp_phase_problem_statement st0 llm em sid agents topic context
    Q res evs invs :
  (forall res' evs' invs' out,
     added evs evs' all_benign ->
     added invs invs' (problem_statement_outcome topic context res res' out) ->
     Q res' evs' invs' out) ->
  wp st0 (phase_problem_statement llm em sid agents topic context) Q
    res evs invs.
Proof.
  intros H. unfold phase_problem_statement, agent_at. wp_go. destruct (dict_get (str "problem_statement") agents).
  - wp_go. apply wp_kickoff. intros ans _.
    destruct ans as [e | o].
    + apply H; [benign_events|]. apply added_one. split; [reflexivity|].
      left. apply failed_by_one; reflexivity.
    + cbv zeta. wp_go.
      apply H; [benign_events|]. apply added_one. exists o.
      split; reflexivity.
  - wp_step. apply H; [benign_events|]. apply added_refl.
    split; [reflexivity | right; reflexivity].
Qed.

Definition results_outcome (topic : text) (res res' : results)
    (out : result unit) (new_invs : list invocation) : Prop :=
  match out with
  | Return _ =>
      exists o,
        new_invs = [ {| agent := str "voting_announcement";
                        job := voting_coordination_task topic
                                 (str "Review all votes above");
                        answer := Returned o |} ] /\
        res' = set_final_decision (extract_decision o)
                 (set_final_announcement o res)
  | Raise e =>
      res' = res /\
      (failed_by e is_coordination_task new_invs \/ new_invs = [])
  end.

Lemma wp_phase_results st0 llm em sid agents topic Q res evs invs :
  (forall res' evs' invs' out,
     added evs evs' all_benign ->
     added invs invs' (results_outcome topic res res' out) ->
     Q res' evs' invs' out) ->
  wp st0 (phase_results llm em sid agents topic) Q res evs invs.
Proof.
  intros H. unfold phase_results, agent_at. wp_go. destruct (dict_get (str "voting_announcement") agents).
  - wp_go. apply wp_kickoff. intros ans _.
    destruct ans as [e | o].
    + apply H; [benign_events|]. apply added_one. split; [reflexivity|].
      left. apply failed_by_one; reflexivity.
    + cbv zeta. wp_go.
      apply H; [benign_events|]. apply added_one. exists o.
      split; reflexivity.
  - wp_step. apply H; [benign_events|]. apply added_refl.
    split; [reflexivity | right; reflexivity].
Qed.

Lemma wp_phase_final_report st0 em sid topic Q res evs invs :
  (forall res' evs' report,
     added evs evs' all_benign ->
     res' = set_final_report report res ->
     Q res' evs' invs (Return tt)) ->
  wp st0 (phase_final_report em sid topic) Q res evs invs.
Proof.
  intros H. unfold phase_final_report. cbv zeta. wp_go.
  eapply H; [benign_events | reflexivity].
Qed.

(** *** The agents of a run *)

Definition register (agents : agents_dict) (agent_def : agent_definition)
  : agents_dict :=
  match dict_get (def_id agent_def) method_map with
  | Some method_name =>
      if existsb (text_eqb method_name) agent_system_methods
      then dict_set (def_id agent_def) method_name agents
      else agents
  | None => agents
  end.

(** The dictionary that [initialize_agents] builds. *)
Definition all_agents : agents_dict :=
  Eval vm_compute in fold_left register agent_definitions [].

Lemma wp_initialize_agents st0 em sid Q res evs invs :
  (forall evs', added evs evs' all_benign ->
                Q res evs' invs (Return all_agents)) ->
  wp st0 (initialize_agents em sid) Q res evs invs.
Proof.
  intros H. unfold initialize_agents.
  apply (@wp_for_each _ _ st0 _
           (fun done acc res' evs' invs' =>
              res' = res /\ invs' = invs /\ added evs evs' all_benign /\
              acc = fold_left register done [])
           Q agent_definitions).
  - intros done x acc res' evs' invs' _ [-> [-> [Hev ->]]].
    wp_go.
    assert (G : forall Q',
               Q' res (evs' ++ emits em sid "agent_created"
                         [ ("agent_id", VStr (def_id x));
                           ("agent_name", VStr (def_name x));
                           ("category", VStr (def_category x));
                           ("status", VStr (str "initialized")) ])
                  invs (Return (register (fold_left register done []) x)) ->
               wp st0
                 match dict_get (def_id x) method_map with
                 | Some method_name =>
                     if existsb (text_eqb method_name) agent_system_methods
                     then ret (dict_set (def_id x) method_name
                                 (fold_left register done []))
                     else ret (fold_left register done [])
                 | None => ret (fold_left register done [])
                 end Q' res
                 (evs' ++ emits em sid "agent_created"
                    [ ("agent_id", VStr (def_id x));
                      ("agent_name", VStr (def_name x));
                      ("category", VStr (def_category x));
                      ("status", VStr (str "initialized")) ]) invs).
    { intros Q' HQ'. unfold register in HQ'.
      destruct (dict_get (def_id x) method_map) as [m|]; [|wp_step; exact HQ'].
      destruct (existsb (text_eqb m) agent_system_methods);
        wp_step; exact HQ'. }
    apply G. split; [reflexivity|]. split; [reflexivity|].
    split; [benign_events|]. rewrite fold_left_app. reflexivity.
  - intros acc res' evs' invs' [-> [-> [Hev ->]]]. apply H. exact Hev.
  - split; [reflexivity|]. split; [reflexivity|].
    split; [benign_events | reflexivity].
Qed.

End PhaseFacts.


(** ** A whole run, and the session that asked for it *)

Module RunFacts.
Import Py PyFacts OutputValidator Deliberation PolicyService Notions.
Import EffectFacts DebateFacts PhaseFacts.

(** The phase to which a task belongs. *)
Definition phase_of (t : task) : nat :=
  match t with
  | problem_statement_task _ _ => 2
  | debate_task _ => 4
  | voting_task _ => 5
  | voting_coordination_task _ _ => 6
  | _ => 3
  end.

(** The entries that the phases from [p] on write are the same in [r] and
    in [r']. *)
Definition unchanged_from (p : nat) (r r' : results) : Prop :=
  (p <= 2 -> problem_statement r' = problem_statement r) /\
  (p <= 3 -> research r' = research r) /\
  (p <= 4 -> debate r' = debate r) /\
  (p <= 5 -> voting r' = voting r) /\
  (p <= 6 -> final_announcement r' = final_announcement r /\
             final_decision r' = final_decision r) /\
  final_report r' = final_report r.

Lemma unchanged_from_refl p r : unchanged_from p r r.
Proof. unfold unchanged_from. tauto. Qed.

Lemma unchanged_from_later p q r r' :
  p <= q -> unchanged_from p r r' -> unchanged_from q r r'.
Proof.
  unfold unchanged_from. intros Hle [H2 [H3 [H4 [H5 [H6 H7]]]]].
  repeat split; intros; try apply H2; try apply H3; try apply H4;
    try apply H5; try apply H6; try exact H7; lia.
Qed.

Lemma unchanged_from_trans p r r1 r2 :
  unchanged_from p r r1 -> unchanged_from p r1 r2 -> unchanged_from p r r2.
Proof.
  unfold unchanged_from.
  intros [H2 [H3 [H4 [H5 [H6 H7]]]]] [K2 [K3 [K4 [K5 [K6 K7]]]]].
  repeat split; intros.
  - rewrite K2, H2; auto.
  - rewrite K3, H3; auto.
  - rewrite K4, H4; auto.
  - rewrite K5, H5; auto.
  - destruct (K6 H) as [-> _]. apply H6; auto.
  - destruct (K6 H) as [_ ->]. apply H6; auto.
  - rewrite K7, H7; auto.
Qed.

(** A phase seen from the run: on success all its invocations returned
    and it wrote entries of its own only; on failure it wrote nothing,
    and it was stopped by its last invocation unless all returned. *)
Definition phase_outcome (p : nat) (res res' : results) (out : result unit)
    (invs : list invocation) : Prop :=
  match out with
  | Return _ =>
      forallb returned invs = true /\ unchanged_from (p + 1) res res'
  | Raise e =>
      res' = res /\
      (forallb returned invs = true \/
       failed_by e (fun t => phase_of t =? p) invs)
  end.

Lemma failed_by_kind (e : text) (kind kind' : task -> bool)
    (invs : list invocation) :
  (forall t, kind t = true -> kind' t = true) ->
  failed_by e kind invs -> failed_by e kind' invs.
Proof.
  intros Hk [good [rec [-> [R [K Hans]]]]]. exists good, rec.
  repeat split; auto. rewrite forallb_forall in *.
  intros i Hi. apply Hk. apply K. exact Hi.
Qed.

Lemma returned_map (X : Type) (f : X -> invocation) (xs : list X) :
  (forall x, returned (f x) = true) -> forallb returned (map f xs) = true.
Proof. intros H. induction xs; simpl; [|rewrite H]; auto. Qed.

Lemma problem_statement_phase topic context res res' out invs :
  problem_statement_outcome topic context res res' out invs ->
  phase_outcome 2 res res' out invs.
Proof.
  destruct out as [e | []]; simpl.
  - intros [-> [H | ->]]; split; auto.
    right. eapply failed_by_kind; [|exact H]. intros []; simpl; congruence.
  - intros [o [-> ->]]. split; [reflexivity|].
    unfold unchanged_from. simpl. repeat split; intros; auto; lia.
Qed.

Lemma research_phase agents topic res res' out invs :
  research_outcome agents topic res res' out invs ->
  phase_outcome 3 res res' out invs.
Proof.
  destruct out as [e | []]; simpl.
  - intros [-> H]; split; auto.
    right. eapply failed_by_kind; [|exact H]. intros []; simpl; congruence.
  - intros [outs [_ [-> ->]]]. split; [apply returned_map; reflexivity|].
    unfold unchanged_from. simpl. repeat split; intros; auto; lia.
Qed.

Lemma debate_phase experts res res' out invs :
  debate_outcome experts res res' out invs ->
  phase_outcome 4 res res' out invs.
Proof.
  destruct out as [e | []]; simpl.
  - intros [_ [-> [H | H]]]; split; auto.
    right. eapply failed_by_kind; [|exact H]. intros []; simpl; congruence.
  - intros [_ [d [-> [Hrec _]]]]. split; [eapply records_returned; eauto|].
    unfold unchanged_from. simpl. repeat split; intros; auto; lia.
Qed.

Lemma voting_phase experts topic res res' out invs :
  voting_outcome experts topic res res' out invs ->
  phase_outcome 5 res res' out invs.
Proof.
  destruct out as [e | []]; simpl.
  - intros [-> H]; split; auto.
    right. eapply failed_by_kind; [|exact H]. intros []; simpl; congruence.
  - intros [outs [_ [-> ->]]]. split; [apply returned_map; reflexivity|].
    unfold unchanged_from. simpl. repeat split; intros; auto; lia.
Qed.

Lemma results_phase topic res res' out invs :
  results_outcome topic res res' out invs ->
  phase_outcome 6 res res' out invs.
Proof.
  destruct out as [e | []]; simpl.
  - intros [-> [H | ->]]; split; auto.
    right. eapply failed_by_kind; [|exact H]. intros []; simpl; congruence.
  - intros [o [-> ->]]. split; [reflexivity|].
    unfold unchanged_from. simpl. repeat split; intros; auto; lia.
Qed.

(** What a run leaves behind: if it was stopped by an invocation, that
    invocation is the last one and the entries of its phase and of the
    later phases are as they were before the run. *)
Definition run_outcome (res res' : results) (out : result unit)
    (invs : list invocation) : Prop :=
  match out with
  | Return _ => forallb returned invs = true
  | Raise e =>
      forallb returned invs = true \/
      exists good rec,
        invs = good ++ [rec] /\ forallb returned good = true /\
        answer rec = Raised e /\
        unchanged_from (phase_of (job rec)) res res'
  end.

(** The run so far, followed by one more phase. *)
Lemma run_outcome_phase p res res1 res2 out invs1 invs2 :
  forallb returned invs1 = true -> unchanged_from p res res1 ->
  phase_outcome p res1 res2 out invs2 ->
  match out with
  | Return _ =>
      forallb returned (invs1 ++ invs2) = true /\
      unchanged_from (p + 1) res res2
  | Raise e => run_outcome res res2 (Raise e) (invs1 ++ invs2)
  end.
Proof.
  intros R1 U1 H. destruct out as [e | []]; simpl in H.
  - destruct H as [-> [R2 | [good [rec [-> [R2 [K Hans]]]]]]].
    + left. rewrite forallb_app, R1, R2. reflexivity.
    + right. exists (invs1 ++ good), rec. rewrite app_assoc.
      split; [reflexivity|]. split; [rewrite forallb_app, R1, R2; reflexivity|].
      split; [exact Hans|].
      rewrite forallb_app in K. apply andb_true_iff in K.
      destruct K as [_ K]. simpl in K. rewrite andb_true_r in K.
      apply Nat.eqb_eq in K. rewrite K. exact U1.
  - destruct H as [R2 U2]. split.
    + rewrite forallb_app, R1, R2. reflexivity.
    + eapply unchanged_from_trans; [|exact U2].
      eapply unchanged_from_later; [|exact U1]. lia.
Qed.

Lemma wp_deliberation st0 llm em sid topic context Q res evs invs :
  (forall res' evs' invs' out,
     added evs evs' all_benign ->
     added invs invs' (run_outcome res res' out) ->
     Q res' evs' invs' out) ->
  wp st0 (deliberation llm em sid topic context) Q res evs invs.
Proof.
  intros H. unfold deliberation. wp_step. wp_step. wp_step.
  apply wp_initialize_agents. intros evs0 Hev0. wp_step. wp_step.
  assert (R0 : forallb returned (@nil invocation) = true) by reflexivity.
  pose proof (unchanged_from_refl 2 res) as U0.
  (* the problem statement *)
  wp_step. apply wp_phase_problem_statement.
  intros res1 evs1 invs1 out1 Hev1 [new1 [-> H1]].
  apply problem_statement_phase in H1.
  pose proof (@run_outcome_phase _ _ _ _ _ _ _ R0 U0 H1) as K1. cbn [app] in K1.
  assert (E1 : added evs evs1 all_benign) by benign_chain.
  clear Hev1 Hev0 H1 R0 U0.
  destruct out1 as [e | []]; [apply H; [exact E1 | apply added_one; exact K1]|].
  destruct K1 as [R1 U1].
  (* research *)
  wp_step. apply wp_phase_research.
  intros res2 evs2 invs2 out2 Hev2 [new2 [-> H2]].
  apply research_phase in H2.
  pose proof (@run_outcome_phase _ _ _ _ _ _ _ R1 U1 H2) as K2.
  assert (E2 : added evs evs2 all_benign) by benign_chain.
  clear Hev2 E1 H2 R1 U1.
  destruct out2 as [e | []];
    [apply H; [exact E2 | rewrite <- app_assoc; apply added_one; exact K2]|].
  destruct K2 as [R2 U2].
  (* the debate *)
  wp_step. apply wp_phase_debate.
  intros res3 evs3 invs3 out3 Hev3 [new3 [-> H3]].
  apply debate_phase in H3.
  pose proof (@run_outcome_phase _ _ _ _ _ _ _ R2 U2 H3) as K3.
  assert (E3 : added evs evs3 all_benign) by benign_chain.
  clear Hev3 E2 H3 R2 U2.
  destruct out3 as [e | []];
    [apply H; [exact E3 | rewrite <- !app_assoc; apply added_one;
                          rewrite app_assoc; exact K3]|].
  destruct K3 as [R3 U3].
  (* the vote *)
  wp_step. apply wp_phase_voting.
  intros res4 evs4 invs4 out4 Hev4 [new4 [-> H4]].
  apply voting_phase in H4.
  pose proof (@run_outcome_phase _ _ _ _ _ _ _ R3 U3 H4) as K4.
  assert (E4 : added evs evs4 all_benign) by benign_chain.
  clear Hev4 E3 H4 R3 U3.
  destruct out4 as [e | []];
    [apply H; [exact E4 | rewrite <- !app_assoc; apply added_one;
                          rewrite !app_assoc; exact K4]|].
  destruct K4 as [R4 U4].
  (* the announcement *)
  wp_step. apply wp_phase_results.
  intros res5 evs5 invs5 out5 Hev5 [new5 [-> H5]].
  apply results_phase in H5.
  pose proof (@run_outcome_phase _ _ _ _ _ _ _ R4 U4 H5) as K5.
  assert (E5 : added evs evs5 all_benign) by benign_chain.
  clear Hev5 E4 H5 R4 U4.
  destruct out5 as [e | []];
    [apply H; [exact E5 | rewrite <- !app_assoc; apply added_one;
                          rewrite !app_assoc; exact K5]|].
  destruct K5 as [R5 U5].
  (* the report *)
  wp_step. apply wp_phase_final_report.
  intros res6 evs6 report Hev6 ->.
  wp_step. wp_step. wp_step.
  apply H.
  - benign_chain.
  - rewrite <- !app_assoc. apply added_one. rewrite !app_assoc. exact R5.
Qed.

Lemma deliberation_run llm em sid topic context st st' out :
  deliberation llm em sid topic context st = (st', out) ->
  exists res' evs' new_invs,
    st' = grown st res' evs' new_invs /\ all_benign evs' /\
    run_outcome (self_results st) res' out new_invs.
Proof.
  apply (@phase_run _ st (deliberation llm em sid topic context) run_outcome).
  intros Q res evs invs H. apply wp_deliberation. exact H.
Qed.

Lemma returned_not_raised (invs : list invocation) (rec : invocation)
    (msg : text) :
  forallb returned invs = true -> In rec invs -> answer rec = Raised msg ->
  False.
Proof.
  intros R Hin Hans. rewrite forallb_forall in R. specialize (R _ Hin).
  unfold returned in R. rewrite Hans in R. discriminate.
Qed.

Lemma skipn_added (X : Type) (l d : list X) : skipn (length l) (l ++ d) = d.
Proof.
  rewrite skipn_app, skipn_all, Nat.sub_diag. reflexivity.
Qed.

(** The payload of the error event of a failed run. *)
Definition error_payload (msg : text) : list (string * value) :=
  [ ("error", VStr msg); ("phase", VStr (str "Unknown")) ].

(** A run in which the invocation [rec] raised. *)
Lemma run_deliberation_raised llm em sid topic context st rec msg :
  let run := run_deliberation llm em sid topic context st in
  In rec (skipn (length (invocations st)) (invocations (fst run))) ->
  answer rec = Raised msg ->
  snd run = Failed msg /\
  (exists evs,
     all_benign evs /\
     emitted (fst run)
     = emitted st ++ evs ++ emits em sid "deliberation_error"
                              (error_payload msg)) /\
  (exists good,
     invocations (fst run) = invocations st ++ good ++ [rec] /\
     forallb returned good = true) /\
  unchanged_from (phase_of (job rec)) (self_results st)
    (self_results (fst run)).
Proof.
  cbv zeta. unfold run_deliberation.
  destruct (deliberation llm em sid topic context st) as [st1 out] eqn:E.
  destruct (deliberation_run _ _ _ _ _ _ E)
    as [res' [evs' [new_invs [-> [Hev Hout]]]]].
  destruct out as [e | []].
  - rewrite emit_event_grown. cbn [fst snd grown invocations emitted
                                   self_results].
    rewrite skipn_added. intros Hin Hans.
    destruct Hout as [R | [good [rec' [-> [R [Hans' U]]]]]].
    { exfalso. eapply returned_not_raised; eauto. }
    apply in_app_or in Hin. destruct Hin as [Hin | [<- | []]].
    { exfalso. eapply returned_not_raised; eauto. }
    assert (e = msg) by congruence. subst e.
    split; [reflexivity|]. split; [|split].
    + exists evs'. split; [exact Hev | reflexivity].
    + exists good. split; [reflexivity | exact R].
    + exact U.
  - cbn [fst snd grown invocations]. rewrite skipn_added. intros Hin Hans.
    exfalso. eapply returned_not_raised; eauto.
Qed.

(** C6.  If an invocation of the run that a session asked for raised,
    the run stopped there: that invocation is the last one and those
    before it returned, the run reports failure with the message of the
    exception, the service method itself returns, the session is marked
    as an error that holds only that message, the one error event of the
    run is its last event and carries the message, and the entries of the
    results that the failed phase and the later phases write are as they
    were before the run. *)
Theorem failing_invocation_aborts llm em sid svc session rec msg :
  dict_get sid (active_sessions svc) = Some session ->
  let st := deliberation_system svc in
  let served := _run_deliberation llm em sid svc in
  let st' := deliberation_system (fst served) in
  In rec (skipn (length (invocations st)) (invocations st')) ->
  answer rec = Raised msg ->
  snd (run_deliberation llm em sid (policy_topic session)
         (background_context session) st) = Failed msg /\
  snd served = Return tt /\
  dict_get sid (active_sessions (fst served))
  = Some (with_outcome session (str "error") (ErrorResults msg)) /\
  (exists evs,
     all_benign evs /\
     emitted st'
     = emitted st ++ evs ++ emits em sid "deliberation_error"
                              (error_payload msg)) /\
  (exists good,
     invocations st' = invocations st ++ good ++ [rec] /\
     forallb returned good = true) /\
  unchanged_from (phase_of (job rec)) (self_results st) (self_results st').
Proof.
  intros Hget. cbv zeta. unfold _run_deliberation. rewrite Hget.
  pose proof (@run_deliberation_raised llm em sid (policy_topic session)
                (background_context session) (deliberation_system svc)
                rec msg) as H.
  cbv zeta in H.
  destruct (run_deliberation llm em sid (policy_topic session)
              (background_context session) (deliberation_system svc))
    as [st1 r].
  cbn [fst snd active_sessions deliberation_system] in *.
  intros Hin Hans. destruct (H Hin Hans) as [-> [Hev [Hinv U]]].
  split; [reflexivity|]. split; [reflexivity|].
  split; [apply dict_get_set_same|]. auto.
Qed.

(** A service with one session, and an agent that times out at its
    sixty-first invocation, in the second round of the debate. *)
Definition demo_session : PolicySession :=
  {| session_id := str "s1";
     policy_topic := str "Carbon tax";
     background_context := str "A tax on fuel";
     status := str "running";
     current_phase := 0;
     phase_name := str "Initialization";
     session_results_of := NoResults |}.

Definition demo_service : service :=
  {| active_sessions := [(str "s1", demo_session)];
     deliberation_system :=
       {| self_results := no_results; emitted := []; invocations := [] |} |}.

Definition demo_llm : oracle :=
  fun n _ _ =>
    if n =? 60 then Raised (str "timeout")
    else Returned (str "However, the evidence is mixed.").

Definition demo_failure : invocation :=
  nth 60
    (invocations
       (deliberation_system
          (fst (_run_deliberation demo_llm true (str "s1") demo_service))))
    {| agent := []; job := voting_task []; answer := Returned [] |}.

Lemma failing_invocation_aborts_witness :
  status demo_session = str "running" /\
  exists session',
    dict_get (str "s1")
      (active_sessions
         (fst (_run_deliberation demo_llm true (str "s1") demo_service)))
    = Some session' /\
    status session' = str "error" /\
    session_results_of session' = ErrorResults (str "timeout").
Proof.
  split; [reflexivity|].
  destruct (@failing_invocation_aborts demo_llm true (str "s1") demo_service
              demo_session demo_failure (str "timeout"))
    as [_ [_ [H _]]].
  - reflexivity.
  - apply nth_error_In with (n := 60). vm_compute. reflexivity.
  - vm_compute. reflexivity.
  - eexists. split; [exact H|]. split; reflexivity.
Defined.

End RunFacts.


(** ** What each phase records *)

Module RecordFacts.
Import Py PyFacts OutputValidator Deliberation Notions.
Import EffectFacts DebateFacts PhaseFacts.

(** [xs] has no element twice. *)
Fixpoint distinct (xs : list text) : bool :=
  match xs with
  | [] => true
  | x :: xs' => negb (existsb (text_eqb x) xs') && distinct xs'
  end.

Lemma existsb_text_eqb (x : text) (xs : list text) :
  existsb (text_eqb x) xs = true <-> In x xs.
Proof.
  rewrite existsb_exists. split.
  - intros [y [Hin E]]. apply text_eqb_eq in E. subst. exact Hin.
  - intros Hin. exists x. split; [exact Hin | apply text_eqb_refl].
Qed.

Lemma distinct_NoDup (xs : list text) : distinct xs = true -> NoDup xs.
Proof.
  induction xs as [|x xs IH]; simpl; [constructor|].
  intros H. apply andb_true_iff in H. destruct H as [Hx Hxs].
  constructor; [|auto].
  intros Hin. apply existsb_text_eqb in Hin. rewrite Hin in Hx. discriminate.
Qed.

Lemma dict_set_new (V : Type) (k : text) (v : V) (d : dict V) :
  ~ In k (dict_keys d) -> dict_set k v d = d ++ [(k, v)].
Proof.
  induction d as [|[k' w] d IH]; simpl; [reflexivity|].
  intros Hnot. destruct (text_eqb k k') eqn:E.
  - apply text_eqb_eq in E. subst. tauto.
  - rewrite IH; [reflexivity | tauto].
Qed.

(** Assignments to keys that are all different build the list of the
    assignments. *)
Lemma assigned_from (pairs acc : dict text) :
  NoDup (map fst (acc ++ pairs)) ->
  fold_left (fun d ao => dict_set (fst ao) (snd ao) d) pairs acc
  = acc ++ pairs.
Proof.
  revert acc. induction pairs as [|[k v] pairs IH]; intros acc Hnd.
  - rewrite app_nil_r. reflexivity.
  - cbn [fold_left fst snd].
    assert (Hnot : ~ In k (dict_keys acc)).
    { unfold dict_keys. rewrite map_app in Hnd. cbn [map fst] in Hnd.
      apply NoDup_remove_2 in Hnd. intros Hin. apply Hnd.
      apply in_or_app. left. exact Hin. }
    rewrite (@dict_set_new _ _ _ _ Hnot), IH.
    + rewrite <- app_assoc. reflexivity.
    + rewrite <- app_assoc. exact Hnd.
Qed.

Lemma assigned_distinct (pairs : dict text) :
  NoDup (map fst pairs) -> assigned pairs = pairs.
Proof. intros H. unfold assigned. rewrite assigned_from; auto. Qed.

Lemma map_fst_combine (X Y : Type) (xs : list X) (ys : list Y) :
  length ys = length xs -> map fst (combine xs ys) = xs.
Proof.
  revert ys. induction xs as [|x xs IH]; intros [|y ys] H; simpl in *;
    try discriminate; [reflexivity|]. rewrite IH; auto.
Qed.

Lemma NoDup_domain_experts (agents : agents_dict) :
  NoDup (dict_keys agents) -> NoDup (domain_experts_of agents).
Proof. intros H. unfold domain_experts_of. apply NoDup_filter. exact H. Qed.

Lemma NoDup_researchers (agents : agents_dict) : NoDup (researchers agents).
Proof.
  unfold researchers. apply NoDup_filter. apply distinct_NoDup.
  vm_compute. reflexivity.
Qed.

Lemma NoDup_round (r : nat) (experts : list text) :
  NoDup experts -> NoDup (map (pair r) experts).
Proof.
  induction 1 as [|a l Hnot Hnd IH]; simpl; constructor; [|exact IH].
  rewrite in_map_iff. intros [b [E Hin]]. inversion E; subst. tauto.
Qed.

(** No round and agent occurs twice in a schedule. *)
Lemma NoDup_schedule (experts : list text) (n : nat) :
  NoDup experts -> NoDup (schedule experts n).
Proof.
  intros Hnd. unfold schedule. generalize 1 as s.
  induction n as [|n IH]; intros s; cbn [List.seq flat_map]; [constructor|].
  apply NoDup_app; [apply NoDup_round; exact Hnd | apply IH |].
  intros [r a] Hin Hin'. rewrite in_map_iff in Hin.
  destruct Hin as [b [E _]]. inversion E; subst.
  rewrite in_flat_map in Hin'. destruct Hin' as [r' [Hr' Hin']].
  rewrite in_map_iff in Hin'. destruct Hin' as [b' [E' _]].
  inversion E'; subst. rewrite in_seq in Hr'. lia.
Qed.

(** The invocations that a run from [st] to [st'] added. *)
Definition added_invocations (st st' : state) : list invocation :=
  skipn (length (invocations st)) (invocations st').

Lemma added_invocations_grown st res evs invs :
  added_invocations st (grown st res evs invs) = invs.
Proof.
  unfold added_invocations, grown. cbn [invocations].
  rewrite skipn_app, skipn_all, Nat.sub_diag. reflexivity.
Qed.

(** An answer [o] of agent [a], as the research phase records it. *)
Definition report (topic : text) (ao : text * text) : text * text :=
  (fst ao, validated (display_name (fst ao)) topic (snd ao)).

(** An agent that answers every task with the one word. *)
Definition laconic : oracle := fun _ _ _ => Returned (str "yes").

(** The voting phase records an answer that the validator rejects as it
    is; the fallback is not put in its place. *)
Lemma unvalidated_vote_recorded :
  let st' := fst (phase_voting laconic true (str "s1") all_agents
                    (str "Carbon tax") fresh) in
  exists votes,
    voting (self_results st') = Some votes /\
    dict_get (str "economic") votes = Some (str "yes") /\
    is_valid_policy_output (str "yes") = (false, OutputTooShort) /\
    validated (display_name (str "economic")) (str "Carbon tax") (str "yes")
    <> str "yes".
Proof.
  cbv zeta. eexists. split; [vm_compute; reflexivity|].
  split; [vm_compute; reflexivity|]. split; [vm_compute; reflexivity|].
  vm_compute. discriminate.
Qed.

(** C4 (amended).  A phase that completes records exactly one outcome for
    each of its invocations, and no agent, nor round and agent in the
    debate, has two: the problem statement and the research reports are
    recorded validated, that is as the extracted content of an accepted
    output and as the fallback for a rejected one; the arguments of the
    debate, the votes and the announcement are recorded as the agents
    returned them. *)
Theorem one_outcome_per_agent llm em sid agents topic context st :
  NoDup (dict_keys agents) ->
  (forall st',
     phase_problem_statement llm em sid agents topic context st
     = (st', Return tt) ->
     exists o,
       added_invocations st st'
       = [ {| agent := str "problem_statement";
              job := problem_statement_task topic context;
              answer := Returned o |} ] /\
       problem_statement (self_results st')
       = Some (validated (str "Problem Statement Expert") topic o)) /\
  (forall st',
     phase_research llm em sid agents topic st = (st', Return tt) ->
     exists outs,
       length outs = length (researchers agents) /\
       added_invocations st st'
       = map (researched topic) (combine (researchers agents) outs) /\
       research (self_results st')
       = Some (map (report topic) (combine (researchers agents) outs))) /\
  NoDup (researchers agents) /\
  (forall st',
     phase_debate llm em sid agents topic st = (st', Return tt) ->
     exists d,
       debate (self_results st') = Some d /\
       records (added_invocations st st') (history d) /\
       NoDup (map slot (history d))) /\
  (forall st',
     phase_voting llm em sid agents topic st = (st', Return tt) ->
     exists outs,
       length outs = length (domain_experts_of agents) /\
       added_invocations st st'
       = map (voted topic) (combine (domain_experts_of agents) outs) /\
       voting (self_results st')
       = Some (combine (domain_experts_of agents) outs)) /\
  NoDup (domain_experts_of agents) /\
  (forall st',
     phase_results llm em sid agents topic st = (st', Return tt) ->
     exists o,
       added_invocations st st'
       = [ {| agent := str "voting_announcement";
              job := voting_coordination_task topic
                       (str "Review all votes above");
              answer := Returned o |} ] /\
       final_announcement (self_results st') = Some o).
Proof.
  intros Hkeys.
  pose proof (@NoDup_domain_experts _ Hkeys) as Hexperts.
  pose proof (NoDup_researchers agents) as Hresearchers.
  split; [|split; [|split; [exact Hresearchers|
                    split; [|split; [|split; [exact Hexperts|]]]]]].
  - intros st' E.
    destruct (@phase_run _ st
                (phase_problem_statement llm em sid agents topic context)
                (problem_statement_outcome topic context)
                (fun Q res evs invs H =>
                   @wp_phase_problem_statement st llm em sid agents topic
                     context Q res evs invs H) _ _ E)
      as [res' [evs' [new_invs [-> [_ [o [-> ->]]]]]]].
    exists o. rewrite added_invocations_grown. split; reflexivity.
  - intros st' E.
    destruct (@phase_run _ st (phase_research llm em sid agents topic)
                (research_outcome agents topic)
                (fun Q res evs invs H =>
                   @wp_phase_research st llm em sid agents topic
                     Q res evs invs H) _ _ E)
      as [res' [evs' [new_invs [-> [_ [outs [Hlen [-> ->]]]]]]]].
    exists outs. rewrite added_invocations_grown.
    split; [exact Hlen|]. split; [reflexivity|].
    cbn [grown self_results set_research research]. f_equal.
    unfold reports. apply assigned_distinct.
    rewrite map_map. cbn [fst].
    change (fun x : text * text => fst x) with (@fst text text).
    rewrite map_fst_combine; auto.
  - intros st' E.
    destruct (phase_debate_run _ _ _ _ _ _ E)
      as [res' [evs' [new_invs [-> [_ [_ [d [-> [Hrec [_ [Hslot _]]]]]]]]]]].
    exists d. rewrite added_invocations_grown.
    split; [reflexivity|]. split; [exact Hrec|].
    rewrite Hslot. apply NoDup_schedule. exact Hexperts.
  - intros st' E.
    destruct (@phase_run _ st (phase_voting llm em sid agents topic)
                (voting_outcome (domain_experts_of agents) topic)
                (fun Q res evs invs H =>
                   @wp_phase_voting st llm em sid agents topic
                     Q res evs invs H) _ _ E)
      as [res' [evs' [new_invs [-> [_ [outs [Hlen [-> ->]]]]]]]].
    exists outs. rewrite added_invocations_grown.
    split; [exact Hlen|]. split; [reflexivity|].
    cbn [grown self_results set_voting voting]. f_equal.
    apply assigned_distinct. rewrite map_fst_combine; auto.
  - intros st' E.
    destruct (@phase_run _ st (phase_results llm em sid agents topic)
                (results_outcome topic)
                (fun Q res evs invs H =>
                   @wp_phase_results st llm em sid agents topic
                     Q res evs invs H) _ _ E)
      as [res' [evs' [new_invs [-> [_ [o [-> ->]]]]]]].
    exists o. rewrite added_invocations_grown. split; reflexivity.
Qed.

(** The theorem at the vote of the twenty-four experts of the system, all
    answering with the one word. *)
Lemma one_outcome_per_agent_witness :
  NoDup (dict_keys all_agents) /\
  exists outs,
    length outs = 24 /\
    voting (self_results
              (fst (phase_voting laconic true (str "s1") all_agents
                      (str "Carbon tax") fresh)))
    = Some (combine (domain_experts_of all_agents) outs).
Proof.
  assert (Hkeys : NoDup (dict_keys all_agents))
    by (apply distinct_NoDup; vm_compute; reflexivity).
  split; [exact Hkeys|].
  destruct (@one_outcome_per_agent laconic true (str "s1") all_agents
              (str "Carbon tax") [] fresh Hkeys)
    as [_ [_ [_ [_ [H _]]]]].
  destruct (H (fst (phase_voting laconic true (str "s1") all_agents
                      (str "Carbon tax") fresh)))
    as [outs [Hlen [_ Hvotes]]].
  - vm_compute. reflexivity.
  - exists outs. split; [exact Hlen | exact Hvotes].
Defined.

End RecordFacts.


(** ** Binary64 arithmetic

    What is needed of IEEE 754 addition and division to see that the
    consensus level is computed without overflow.  The specification of
    the primitive operations is that of [SpecFloat]. *)

Module FloatFacts.
Import PyNum.
Local Open Scope Z_scope.

(** The number of binary digits of a mantissa. *)
Lemma digits2_pos_spec (p : positive) :
  2 ^ (Zpos (digits2_pos p) - 1) <= Zpos p < 2 ^ Zpos (digits2_pos p).
Proof.
  induction p as [p IH | p IH |]; cbn [digits2_pos].
  - rewrite Pos2Z.inj_succ.
    replace (Z.succ (Zpos (digits2_pos p)) - 1)
      with (Z.succ (Zpos (digits2_pos p) - 1)) by lia.
    rewrite !Z.pow_succ_r by lia. lia.
  - rewrite Pos2Z.inj_succ.
    replace (Z.succ (Zpos (digits2_pos p)) - 1)
      with (Z.succ (Zpos (digits2_pos p) - 1)) by lia.
    rewrite !Z.pow_succ_r by lia. lia.
  - simpl. lia.
Qed.

Lemma Zdigits2_spec (m : Z) :
  0 < m -> 0 < Zdigits2 m /\ 2 ^ (Zdigits2 m - 1) <= m < 2 ^ Zdigits2 m.
Proof.
  destruct m as [|p|p]; try lia. intros _. cbn [Zdigits2].
  split; [lia | apply digits2_pos_spec].
Qed.

(** A number below [2 ^ k] has at most [k] digits, one from [2 ^ k] on has
    more. *)
Lemma Zdigits2_le (m k : Z) : 0 < m -> m < 2 ^ k -> Zdigits2 m <= k.
Proof.
  intros Hm Hk. destruct (@Zdigits2_spec m Hm) as [Hd [Hlo _]].
  destruct (Z_le_gt_dec (Zdigits2 m) k) as [|Hgt]; [assumption|].
  assert (2 ^ k <= 2 ^ (Zdigits2 m - 1)).
  { apply Z.pow_le_mono_r; [lia|]. lia. }
  lia.
Qed.

Lemma Zdigits2_gt (m k : Z) : 0 <= k -> 2 ^ k <= m -> k < Zdigits2 m.
Proof.
  intros Hk Hm. assert (0 < m) by (pose proof (Z.pow_pos_nonneg 2 k); lia).
  destruct (@Zdigits2_spec m H) as [Hd [_ Hhi]].
  destruct (Z_lt_le_dec k (Zdigits2 m)) as [|Hle]; [assumption|].
  assert (2 ^ Zdigits2 m <= 2 ^ k) by (apply Z.pow_le_mono_r; lia).
  lia.
Qed.

(** One shift to the right: the bit that leaves is the rounding bit. *)
Lemma shr_1_spec (m : Z) (r s : bool) :
  0 <= m ->
  shr_1 (Build_shr_record m r s)
  = Build_shr_record (m / 2) (Z.odd m) (r || s).
Proof.
  intros Hm. rewrite <- Z.div2_div.
  destruct m as [|[p|p|]|p]; try reflexivity. lia.
Qed.

(** [mrs'] is [mrs] shifted by [k] places. *)
Definition shifted (k : Z) (mrs mrs' : shr_record) : Prop :=
  shr_m mrs' = shr_m mrs / 2 ^ k /\
  shr_r mrs' = Z.testbit (shr_m mrs) (k - 1).

Lemma shifted_one (mrs : shr_record) :
  0 <= shr_m mrs -> shifted 1 mrs (shr_1 mrs).
Proof.
  destruct mrs as [m r s]. cbn [shr_m]. intros Hm.
  rewrite shr_1_spec by assumption. split; cbn [shr_m shr_r].
  - rewrite Z.pow_1_r. reflexivity.
  - symmetry. apply Z.bit0_odd.
Qed.

Lemma shifted_nonneg (k : Z) (mrs mrs' : shr_record) :
  0 <= k -> 0 <= shr_m mrs -> shifted k mrs mrs' -> 0 <= shr_m mrs'.
Proof.
  intros Hk Hm [-> _]. apply Z.div_pos; [assumption|].
  apply Z.pow_pos_nonneg; lia.
Qed.

Lemma shifted_trans (j k : Z) (a b c : shr_record) :
  0 < j -> 0 < k -> 0 <= shr_m a ->
  shifted j a b -> shifted k b c -> shifted (j + k) a c.
Proof.
  intros Hj Hk Hm [Hb _] [Hc Hr]. split.
  - rewrite Hc, Hb, Z.pow_add_r by lia.
    pose proof (Z.pow_pos_nonneg 2 j). pose proof (Z.pow_pos_nonneg 2 k).
    rewrite Z.div_div by lia. reflexivity.
  - rewrite Hr, Hb, Z.div_pow2_bits by lia. f_equal. lia.
Qed.

Lemma iter_shr_1 (p : positive) :
  forall mrs, 0 <= shr_m mrs -> shifted (Zpos p) mrs (iter_pos shr_1 p mrs).
Proof.
  induction p as [p IH | p IH |]; intros mrs Hm; cbn [iter_pos].
  - pose proof (@shifted_one mrs Hm) as H1.
    assert (Hm1 : 0 <= shr_m (shr_1 mrs))
      by (apply (@shifted_nonneg 1 mrs); [lia | exact Hm | exact H1]).
    pose proof (IH _ Hm1) as H2.
    assert (Hm2 : 0 <= shr_m (iter_pos shr_1 p (shr_1 mrs)))
      by (apply (@shifted_nonneg (Zpos p) (shr_1 mrs)); [lia | exact Hm1 | exact H2]).
    pose proof (IH _ Hm2) as H3.
    replace (Zpos p~1) with (1 + Zpos p + Zpos p) by lia.
    eapply shifted_trans; [lia | lia | exact Hm | | exact H3].
    eapply shifted_trans; [lia | lia | exact Hm | exact H1 | exact H2].
  - pose proof (IH _ Hm) as H2.
    assert (Hm2 : 0 <= shr_m (iter_pos shr_1 p mrs))
      by (apply (@shifted_nonneg (Zpos p) mrs); [lia | exact Hm | exact H2]).
    pose proof (IH _ Hm2) as H3.
    replace (Zpos p~0) with (Zpos p + Zpos p) by lia.
    eapply shifted_trans; [lia | lia | exact Hm | exact H2 | exact H3].
  - apply shifted_one. exact Hm.
Qed.

Lemma fexp_64 (x : Z) : fexp prec emax x = Z.max (x - 53) (-1074).
Proof. reflexivity. Qed.

Lemma shr_m_of_loc (m : Z) (l : location) : shr_m (shr_record_of_loc m l) = m.
Proof. destruct l as [|[]]; reflexivity. Qed.

(** The shift that brings a mantissa to the precision of the format. *)
Lemma shr_fexp_spec (m e : Z) (l : location) :
  0 < m ->
  let e' := Z.max e (fexp prec emax (Zdigits2 m + e)) in
  exists mrs,
    shr_fexp prec emax m e l = (mrs, e') /\
    shr_m mrs = m / 2 ^ (e' - e) /\
    (e < e' -> shr_r mrs = Z.testbit m (e' - e - 1)).
Proof.
  intros Hm e'. unfold shr_fexp, shr.
  destruct (fexp prec emax (Zdigits2 m + e) - e) as [|p|p] eqn:En.
  - exists (shr_record_of_loc m l).
    replace e' with e by (unfold e'; lia).
    rewrite shr_m_of_loc, Z.sub_diag, Z.pow_0_r, Z.div_1_r.
    split; [reflexivity|]. split; [reflexivity | lia].
  - assert (H0 : 0 <= shr_m (shr_record_of_loc m l))
      by (rewrite shr_m_of_loc; lia).
    destruct (@iter_shr_1 p _ H0) as [Hs Hr].
    rewrite shr_m_of_loc in Hs, Hr.
    exists (iter_pos shr_1 p (shr_record_of_loc m l)).
    replace e' with (e + Zpos p) by (unfold e'; lia).
    replace (e + Zpos p - e) with (Zpos p) by lia.
    split; [reflexivity|]. split; [exact Hs|]. intros _. exact Hr.
  - exists (shr_record_of_loc m l).
    replace e' with e by (unfold e'; lia).
    rewrite shr_m_of_loc, Z.sub_diag, Z.pow_0_r, Z.div_1_r.
    split; [reflexivity|]. split; [reflexivity | lia].
Qed.

(** Rounding to nearest moves a mantissa up by at most one, and not at
    all when the rounding bit is clear. *)
Lemma round_nearest_even_bounds (m : Z) (l : location) :
  m <= round_nearest_even m l <= m + 1.
Proof.
  destruct l as [|[]]; cbn [round_nearest_even]; try lia.
  destruct (Z.even m); lia.
Qed.

Lemma round_nearest_even_down (mrs : shr_record) :
  shr_r mrs = false ->
  round_nearest_even (shr_m mrs) (loc_of_shr_record mrs) = shr_m mrs.
Proof. destruct mrs as [m [] []]; cbn; congruence. Qed.

(** Rounding a positive number [m * 2 ^ e]: if something of [m] is left
    at the precision of the format and the exponent stays below the
    largest one, the result is a positive finite number, whose exponent
    is the one of the format for [m] or, after a carry, the next. *)
Lemma binary_round_aux_pos (m e : Z) (l : location) :
  0 < m ->
  let e' := Z.max e (fexp prec emax (Zdigits2 m + e)) in
  e' - e < Zdigits2 m ->
  e' + 1 <= emax - prec ->
  exists m2 e2,
    binary_round_aux prec emax false m e l = S754_finite false m2 e2 /\
    e' <= e2 <= e' + 1 /\
    (m / 2 ^ (e' - e) + 1 < 2 ^ 53 -> e2 = e') /\
    (e < e' -> Z.testbit m (e' - e - 1) = false -> e2 = e').
Proof.
  intros Hm e' Hleft Hmax.
  destruct (@shr_fexp_spec m e l Hm) as [mrs [E1 [Hm' Hr]]].
  fold e' in E1, Hm', Hr.
  unfold binary_round_aux. rewrite E1.
  set (m1 := round_nearest_even (shr_m mrs) (loc_of_shr_record mrs)).
  assert (B1 : shr_m mrs <= m1 <= shr_m mrs + 1)
    by apply round_nearest_even_bounds.
  destruct (@Zdigits2_spec m Hm) as [Hd [Hlo Hhi]].
  assert (He' : e <= e' /\ Zdigits2 m + e - 53 <= e' /\ -1074 <= e')
    by (unfold e'; rewrite fexp_64; lia).
  assert (Hpow : 0 < 2 ^ (e' - e)) by (apply Z.pow_pos_nonneg; lia).
  assert (Hm'lo : 0 < shr_m mrs).
  { rewrite Hm'. apply Z.div_str_pos. split; [exact Hpow|].
    apply Z.le_trans with (2 ^ (Zdigits2 m - 1)); [|exact Hlo].
    apply Z.pow_le_mono_r; lia. }
  assert (Hm'hi : shr_m mrs < 2 ^ 53).
  { rewrite Hm'. apply Z.div_lt_upper_bound; [exact Hpow|].
    rewrite <- Z.pow_add_r by lia.
    apply Z.lt_le_trans with (2 ^ Zdigits2 m); [exact Hhi|].
    apply Z.pow_le_mono_r; lia. }
  assert (Hm1 : 0 < m1) by lia.
  destruct (@shr_fexp_spec m1 e' loc_Exact Hm1) as [mrs2 [E2 [Hm2 _]]].
  rewrite E2, Hm2.
  set (e2 := Z.max e' (fexp prec emax (Zdigits2 m1 + e'))) in *.
  destruct (@Zdigits2_spec m1 Hm1) as [Hd1 [Hlo1 Hhi1]].
  assert (Hd1' : Zdigits2 m1 <= 54).
  { apply Zdigits2_le; [exact Hm1|]. change (2 ^ 54) with (2 * 2 ^ 53). lia. }
  assert (He2 : e' <= e2 <= e' + 1) by (unfold e2; rewrite fexp_64; lia).
  assert (Htight : m1 < 2 ^ 53 -> e2 = e').
  { intros H. assert (Zdigits2 m1 <= 53) by (apply Zdigits2_le; assumption).
    unfold e2. rewrite fexp_64. lia. }
  assert (Hq : 0 < m1 / 2 ^ (e2 - e')).
  { apply Z.div_str_pos.
    destruct (Z.eq_dec e2 e') as [-> | Hne].
    - rewrite Z.sub_diag. simpl. lia.
    - replace (e2 - e') with 1 by lia. simpl (2 ^ 1).
      assert (53 < Zdigits2 m1) by (unfold e2 in *; rewrite fexp_64 in *; lia).
      assert (2 ^ 53 <= 2 ^ (Zdigits2 m1 - 1))
        by (apply Z.pow_le_mono_r; lia).
      change (2 ^ 53) with 9007199254740992 in *. lia. }
  destruct (m1 / 2 ^ (e2 - e')) as [|q|q] eqn:Eq; try lia.
  exists q, e2.
  replace (e2 <=? emax - prec) with true by (symmetry; apply Z.leb_le; lia).
  split; [reflexivity|]. split; [exact He2|]. split.
  - intros H. apply Htight. rewrite <- Hm' in H. lia.
  - intros Hlt Hbit. apply Htight.
    unfold m1. rewrite round_nearest_even_down; [exact Hm'hi|].
    rewrite Hr by exact Hlt. exact Hbit.
Qed.

(** A valid finite number above the smallest exponent has a full
    mantissa. *)
Lemma valid_normal (s : bool) (m : positive) (e : Z) :
  valid_binary (S754_finite s m e) = true -> -1074 < e ->
  Zpos (digits2_pos m) = 53 /\ e <= 971.
Proof.
  unfold valid_binary, SpecFloat.valid_binary, bounded, canonical_mantissa.
  rewrite andb_true_iff, Z.eqb_eq, Z.leb_le, fexp_64.
  change (emax - prec) with 971. lia.
Qed.

Lemma iter_xO (p d : positive) :
  Zpos (Pos.iter xO p d) = Zpos p * 2 ^ Zpos d.
Proof.
  induction d as [|d IH] using Pos.peano_ind.
  - simpl. lia.
  - rewrite Pos.iter_succ, Pos2Z.inj_succ, Z.pow_succ_r by lia.
    rewrite Pos2Z.inj_xO, IH. lia.
Qed.

(** Alignment of a mantissa to a smaller exponent. *)
Lemma shl_align_spec (mx : positive) (ex ez : Z) :
  ez <= ex ->
  Zpos (fst (shl_align mx ex ez)) = Zpos mx * 2 ^ (ex - ez) /\
  ez = snd (shl_align mx ex ez).
Proof.
  intros Hle. unfold shl_align.
  destruct (ez - ex) as [|d|d] eqn:Ed; try lia.
  - cbn [fst snd]. replace (ex - ez) with 0 by lia. simpl. lia.
  - cbn [fst snd]. rewrite iter_xO. replace (ex - ez) with (Zpos d) by lia.
    split; reflexivity.
Qed.

Lemma shl_align_none (mx : positive) (ex ez : Z) :
  ex <= ez -> shl_align mx ex ez = (mx, ex).
Proof.
  intros Hle. unfold shl_align. destruct (ez - ex) eqn:Ed; try reflexivity.
  lia.
Qed.

(** A mantissa of at least the precision is rounded as it is. *)
Lemma binary_round_wide (p : positive) (e : Z) :
  53 <= Zpos (digits2_pos p) ->
  binary_round prec emax false p e
  = binary_round_aux prec emax false (Zpos p) e loc_Exact.
Proof.
  intros Hd. unfold binary_round. rewrite shl_align_none; [reflexivity|].
  rewrite fexp_64. lia.
Qed.

(** [float(n)] for a positive [n] of a machine word: at least one. *)
Lemma binary_normalize_pos (p : positive) :
  Zpos p < 2 ^ 63 ->
  exists m e,
    binary_normalize prec emax (Zpos p) 0 false = S754_finite false m e /\
    -52 <= e.
Proof.
  intros Hp. cbn [binary_normalize].
  destruct (digits2_pos_spec p) as [Hlo Hhi].
  assert (Hd : Zpos (digits2_pos p) <= 63)
    by (apply (@Zdigits2_le (Zpos p)); lia).
  destruct (Z_le_gt_dec 53 (Zpos (digits2_pos p))) as [Hwide | Hnarrow].
  - rewrite binary_round_wide by exact Hwide.
    destruct (@binary_round_aux_pos (Zpos p) 0 loc_Exact)
      as [m2 [e2 [E [He2 _]]]].
    + lia.
    + cbn [Zdigits2]. rewrite fexp_64. lia.
    + cbn [Zdigits2]. rewrite fexp_64. change (emax - prec) with 971. lia.
    + exists m2, e2. split; [exact E|].
      cbn [Zdigits2] in He2. rewrite fexp_64 in He2. lia.
  - unfold binary_round.
    set (ez := fexp prec emax (Zpos (digits2_pos p) + 0)).
    assert (Hez : ez = Zpos (digits2_pos p) - 53)
      by (unfold ez; rewrite fexp_64; lia).
    destruct (@shl_align_spec p 0 ez) as [Hm He]; [lia|].
    destruct (shl_align p 0 ez) as [mz ez'] eqn:Es.
    cbn [fst snd] in Hm, He. subst ez'.
    assert (Hmz : 2 ^ 52 <= Zpos mz < 2 ^ 53).
    { rewrite Hm.
      replace 52 with (Zpos (digits2_pos p) - 1 + (0 - ez)) by lia.
      replace 53 with (Zpos (digits2_pos p) + (0 - ez)) by lia.
      rewrite !Z.pow_add_r by lia.
      assert (0 < 2 ^ (0 - ez)) by (apply Z.pow_pos_nonneg; lia).
      nia. }
    assert (Hdz : Zdigits2 (Zpos mz) = 53).
    { apply Z.le_antisymm.
      - apply Zdigits2_le; lia.
      - assert (52 < Zdigits2 (Zpos mz)) by (apply Zdigits2_gt; lia). lia. }
    destruct (@binary_round_aux_pos (Zpos mz) ez loc_Exact)
      as [m2 [e2 [E [He2 _]]]].
    + lia.
    + rewrite Hdz, fexp_64. lia.
    + rewrite Hdz, fexp_64. change (emax - prec) with 971. lia.
    + exists m2, e2. split; [exact E|].
      rewrite Hdz, fexp_64 in He2. lia.
Qed.

Lemma float_of_nat_finite (n : nat) :
  0 < Z.of_nat n < 2 ^ 63 ->
  exists m e,
    Prim2SF (float_of_nat n) = S754_finite false m e /\
    -52 <= e <= 971 /\ Zpos (digits2_pos m) = 53.
Proof.
  intros Hn. unfold float_of_nat.
  pose proof (Prim2SF_valid
                (of_uint63 (Uint63.of_Z (Z.of_nat n)))) as Hvalid.
  rewrite of_uint63_spec, Uint63.of_Z_spec in *.
  rewrite Z.mod_small in * by (change wB with (2 ^ 63); lia).
  destruct (Z.of_nat n) as [|p|p]; try lia.
  destruct (@binary_normalize_pos p) as [m [e [E He]]]; [lia|].
  rewrite E in *. exists m, e. split; [reflexivity|].
  destruct (@valid_normal false m e Hvalid); lia.
Qed.

Lemma full_mantissa (m : positive) :
  Zpos (digits2_pos m) = 53 -> 2 ^ 52 <= Zpos m < 2 ^ 53.
Proof.
  intros H. pose proof (digits2_pos_spec m) as B. rewrite H in B. exact B.
Qed.

(** The sum of a number below [2 ^ 61] and a number below [2 ^ 7], both
    with full mantissas and aligned to the exponent [ez], rounds to a
    number with an exponent of at most 8: below [2 ^ 60] the sum stays
    below [2 ^ 60 + 2 ^ 7], and from [2 ^ 60] on the smaller number is
    less than half a unit in the last place of the larger one. *)
Lemma binary_round_sum (mx my nx ny ez : Z) :
  2 ^ 52 <= mx < 2 ^ 53 -> 2 ^ 52 <= my < 2 ^ 53 ->
  0 <= nx -> 0 <= ny -> nx = 0 \/ ny = 0 ->
  -49 <= ez -> ez + nx <= 8 -> ez + ny <= -46 ->
  exists m e,
    binary_round_aux prec emax false (mx * 2 ^ nx + my * 2 ^ ny) ez loc_Exact
    = S754_finite false m e /\
    -49 <= e <= 8.
Proof.
  intros Hx Hy Hnx Hny Hn Hez Hex Hey.
  set (M := mx * 2 ^ nx + my * 2 ^ ny).
  set (W := 2 ^ (-46 - ez)).
  assert (HW : 0 < W) by (apply Z.pow_pos_nonneg; lia).
  assert (HA : 0 < 2 ^ nx) by (apply Z.pow_pos_nonneg; lia).
  assert (HB : 0 < 2 ^ ny <= W).
  { split; [apply Z.pow_pos_nonneg; lia|]. apply Z.pow_le_mono_r; lia. }
  assert (H54 : 2 ^ (8 - ez) = 2 ^ 54 * W).
  { unfold W. rewrite <- Z.pow_add_r by lia. f_equal. lia. }
  assert (H107 : 2 ^ (61 - ez) = 2 ^ 107 * W).
  { unfold W. rewrite <- Z.pow_add_r by lia. f_equal. lia. }
  assert (HA8 : 2 ^ nx <= 2 ^ 54 * W).
  { rewrite <- H54. apply Z.pow_le_mono_r; lia. }
  change (2 ^ 52) with 4503599627370496 in *.
  change (2 ^ 53) with 9007199254740992 in *.
  change (2 ^ 54) with 18014398509481984 in *.
  change (2 ^ 107) with 162259276829213363391578010288128 in *.
  assert (Hlo : 4503599627370496 <= M) by (unfold M; nia).
  assert (Hhi : M < 2 ^ (61 - ez) + 9007199254740992 * W).
  { rewrite H107. unfold M. nia. }
  assert (HM : 0 < M) by lia.
  assert (Hd53 : 52 < Zdigits2 M)
    by (apply Zdigits2_gt; [lia|]; change (2 ^ 52) with 4503599627370496; lia).
  assert (Hd62 : Zdigits2 M <= 62 - ez).
  { apply Zdigits2_le; [exact HM|].
    replace (62 - ez) with (Z.succ (61 - ez)) by lia.
    rewrite Z.pow_succ_r by lia. rewrite H107 in *. lia. }
  destruct (@binary_round_aux_pos M ez loc_Exact HM)
    as [m [e [E [He [Hcarry Hbit]]]]].
  { rewrite fexp_64. lia. }
  { rewrite fexp_64. change (emax - prec) with 971. lia. }
  exists m, e. split; [exact E|].
  rewrite fexp_64 in He, Hcarry, Hbit.
  replace (Z.max ez (Z.max (Zdigits2 M + ez - 53) (-1074)))
    with (Zdigits2 M + ez - 53) in * by lia.
  split; [lia|].
  destruct (Z_le_gt_dec (Zdigits2 M + ez - 53) 7) as [|Hbig]; [lia|].
  destruct (Z_le_gt_dec (ez + nx) 7) as [Hsmall | Hlarge].
  - (* below 2 ^ 60: the mantissa of the sum has room for the carry *)
    assert (HA7 : 2 * 2 ^ nx <= 18014398509481984 * W).
    { rewrite <- H54. replace (8 - ez) with (Z.succ (7 - ez)) by lia.
      rewrite Z.pow_succ_r by lia.
      assert (2 ^ nx <= 2 ^ (7 - ez)) by (apply Z.pow_le_mono_r; lia). lia. }
    assert (HM60 : M < 2 ^ (61 - ez)) by (rewrite H107; unfold M; nia).
    assert (Zdigits2 M <= 61 - ez) by (apply Zdigits2_le; assumption).
    assert (Hd : Zdigits2 M + ez - 53 = 8) by lia.
    rewrite Hcarry; [lia|]. rewrite Hd, H54.
    assert (M / (18014398509481984 * W) < 4503599627370497).
    { apply Z.div_lt_upper_bound; [lia|]. unfold M. nia. }
    lia.
  - (* from 2 ^ 60 on: the smaller number is rounded away *)
    assert (Hnx8 : nx = 8 - ez) by lia.
    assert (Hny0 : ny = 0) by lia.
    assert (HMeq : M = mx * (18014398509481984 * W) + my).
    { unfold M. rewrite Hnx8, Hny0, H54. simpl (2 ^ 0). lia. }
    assert (HW1 : 1 <= W) by lia.
    assert (HM61 : M < 2 ^ (61 - ez)) by (rewrite H107, HMeq; nia).
    assert (Zdigits2 M <= 61 - ez) by (apply Zdigits2_le; assumption).
    assert (Hd : Zdigits2 M + ez - 53 = 8) by lia.
    rewrite Hbit; [lia | lia |]. rewrite Hd.
    apply Z.testbit_false; [lia|].
    assert (Hhalf : 2 ^ (8 - ez - 1) = 9007199254740992 * W).
    { unfold W. change 9007199254740992 with (2 ^ 53).
      rewrite <- Z.pow_add_r by lia. f_equal. lia. }
    rewrite Hhalf.
    replace (M / (9007199254740992 * W)) with (2 * mx).
    + rewrite Z.mul_comm. apply Z.mod_mul. lia.
    + apply Z.div_unique with my; [left; nia | rewrite HMeq; lia].
Qed.

(** Adding a number below [2 ^ 7] to one below [2 ^ 61]. *)
Lemma SFadd_bounded (mx my : positive) (ex ey : Z) :
  Zpos (digits2_pos mx) = 53 -> Zpos (digits2_pos my) = 53 ->
  -49 <= ex <= 8 -> -49 <= ey <= -46 ->
  exists m e,
    SFadd prec emax (S754_finite false mx ex) (S754_finite false my ey)
    = S754_finite false m e /\
    -49 <= e <= 8.
Proof.
  intros Hdx Hdy Hex Hey.
  pose proof (full_mantissa mx Hdx) as Hx.
  pose proof (full_mantissa my Hdy) as Hy.
  cbn [SFadd cond_Zopp]. set (ez := Z.min ex ey).
  destruct (@shl_align_spec mx ex ez) as [Ha _]; [unfold ez; lia|].
  destruct (@shl_align_spec my ey ez) as [Hb _]; [unfold ez; lia|].
  set (a := fst (shl_align mx ex ez)) in *.
  set (b := fst (shl_align my ey ez)) in *.
  cbn [Z.add binary_normalize].
  assert (HA : 1 <= 2 ^ (ex - ez))
    by (pose proof (Z.pow_pos_nonneg 2 (ex - ez)); unfold ez in *; lia).
  assert (HB : 1 <= 2 ^ (ey - ez))
    by (pose proof (Z.pow_pos_nonneg 2 (ey - ez)); unfold ez in *; lia).
  assert (Hsum : Zpos (a + b)
                 = Zpos mx * 2 ^ (ex - ez) + Zpos my * 2 ^ (ey - ez))
    by (rewrite Pos2Z.inj_add, Ha, Hb; reflexivity).
  rewrite binary_round_wide.
  - rewrite Hsum. apply binary_round_sum; unfold ez; lia.
  - assert (52 < Zdigits2 (Zpos (a + b))).
    { apply Zdigits2_gt; [lia|]. rewrite Hsum. nia. }
    cbn [Zdigits2] in H. lia.
Qed.

(** Dividing a number below [2 ^ 61] by a number that is at least one. *)
Lemma SFdiv_finite (mx my : positive) (ex ey : Z) :
  Zpos (digits2_pos mx) = 53 -> Zpos (digits2_pos my) = 53 ->
  -49 <= ex <= 8 -> -52 <= ey <= 971 ->
  exists m e,
    SFdiv prec emax (S754_finite false mx ex) (S754_finite false my ey)
    = S754_finite false m e.
Proof.
  intros Hdx Hdy Hex Hey.
  pose proof (full_mantissa mx Hdx) as Hx.
  pose proof (full_mantissa my Hdy) as Hy.
  cbn [SFdiv xorb]. unfold SFdiv_core_binary. cbn [Zdigits2].
  rewrite Hdx, Hdy, fexp_64.
  replace (Z.min (Z.max (53 + ex - (53 + ey) - 53) (-1074)) (ex - ey))
    with (ex - ey - 53) by lia.
  replace (ex - ey - (ex - ey - 53)) with 53 by lia.
  cbv beta iota. rewrite Z.shiftl_mul_pow2 by lia.
  pose proof (Z_div_mod (Zpos mx * 2 ^ 53) (Zpos my) ltac:(lia)) as Hdiv.
  destruct (Z.div_eucl (Zpos mx * 2 ^ 53) (Zpos my)) as [q r].
  change (2 ^ 52) with 4503599627370496 in *.
  change (2 ^ 53) with 9007199254740992 in *.
  assert (Hq : 4503599627370496 <= q < 18014398509481984) by nia.
  assert (Hd53 : 52 < Zdigits2 q)
    by (apply Zdigits2_gt; [lia|]; change (2 ^ 52) with 4503599627370496; lia).
  assert (Hd54 : Zdigits2 q <= 54)
    by (apply Zdigits2_le; [lia|];
        change (2 ^ 54) with 18014398509481984; lia).
  destruct (@binary_round_aux_pos q (ex - ey - 53)
              (new_location (Zpos my) r))
    as [m [e [E _]]].
  - lia.
  - rewrite fexp_64. lia.
  - rewrite fexp_64. change (emax - prec) with 971. lia.
  - exists m, e. exact E.
Qed.

End FloatFacts.


(** ** The consensus level *)

Module ConsensusFacts.
Import Py PyFacts PyNum Deliberation ScoreFacts FloatFacts.

(** A total or a score: zero, or a positive number with an exponent
    between [lo] and [hi]. *)
Definition in_range (lo hi : Z) (x : float) : bool :=
  match Prim2SF x with
  | S754_zero false => true
  | S754_finite false _ e => ((lo <=? e) && (e <=? hi))%Z
  | _ => false
  end.

(** A score is zero or lies between 8 and 128. *)
Definition score_in_range (a d : nat) : bool :=
  match score_of_counts a d with
  | Some score => in_range (-49) (-46) score
  | None => true
  end.

Lemma scores_in_range (a d : nat) :
  a <= 6 -> d <= 6 -> score_in_range a d = true.
Proof.
  intros Ha Hd.
  assert (H : forallb (fun a => forallb (score_in_range a) (List.seq 0 7))
                (List.seq 0 7) = true) by (vm_compute; reflexivity).
  rewrite forallb_forall in H.
  specialize (H a ltac:(apply in_seq; lia)).
  rewrite forallb_forall in H. apply H. apply in_seq. lia.
Qed.

Lemma argument_score_in_range (argument : text) (score : float) :
  argument_score argument = Some score -> in_range (-49) (-46) score = true.
Proof.
  rewrite argument_score_counts. intros E.
  pose proof (scores_in_range (agreement_count_le (lower argument))
                (disagreement_count_le (lower argument))) as H.
  unfold score_in_range in H. rewrite E in H. exact H.
Qed.

(** The total stays below [2 ^ 61] whatever the number of scores. *)
Lemma add_in_range (total score : float) :
  in_range (-49) 8 total = true -> in_range (-49) (-46) score = true ->
  in_range (-49) 8 (total + score) = true.
Proof.
  unfold in_range. rewrite FloatAxioms.add_spec.
  pose proof (Prim2SF_valid total) as Vx.
  pose proof (Prim2SF_valid score) as Vy.
  destruct (Prim2SF total) as [[|] | | | [|] mx ex]; try discriminate;
    destruct (Prim2SF score) as [[|] | | | [|] my ey]; try discriminate;
    intros Hx Hy.
  - reflexivity.
  - cbn [SF64add SFadd].
    apply andb_true_iff in Hy. rewrite !Z.leb_le in Hy.
    apply andb_true_iff. rewrite !Z.leb_le. lia.
  - cbn [SF64add SFadd]. exact Hx.
  - apply andb_true_iff in Hx, Hy. rewrite !Z.leb_le in Hx, Hy.
    destruct (@valid_normal false mx ex Vx) as [Hdx _]; [lia|].
    destruct (@valid_normal false my ey Vy) as [Hdy _]; [lia|].
    destruct (@SFadd_bounded mx my ex ey Hdx Hdy) as [m [e [E He]]];
      [lia | lia |].
    unfold SF64add. rewrite E.
    apply andb_true_iff. rewrite !Z.leb_le. lia.
Qed.

Lemma total_score_from (arguments : list text) (total : float) :
  in_range (-49) 8 total = true ->
  in_range (-49) 8
    (fold_left
       (fun total argument =>
          match argument_score argument with
          | Some score => (total + score)%float
          | None => total
          end)
       arguments total) = true.
Proof.
  revert total. induction arguments as [|a arguments IH]; intros total H.
  - exact H.
  - cbn [fold_left]. apply IH.
    destruct (argument_score a) as [score|] eqn:E; [|exact H].
    apply add_in_range; [exact H|].
    apply (argument_score_in_range a). exact E.
Qed.

Lemma total_score_in_range (arguments : list text) :
  in_range (-49) 8 (total_score arguments) = true.
Proof. apply total_score_from. reflexivity. Qed.

(** The mean is a number, not an infinity and not a NaN. *)
Lemma mean_is_int (total : float) (n : nat) :
  in_range (-49) 8 total = true ->
  (0 < Z.of_nat n < 2 ^ 63)%Z ->
  exists z, int_of_float (total / float_of_nat n) = Some z.
Proof.
  intros Hx Hn. unfold in_range in Hx. unfold int_of_float.
  rewrite FloatAxioms.div_spec.
  destruct (float_of_nat_finite n Hn) as [my [ey [Ey [Hey Hdy]]]].
  rewrite Ey.
  pose proof (Prim2SF_valid total) as Vx.
  destruct (Prim2SF total) as [[|] | | | [|] mx ex]; try discriminate.
  - cbn. eauto.
  - apply andb_true_iff in Hx. rewrite !Z.leb_le in Hx.
    destruct (@valid_normal false mx ex Vx) as [Hdx _]; [lia|].
    destruct (@SFdiv_finite mx my ex ey Hdx Hdy) as [m [e E]];
      [lia | lia |].
    unfold SF64div. rewrite E. eauto.
Qed.

(** C8.  For a round in which at least one argument was made (and fewer
    than [2 ^ 63], which is every Python dictionary), the consensus
    assessment returns an integer, and it lies between 0 and 100. *)
Theorem consensus_level_in_range (round_arguments : dict text) :
  round_arguments <> [] ->
  (Z.of_nat (length round_arguments) < 2 ^ 63)%Z ->
  exists consensus_level,
    _assess_consensus round_arguments = Some consensus_level /\
    (0 <= consensus_level <= 100)%Z.
Proof.
  intros Hne Hlen. unfold _assess_consensus.
  destruct round_arguments as [|kv rest] eqn:E; [congruence|].
  rewrite <- E in *.
  destruct (@mean_is_int (total_score (dict_values round_arguments))
              (length round_arguments)) as [z Hz].
  - apply total_score_in_range.
  - rewrite E in *. cbn [length] in *. lia.
  - rewrite Hz. eexists. split; [reflexivity | lia].
Qed.

(** The theorem at a round of three arguments: two in favour, one
    against, the level 66. *)
Lemma consensus_level_in_range_witness :
  _assess_consensus
    [ (str "economic", str "I agree with the proposal.");
      (str "social", str "We support it.");
      (str "legal", str "I oppose it.") ] = Some 66%Z /\
  exists consensus_level,
    _assess_consensus
      [ (str "economic", str "I agree with the proposal.");
        (str "social", str "We support it.");
        (str "legal", str "I oppose it.") ] = Some consensus_level /\
    (0 <= consensus_level <= 100)%Z.
Proof.
  split; [vm_compute; reflexivity|].
  apply (@consensus_level_in_range
           [ (str "economic", str "I agree with the proposal.");
             (str "social", str "We support it.");
             (str "legal", str "I oppose it.") ]).
  - discriminate.
  - reflexivity.
Defined.

End ConsensusFacts.


(** ** Matches across the pieces of a text

    The fallback response is a fixed text with the role and the topic
    put in.  Whether a pattern is found in it is decided here from what
    is known of the two: the threads of a search, that is the derivatives
    of the pattern by the suffixes of the text read so far, are followed
    through the fixed pieces, and through a piece that is not known they
    stay within the derivatives of the pattern. *)

Module TemplateFacts.
Import Py PyFacts Re OutputValidator Notions ReFacts.

Lemma run_app (d : re) (a b : text) : run d (a ++ b) = run (run d a) b.
Proof. unfold run. apply fold_left_app. Qed.

Lemma run_Nul (s : text) : run Nul s = Nul.
Proof. induction s as [|c s IH]; [reflexivity | exact IH]. Qed.

Lemma nullable_run (r : re) (w : text) :
  nullable (run r w) = true <-> Matches r w.
Proof. rewrite nullable_spec, run_spec, app_nil_r. tauto. Qed.

Definition is_Nul (d : re) : bool :=
  match d with Nul => true | _ => false end.

Definition mem (d : re) (ds : list re) : bool := existsb (re_eqb d) ds.

Lemma mem_In (d : re) (ds : list re) : mem d ds = true -> In d ds.
Proof.
  unfold mem. rewrite existsb_exists. intros [x [Hin E]].
  apply re_eqb_eq in E. subst. exact Hin.
Qed.

Lemma is_Nul_eq (d : re) : is_Nul d = true -> d = Nul.
Proof. destruct d; simpl; congruence. Qed.

Definition all_chars : list ascii := map ascii_of_nat (List.seq 0 256).

Lemma In_all_chars (c : ascii) : In c all_chars.
Proof.
  rewrite <- (ascii_nat_embedding c). apply in_map. apply in_seq.
  pose proof (nat_ascii_bounded c). lia.
Qed.

(** [ds] holds every derivative of its elements that is not [Nul]. *)
Definition closed (ds : list re) : bool :=
  forallb
    (fun d =>
       forallb (fun c => is_Nul (deriv c d) || mem (deriv c d) ds) all_chars)
    ds.

Lemma closed_run (ds : list re) :
  closed ds = true ->
  forall w d, In d ds -> run d w = Nul \/ In (run d w) ds.
Proof.
  intros Hc. unfold closed in Hc. rewrite forallb_forall in Hc.
  induction w as [|c w IH]; intros d Hd; [right; exact Hd|].
  change (run d (c :: w)) with (run (deriv c d) w).
  specialize (Hc d Hd). rewrite forallb_forall in Hc.
  specialize (Hc c (In_all_chars c)). apply orb_true_iff in Hc.
  destruct Hc as [Hn | Hm].
  - apply is_Nul_eq in Hn. rewrite Hn, run_Nul. left. reflexivity.
  - apply IH. apply mem_In. exact Hm.
Qed.

(** The derivatives of [r]: those of the elements of [seen] from the
    [i]-th on are added until nothing new comes. *)
Definition add (d : re) (seen : list re) : list re :=
  if is_Nul d || mem d seen then seen else seen ++ [d].

Fixpoint reach (fuel : nat) (seen : list re) (i : nat) : list re :=
  match fuel with
  | 0 => seen
  | S fuel' =>
      match nth_error seen i with
      | None => seen
      | Some d =>
          reach fuel'
            (fold_left (fun acc c => add (deriv c d) acc) all_chars seen)
            (S i)
      end
  end.

Definition derivatives (r : re) : list re := reach 100 [r] 0.

(** The threads of a search for [r] that are alive after [read]: every
    derivative of [r] by a suffix of [read] is [Nul] or in [alive]. *)
Definition threads (r : re) (read : text) (alive : list re) : Prop :=
  forall before suffix,
    read = before ++ suffix -> run r suffix = Nul \/ In (run r suffix) alive.

Definition live (ds : list re) : list re :=
  filter (fun d => negb (is_Nul d || nullable d)) ds.

Fixpoint tails (s : text) : list text :=
  s :: match s with [] => [] | _ :: s' => tails s' end.

Lemma In_tails (a b : text) : In b (tails (a ++ b)).
Proof.
  induction a as [|c a IH]; simpl.
  - destruct b; left; reflexivity.
  - right. exact IH.
Qed.

(** The threads after a fixed piece: those that were alive before it,
    and those that start in it. *)
Definition step (r : re) (alive : list re) (fixed : text) : list re :=
  map (fun d => run d fixed) alive ++ map (run r) (tails fixed).

Lemma threads_nil (r : re) : threads r [] [r].
Proof.
  intros before suffix E. symmetry in E. apply app_eq_nil in E.
  destruct E as [_ ->]. right. left. reflexivity.
Qed.

Lemma threads_step (r : re) (read fixed : text) (alive : list re) :
  threads r read alive -> threads r (read ++ fixed) (step r alive fixed).
Proof.
  intros H before suffix E. apply app_eq_app in E.
  destruct E as [l [[-> ->] | [-> ->]]].
  - rewrite run_app. destruct (H before l eq_refl) as [-> | Hin].
    + left. apply run_Nul.
    + right. apply in_or_app. left.
      apply (in_map (fun d => run d fixed)). exact Hin.
  - right. apply in_or_app. right. apply in_map. apply In_tails.
Qed.

Lemma threads_closed (r : re) (ds : list re) (read : text) :
  closed ds = true -> In r ds -> threads r read ds.
Proof. intros Hc Hr before suffix _. apply closed_run; assumption. Qed.

Lemma threads_live (r : re) (read : text) (alive : list re) :
  threads r read alive -> search r read = false ->
  threads r read (live alive).
Proof.
  intros H Hs before suffix E. destruct (H before suffix E) as [Hn | Hin];
    [left; exact Hn|].
  destruct (is_Nul (run r suffix)) eqn:En; [left; apply is_Nul_eq; exact En|].
  right. unfold live. apply filter_In. split; [exact Hin|].
  rewrite En. cbn [orb]. destruct (nullable (run r suffix)) eqn:Enull;
    [|reflexivity].
  exfalso. apply search_false in Hs. apply Hs.
  exists before, suffix, []. rewrite app_nil_r. split; [exact E|].
  apply nullable_run. exact Enull.
Qed.

(** A match in a text of two parts lies in the first, in the second, or
    across the two. *)
Lemma found_app (r : re) (read piece : text) :
  found r (read ++ piece) ->
  found r read \/ found r piece \/
  exists before a b after,
    read = before ++ a /\ piece = b ++ after /\ Matches r (a ++ b).
Proof.
  intros [pre [mid [post [E HM]]]]. apply app_eq_app in E.
  destruct E as [l [[-> E] | [-> ->]]].
  - symmetry in E. apply app_eq_app in E.
    destruct E as [l' [[-> ->] | [-> ->]]].
    + left. exists pre, mid, l'. auto.
    + right. right. exists pre, l, l', post. auto.
  - right. left. exists l, mid, post. auto.
Qed.

Lemma found_prefix (r : re) (a b : text) : found r a -> found r (a ++ b).
Proof.
  intros [pre [mid [post [-> HM]]]]. exists pre, mid, (post ++ b).
  rewrite <- !app_assoc. auto.
Qed.

Lemma search_prefix (r : re) (a b : text) :
  search r (a ++ b) = false -> search r a = false.
Proof.
  rewrite !search_false. intros H Hf. apply H. apply found_prefix. exact Hf.
Qed.

(** No thread that is alive matches in the fixed piece, and no match
    starts in it. *)
Definition check_fixed (r : re) (alive : list re) (fixed : text) : bool :=
  forallb (fun d => negb (match_here d fixed)) alive && negb (search r fixed).

Lemma clean_fixed (r : re) (read fixed : text) (alive : list re) :
  threads r read alive -> search r read = false ->
  check_fixed r alive fixed = true ->
  search r (read ++ fixed) = false.
Proof.
  intros Ht Hs Hc. unfold check_fixed in Hc. apply andb_true_iff in Hc.
  destruct Hc as [Halive Hfixed]. rewrite forallb_forall in Halive.
  apply negb_true_iff in Hfixed. rewrite search_false in *.
  intros Hf. apply found_app in Hf.
  destruct Hf as [Hf | [Hf | [before [a [b [after [-> [-> HM]]]]]]]];
    [tauto | tauto |].
  apply run_spec in HM.
  destruct (Ht before a eq_refl) as [Hn | Hin].
  - rewrite Hn in HM. inversion HM.
  - specialize (Halive _ Hin). apply negb_true_iff in Halive.
    assert (match_here (run r a) (b ++ after) = true)
      by (apply match_here_spec; exists b, after; auto).
    congruence.
Qed.

(** Before a piece that is not known only the thread that starts with it
    may be alive. *)
Lemma clean_any (r : re) (read piece : text) (alive : list re) :
  threads r read alive -> (forall d, In d alive -> d = r) ->
  search r read = false -> search r piece = false ->
  search r (read ++ piece) = false.
Proof.
  intros Ht Hr Hs Hp. rewrite search_false in *.
  intros Hf. apply found_app in Hf.
  destruct Hf as [Hf | [Hf | [before [a [b [after [-> [-> HM]]]]]]]];
    [tauto | tauto |].
  apply run_spec in HM.
  destruct (Ht before a eq_refl) as [Hn | Hin].
  - rewrite Hn in HM. inversion HM.
  - rewrite (Hr _ Hin) in HM. apply Hp. exists [], b, after. auto.
Qed.

(** *** Texts with fields *)

(** A piece of a text: fixed, or the value of a field followed by a
    fixed mark. *)
Inductive piece :=
| Fix (fixed : text)
| Field (i : nat) (mark : text).

Definition piece_text (env : nat -> text) (p : piece) : text :=
  match p with
  | Fix fixed => fixed
  | Field i mark => env i ++ mark
  end.

Definition render (env : nat -> text) (ps : list piece) : text :=
  concat (map (piece_text env) ps).

(** What is asked of the fields: no match in a field with its mark. *)
Definition premise (r : re) (env : nat -> text) (p : piece) : Prop :=
  match p with
  | Fix _ => True
  | Field i mark => search r (env i ++ mark) = false
  end.

(** The walk over the pieces.  [ds] holds the derivatives of [r]. *)
Fixpoint check (r : re) (ds alive : list re) (ps : list piece) : bool :=
  match ps with
  | [] => true
  | Fix fixed :: ps' =>
      check_fixed r alive fixed
      && check r ds (live (step r alive fixed)) ps'
  | Field _ mark :: ps' =>
      forallb (re_eqb r) alive && check r ds (live (step r ds mark)) ps'
  end.

Lemma check_sound (r : re) (ds : list re) (env : nat -> text) :
  closed ds = true -> In r ds ->
  forall ps read alive,
    threads r read alive -> search r read = false ->
    check r ds alive ps = true -> Forall (premise r env) ps ->
    search r (read ++ render env ps) = false.
Proof.
  intros Hc Hr. induction ps as [|p ps IH]; intros read alive Ht Hs Hk Hp.
  - unfold render. cbn [map concat]. rewrite app_nil_r. exact Hs.
  - inversion Hp as [|p' ps' Hp1 Hp2]; subst.
    unfold render. cbn [map concat]. fold (render env ps).
    rewrite app_assoc.
    destruct p as [fixed | i mark]; cbn [check piece_text premise] in *;
      apply andb_true_iff in Hk; destruct Hk as [Hk1 Hk2].
    + assert (Hclean : search r (read ++ fixed) = false)
        by (eapply clean_fixed; eauto).
      apply (IH _ (live (step r alive fixed))); auto.
      apply threads_live; [|exact Hclean]. apply threads_step. exact Ht.
    + assert (Hclean : search r (read ++ env i ++ mark) = false).
      { eapply clean_any; eauto. rewrite forallb_forall in Hk1.
        intros d Hd. symmetry. apply re_eqb_eq. auto. }
      apply (IH _ (live (step r ds mark))); auto.
      apply threads_live; [|exact Hclean]. rewrite app_assoc.
      apply threads_step. apply threads_closed; assumption.
Qed.

(** No match of [r] in a text of the shape [ps], whatever the fields. *)
Definition absent (r : re) (ps : list piece) : bool :=
  let ds := derivatives r in
  negb (nullable r) && closed ds && mem r ds && check r ds [r] ps.

Lemma absent_sound (r : re) (ps : list piece) (env : nat -> text) :
  absent r ps = true -> Forall (premise r env) ps ->
  search r (render env ps) = false.
Proof.
  unfold absent. cbv zeta. intros H Hp.
  apply andb_true_iff in H. destruct H as [H Hk].
  apply andb_true_iff in H. destruct H as [H Hm].
  apply andb_true_iff in H. destruct H as [Hn Hc].
  apply negb_true_iff in Hn.
  apply (@check_sound r (derivatives r) env Hc (mem_In _ _ Hm) ps [] [r]);
    auto.
  - apply threads_nil.
  - cbn [search match_here]. rewrite Hn. reflexivity.
Qed.

End TemplateFacts.


(** ** The fallback response before the validator *)

Module FallbackFacts.
Import Py PyFacts Re OutputValidator Notions ReFacts ValidatorFacts.
Import TemplateFacts.

(** A keyword as a pattern: its letters in either case. *)
Definition word_re (kw : text) : re :=
  fold_right (fun c r => Cat (Sym (Lit c)) r) Eps kw.

Lemma Matches_word_re (kw w : text) :
  Matches (word_re kw) w <-> lower w = lower kw.
Proof.
  revert w. induction kw as [|c kw IH]; intros w; cbn [word_re fold_right].
  - rewrite Matches_Eps. unfold lower. cbn [map]. split.
    + intros ->. reflexivity.
    + intros H. apply map_eq_nil in H. exact H.
  - fold (word_re kw). rewrite Matches_Cat. unfold lower in *. cbn [map].
    split.
    + intros [u [v [-> [Hu Hv]]]]. apply Matches_Sym in Hu.
      destruct Hu as [x [-> Hx]]. cbn [cset_match] in Hx.
      apply Ascii.eqb_eq in Hx. apply IH in Hv.
      cbn [app map]. rewrite Hx, Hv. reflexivity.
    + destruct w as [|x w]; cbn [map]; [discriminate|].
      intros H. injection H as Hx Hw.
      exists [x], w. split; [reflexivity|]. split.
      * apply Matches_Sym. exists x. split; [reflexivity|].
        cbn [cset_match]. apply Ascii.eqb_eq. exact Hx.
      * apply IH. exact Hw.
Qed.

(** A search for the keyword is the test [kw in s.lower()]. *)
Lemma search_word (kw s : text) :
  lower kw = kw -> search (word_re kw) s = contains kw (lower s).
Proof.
  intros Hkw. apply eq_true_iff_eq.
  rewrite search_spec, contains_lower. unfold found, occurs_lower.
  split; intros [pre [mid [post [E H]]]]; exists pre, mid, post;
    (split; [exact E|]).
  - apply Matches_word_re in H. congruence.
  - apply Matches_word_re. congruence.
Qed.

(** *** The shape of the fallback response *)

Definition fields (agent_role policy_topic : text) (i : nat) : text :=
  match i with 0 => agent_role | _ => policy_topic end.

(** The response with the role and the topic as fields. *)
Definition plain_shape : list piece :=
  [ Fix fallback_opening; Field 0 []; Fix fallback_heading;
    Field 1 []; Fix fallback_evidence; Field 1 [];
    Fix fallback_economic; Field 1 []; Fix fallback_closing ].

(** The same with the role read up to the colon of the heading. *)
Definition heading_mark : text := str " Analysis:".

Definition heading_shape : list piece :=
  [ Fix fallback_opening; Field 0 heading_mark; Fix (str " ");
    Field 1 []; Fix fallback_evidence; Field 1 [];
    Fix fallback_economic; Field 1 []; Fix fallback_closing ].

Lemma render_plain_shape (agent_role policy_topic : text) :
  render (fields agent_role policy_topic) plain_shape
  = create_fallback_response agent_role policy_topic.
Proof.
  unfold render, plain_shape, create_fallback_response.
  cbn [map concat piece_text fields]. rewrite !app_nil_r.
  rewrite <- ?app_assoc. reflexivity.
Qed.

Lemma render_heading_shape (agent_role policy_topic : text) :
  render (fields agent_role policy_topic) heading_shape
  = create_fallback_response agent_role policy_topic.
Proof.
  unfold render, heading_shape, create_fallback_response.
  cbn [map concat piece_text fields]. rewrite !app_nil_r.
  rewrite <- ?app_assoc. reflexivity.
Qed.

(** *** Code patterns *)

Definition class_pattern : pattern :=
  {| source := str "class\s+\w+\s*[:\(]";
     ast := seq [lit "class"; Plus (Sym Space); Plus (Sym Word);
                 Star (Sym Space); Sym (AnyOf (str ":("))] |}.

Lemma class_pattern_listed : In class_pattern CODE_PATTERNS.
Proof. do 4 right. left. reflexivity. Qed.

(** A pattern stays out of the response if it is out of the role and the
    topic; the class pattern, if it is out of the role with the colon. *)
Definition covered (p : pattern) : bool :=
  if absent (ast p) plain_shape then true
  else re_eqb (ast p) (ast class_pattern) && absent (ast p) heading_shape.

Lemma patterns_covered : forallb covered CODE_PATTERNS = true.
Proof. vm_compute. reflexivity. Qed.

Lemma no_pattern_in_fallback (agent_role policy_topic : text) :
  ~ has_code_pattern agent_role -> ~ has_code_pattern policy_topic ->
  ~ found (ast class_pattern) (agent_role ++ heading_mark) ->
  ~ has_code_pattern (create_fallback_response agent_role policy_topic).
Proof.
  intros Hrole Htopic Hclass [p [Hp Hf]].
  assert (Hr : search (ast p) agent_role = false).
  { apply search_false. intros H. apply Hrole. exists p. auto. }
  assert (Ht : search (ast p) policy_topic = false).
  { apply search_false. intros H. apply Htopic. exists p. auto. }
  pose proof patterns_covered as Hc. rewrite forallb_forall in Hc.
  specialize (Hc p Hp). unfold covered in Hc.
  apply search_spec in Hf.
  destruct (absent (ast p) plain_shape) eqn:Ea.
  - rewrite <- render_plain_shape in Hf.
    rewrite (@absent_sound (ast p) plain_shape
               (fields agent_role policy_topic) Ea) in Hf; [discriminate|].
    unfold plain_shape.
    repeat constructor; cbn [premise fields]; rewrite ?app_nil_r; assumption.
  - apply andb_true_iff in Hc. destruct Hc as [Heq Eh].
    apply re_eqb_eq in Heq.
    rewrite <- render_heading_shape in Hf.
    rewrite (@absent_sound (ast p) heading_shape
               (fields agent_role policy_topic) Eh) in Hf; [discriminate|].
    unfold heading_shape.
    repeat constructor; cbn [premise fields]; rewrite ?app_nil_r;
      try assumption.
    rewrite Heq. apply search_false. exact Hclass.
Qed.

(** *** Keywords *)

Definition implementation : text := str "implementation".

(** Of the code keywords the fixed text holds this one only. *)
Definition keyword_covered (kw : text) : bool :=
  if text_eqb kw implementation then true
  else text_eqb (lower kw) kw && absent (word_re kw) plain_shape.

Lemma keywords_covered : forallb keyword_covered CODE_KEYWORDS = true.
Proof. vm_compute. reflexivity. Qed.

Lemma keyword_in_fallback (agent_role policy_topic kw : text) :
  In kw CODE_KEYWORDS ->
  ~ mentions CODE_KEYWORDS agent_role ->
  ~ mentions CODE_KEYWORDS policy_topic ->
  contains kw (lower (create_fallback_response agent_role policy_topic))
  = true ->
  kw = implementation.
Proof.
  intros Hin Hrole Htopic Hc.
  pose proof keywords_covered as Hk. rewrite forallb_forall in Hk.
  specialize (Hk kw Hin). unfold keyword_covered in Hk.
  destruct (text_eqb kw implementation) eqn:E; [apply text_eqb_eq; exact E|].
  apply andb_true_iff in Hk. destruct Hk as [Hlow Ha].
  apply text_eqb_eq in Hlow.
  assert (Hr : search (word_re kw) agent_role = false).
  { rewrite search_word by exact Hlow.
    destruct (contains kw (lower agent_role)) eqn:Ec; [|reflexivity].
    exfalso. apply Hrole. exists kw. split; [exact Hin|].
    apply contains_lower. exact Ec. }
  assert (Ht : search (word_re kw) policy_topic = false).
  { rewrite search_word by exact Hlow.
    destruct (contains kw (lower policy_topic)) eqn:Ec; [|reflexivity].
    exfalso. apply Htopic. exists kw. split; [exact Hin|].
    apply contains_lower. exact Ec. }
  rewrite <- search_word in Hc by exact Hlow.
  rewrite <- render_plain_shape in Hc.
  rewrite (@absent_sound (word_re kw) plain_shape
             (fields agent_role policy_topic) Ha) in Hc; [discriminate|].
  unfold plain_shape.
  repeat constructor; cbn [premise fields]; rewrite ?app_nil_r; assumption.
Qed.

Lemma filter_length_mono (A : Type) (f g : A -> bool) (l : list A) :
  (forall x, In x l -> f x = true -> g x = true) ->
  length (filter f l) <= length (filter g l).
Proof.
  induction l as [|a l IH]; intros H; [reflexivity|]. cbn [filter].
  assert (IH' : length (filter f l) <= length (filter g l))
    by (apply IH; intros x Hx; apply H; right; exact Hx).
  destruct (f a) eqn:Ef.
  - rewrite (H a (or_introl eq_refl) Ef). cbn [length]. lia.
  - destruct (g a); cbn [length]; lia.
Qed.

Lemma code_keywords_in_fallback (agent_role policy_topic : text) :
  ~ mentions CODE_KEYWORDS agent_role ->
  ~ mentions CODE_KEYWORDS policy_topic ->
  code_keyword_count (create_fallback_response agent_role policy_topic) <= 1.
Proof.
  intros Hrole Htopic. unfold code_keyword_count, count_keywords.
  change 1 with (length (filter (text_eqb implementation) CODE_KEYWORDS)).
  apply filter_length_mono. intros kw Hin Hc.
  rewrite (@keyword_in_fallback agent_role policy_topic kw Hin Hrole Htopic Hc).
  apply text_eqb_refl.
Qed.

Lemma lower_app (a b : text) : lower (a ++ b) = lower a ++ lower b.
Proof. apply map_app. Qed.

(** The fixed text speaks of policy and of economic implications. *)
Lemma policy_keywords_in_fallback (agent_role policy_topic : text) :
  2 <= policy_keyword_count
         (create_fallback_response agent_role policy_topic).
Proof.
  unfold policy_keyword_count, count_keywords.
  set (s := lower (create_fallback_response agent_role policy_topic)).
  assert (H1 : contains (str "policy") s = true).
  { unfold s, create_fallback_response. rewrite !lower_app.
    do 4 apply contains_app_r. apply contains_app_l.
    vm_compute. reflexivity. }
  assert (H2 : contains (str "economic") s = true).
  { unfold s, create_fallback_response. rewrite !lower_app.
    do 6 apply contains_app_r. apply contains_app_l.
    vm_compute. reflexivity. }
  change 2 with
    (length (filter (fun kw => text_eqb kw (str "policy")
                               || text_eqb kw (str "economic"))
               policy_keywords)).
  apply filter_length_mono. intros kw _ Hkw.
  apply orb_true_iff in Hkw.
  destruct Hkw as [E | E]; apply text_eqb_eq in E; subst kw; assumption.
Qed.

Lemma fallback_length (agent_role policy_topic : text) :
  50 <= length (create_fallback_response agent_role policy_topic).
Proof.
  unfold create_fallback_response. rewrite !length_app.
  assert (50 <= length fallback_closing) by (vm_compute; lia).
  lia.
Qed.

(** A role that is free of code patterns and keywords, a topic that is
    too, and a fallback response that the validator rejects: the heading
    reads as the head of a class definition. *)
Lemma fallback_rejected_counterexample :
  let agent_role := str "Working Class" in
  let policy_topic := str "Housing" in
  ~ has_code_pattern agent_role /\ ~ has_code_pattern policy_topic /\
  ~ mentions CODE_KEYWORDS agent_role /\
  ~ mentions CODE_KEYWORDS policy_topic /\
  is_valid_policy_output (create_fallback_response agent_role policy_topic)
  = (false, ContainsCodePattern (str "class\s+\w+\s*[:\(]")).
Proof.
  cbv zeta. rewrite <- !find_code_pattern_none, <- !count_keywords_zero.
  repeat split; vm_compute; reflexivity.
Qed.

(** C10 (amended).  If no code pattern is found in the role or in the
    topic, neither mentions a code keyword, and the role followed by
    " Analysis:", as the heading of the response has it, is not the head
    of a class definition, then the validator accepts the fallback
    response. *)
Theorem fallback_accepted (agent_role policy_topic : text) :
  ~ has_code_pattern agent_role -> ~ has_code_pattern policy_topic ->
  ~ mentions CODE_KEYWORDS agent_role ->
  ~ mentions CODE_KEYWORDS policy_topic ->
  ~ found (ast class_pattern) (agent_role ++ str " Analysis:") ->
  is_valid_policy_output (create_fallback_response agent_role policy_topic)
  = (true, ValidPolicyAnalysis).
Proof.
  intros Prole Ptopic Krole Ktopic Hclass.
  rewrite is_valid_policy_output_unfold.
  pose proof (@fallback_length agent_role policy_topic) as Hlen.
  pose proof (@no_pattern_in_fallback agent_role policy_topic Prole Ptopic
                Hclass) as Hpat.
  pose proof (@code_keywords_in_fallback agent_role policy_topic Krole
                Ktopic) as Hcode.
  pose proof (@policy_keywords_in_fallback agent_role policy_topic) as Hpol.
  apply find_code_pattern_none in Hpat. rewrite Hpat.
  replace (length (create_fallback_response agent_role policy_topic) <? 50)
    with false by (symmetry; apply Nat.ltb_ge; exact Hlen).
  replace (3 <=? code_keyword_count
                   (create_fallback_response agent_role policy_topic))
    with false by (symmetry; apply Nat.leb_gt; lia).
  replace (policy_keyword_count
             (create_fallback_response agent_role policy_topic) <? 2)
    with false by (symmetry; apply Nat.ltb_ge; exact Hpol).
  reflexivity.
Qed.

(** The theorem for the economic analyst and a carbon tax. *)
Lemma fallback_accepted_witness :
  is_valid_policy_output
    (create_fallback_response (str "Economic Analyst") (str "Carbon tax"))
  = (true, ValidPolicyAnalysis).
Proof.
  apply fallback_accepted.
  - apply find_code_pattern_none. vm_compute. reflexivity.
  - apply find_code_pattern_none. vm_compute. reflexivity.
  - apply count_keywords_zero. vm_compute. reflexivity.
  - apply count_keywords_zero. vm_compute. reflexivity.
  - apply search_false. vm_compute. reflexivity.
Defined.

End FallbackFacts.


(** ** A run that completes *)

Module CompletedFacts.
Import Py PyFacts OutputValidator Deliberation Notions.
Import EffectFacts DebateFacts PhaseFacts RunFacts RecordFacts.

(** The report that [phase_final_report] builds from the results. *)
Definition final_report_of (policy_topic : text) (r : results)
  : list (text * value) :=
  map (fun kv => (str (fst kv), snd kv))
    [ ("policy_topic", VStr policy_topic);
      ("timestamp", VClock);
      ("problem_statement", VStr (or_default (problem_statement r) []));
      ("research_count", VNat (length (or_default (research r) [])));
      ("debate_count",
       VNat (match debate r with Some _ => 3 | None => 0 end));
      ("votes_count", VNat (length (or_default (voting r) [])));
      ("final_decision",
       VStr (or_default (final_decision r) (str "Unknown")));
      ("final_announcement",
       VStr (or_default (final_announcement r) [])) ].

Lemma wp_phase_final_report_exact st0 em sid topic Q res evs invs :
  (forall evs',
     added evs evs' all_benign ->
     Q (set_final_report (final_report_of topic res) res) evs' invs
       (Return tt)) ->
  wp st0 (phase_final_report em sid topic) Q res evs invs.
Proof.
  intros H. unfold phase_final_report. cbv zeta. wp_go.
  apply H. benign_events.
Qed.

(** The experts of the system, in the order of their registration. *)
Definition experts : list text := domain_experts_of all_agents.

Lemma researchers_all : researchers all_agents = research_ids.
Proof. vm_compute. reflexivity. Qed.

(** The event that ends a run. *)
Definition completion (em : bool) (sid : text) (r : results) : list event :=
  emits em sid "deliberation_complete"
    [ ("session_id", VStr sid);
      ("duration_seconds", VClock);
      ("total_agents", VNat (length all_agents));
      ("final_decision",
       VStr (or_default (final_decision r) (str "Unknown"))) ].

(** The results of a run that completes, from what the agents returned. *)
Definition completed_results (topic statement : text)
    (research_outputs : list text) (debated : debate_record)
    (votes : list text) (announcement : text) (res : results) : results :=
  let r :=
    set_final_decision (extract_decision announcement)
      (set_final_announcement announcement
         (set_voting (assigned (combine experts votes))
            (set_debate debated
               (set_research
                  (reports topic (combine research_ids research_outputs))
                  (set_problem_statement
                     (validated (str "Problem Statement Expert") topic
                        statement) res))))) in
  set_final_report (final_report_of topic r) r.

(** Its invocations, in order. *)
Definition completed_invocations (topic context statement : text)
    (research_outputs : list text) (debate_invocations : list invocation)
    (votes : list text) (announcement : text) : list invocation :=
  [ {| agent := str "problem_statement";
       job := problem_statement_task topic context;
       answer := Returned statement |} ]
  ++ map (researched topic) (combine research_ids research_outputs)
  ++ debate_invocations
  ++ map (voted topic) (combine experts votes)
  ++ [ {| agent := str "voting_announcement";
          job := voting_coordination_task topic
                   (str "Review all votes above");
          answer := Returned announcement |} ].

(** What a run that completes has recorded and invoked. *)
Definition completed_run (topic context : text) (res res' : results)
    (invs : list invocation) : Prop :=
  exists statement research_outputs debated debate_invocations votes
         announcement,
    length research_outputs = length research_ids /\
    length votes = length experts /\
    records debate_invocations (history debated) /\
    debate_shape experts debated /\
    invs = completed_invocations topic context statement research_outputs
             debate_invocations votes announcement /\
    res' = completed_results topic statement research_outputs debated votes
             announcement res.

Lemma wp_deliberation_completed st0 llm em sid topic context Q res evs invs :
  (forall res' evs' invs' out,
     (out = Return tt ->
      (exists new_invs,
         invs' = invs ++ new_invs /\
         completed_run topic context res res' new_invs) /\
      (exists before,
         evs' = evs ++ before ++ completion em sid res' /\
         all_benign before)) ->
     Q res' evs' invs' out) ->
  wp st0 (deliberation llm em sid topic context) Q res evs invs.
Proof.
  intros H. unfold deliberation. wp_step. wp_step. wp_step.
  apply wp_initialize_agents. intros evs0 Hev0. wp_step. wp_step.
  wp_step. apply wp_phase_problem_statement.
  intros res1 evs1 invs1 out1 Hev1 [new1 [-> H1]].
  destruct out1 as [e | []]; [apply H; discriminate|].
  destruct H1 as [o_ps [-> ->]].
  wp_step. apply wp_phase_research.
  intros res2 evs2 invs2 out2 Hev2 [new2 [-> H2]].
  destruct out2 as [e | []]; [apply H; discriminate|].
  destruct H2 as [outs_r [Hlen_r [-> ->]]]. rewrite researchers_all in *.
  wp_step. apply wp_phase_debate.
  intros res3 evs3 invs3 out3 Hev3 [new3 [-> H3]].
  destruct out3 as [e | []]; [apply H; discriminate|].
  destruct H3 as [_ [d [-> [Hrec Hshape]]]].
  wp_step. apply wp_phase_voting.
  intros res4 evs4 invs4 out4 Hev4 [new4 [-> H4]].
  destruct out4 as [e | []]; [apply H; discriminate|].
  destruct H4 as [outs_v [Hlen_v [-> ->]]].
  wp_step. apply wp_phase_results.
  intros res5 evs5 invs5 out5 Hev5 [new5 [-> H5]].
  destruct out5 as [e | []]; [apply H; discriminate|].
  destruct H5 as [o_ann [-> ->]].
  wp_step. apply wp_phase_final_report_exact. intros evs6 Hev6.
  wp_step. wp_step. wp_step.
  apply H. intros _. split.
  - exists (completed_invocations topic context o_ps outs_r new3 outs_v o_ann).
    split.
    + unfold completed_invocations, experts. rewrite <- !app_assoc.
      reflexivity.
    + exists o_ps, outs_r, d, new3, outs_v, o_ann.
      split; [exact Hlen_r|]. split; [exact Hlen_v|].
      split; [exact Hrec|]. split; [exact Hshape|].
      split; [reflexivity|]. unfold completed_results, experts. reflexivity.
  - assert (E : added evs evs6 all_benign) by benign_chain.
    destruct E as [before [-> Hb]]. exists before.
    split; [|exact Hb]. rewrite <- app_assoc. reflexivity.
Qed.

(** A run that [run_deliberation] reports as a success. *)
Lemma run_completed llm em sid topic context st st' res :
  run_deliberation llm em sid topic context st = (st', Succeeded res) ->
  res = self_results st' /\
  completed_run topic context (self_results st) res
    (added_invocations st st') /\
  exists before,
    emitted st' = emitted st ++ before ++ completion em sid res /\
    all_benign before.
Proof.
  unfold run_deliberation.
  destruct (deliberation llm em sid topic context st) as [st1 out] eqn:E.
  destruct out as [e | []]; [discriminate|].
  intros H. injection H as <- <-.
  assert (W : wp st (deliberation llm em sid topic context)
                (fun res' evs' invs' out =>
                   out = Return tt ->
                   (exists new_invs,
                      invs' = [] ++ new_invs /\
                      completed_run topic context (self_results st) res'
                        new_invs) /\
                   (exists before,
                      evs' = [] ++ before ++ completion em sid res' /\
                      all_benign before))
                (self_results st) [] []).
  { apply wp_deliberation_completed. intros res' evs' invs' out K. exact K. }
  destruct (wp_run W E) as [res' [evs' [invs' [-> K]]]].
  destruct (K eq_refl) as [[new_invs [-> Hrun]] [before [-> Hb]]].
  cbn [app] in *. rewrite added_invocations_grown.
  split; [reflexivity|]. split; [exact Hrun|].
  exists before. split; [reflexivity | exact Hb].
Qed.



(** In a schedule of [n] rounds the experts speak in their order, [n]
    times over. *)
Lemma schedule_agents (speakers : list text) (n : nat) :
  map snd (schedule speakers n) = concat (repeat speakers n).
Proof.
  unfold schedule. generalize 1 as s.
  induction n as [|n IH]; intros s; [reflexivity|].
  cbn [List.seq flat_map repeat concat]. rewrite map_app, IH. f_equal.
  rewrite map_map. cbn [snd]. apply map_id.
Qed.

Lemma length_concat_repeat (X : Type) (l : list X) (n : nat) :
  length (concat (repeat l n)) = n * length l.
Proof.
  induction n as [|n IH]; [reflexivity|].
  cbn [repeat concat]. rewrite length_app, IH. reflexivity.
Qed.

Lemma records_agents invs hist :
  records invs hist -> map agent invs = map snd (map slot hist).
Proof.
  intros [H _].
  transitivity (map fst (map (fun i => (agent i, answer i)) invs)).
  - rewrite map_map. reflexivity.
  - rewrite H, !map_map. reflexivity.
Qed.

Lemma extract_decision_label (announcement : text) :
  In (extract_decision announcement)
    [str "APPROVED"; str "REJECTED"; str "CONDITIONAL"].
Proof.
  unfold extract_decision. cbv zeta.
  destruct (contains (str "APPROVED") (upper announcement)
            || contains (str "APPROVE") (upper announcement));
    [left; reflexivity|].
  destruct (contains (str "REJECTED") (upper announcement)
            || contains (str "REJECT") (upper announcement));
    [right; left; reflexivity | right; right; left; reflexivity].
Qed.

(** An agent that agrees with everything. *)
Definition agreeable : oracle :=
  fun _ _ _ => Returned (str "I agree with the proposal.").

(** X1.  A run that completes has invoked, in this order and each with an
    answer: the problem statement expert; the twenty-four experts in the
    order of the research groups; the twenty-four experts in the order of
    their registration, once for every round of the debate; the same
    experts for the vote; the voting coordinator.  With one to three
    rounds that makes 74, 98 or 122 invocations, and the turn management
    expert is not among them. *)
Theorem completed_run_schedule llm em sid topic context st st' res :
  run_deliberation llm em sid topic context st = (st', Succeeded res) ->
  exists d,
    debate res = Some d /\ 1 <= rounds d <= 3 /\
    map agent (added_invocations st st')
    = str "problem_statement" :: research_ids
      ++ concat (repeat experts (rounds d)) ++ experts
      ++ [str "voting_announcement"] /\
    forallb returned (added_invocations st st') = true /\
    length (added_invocations st st') = 50 + 24 * rounds d /\
    ~ In (str "turn_management") (map agent (added_invocations st st')).
Proof.
  intros Hrun. destruct (run_completed _ _ _ _ _ _ Hrun) as [_ [Hc _]].
  destruct Hc as [o_ps [outs_r [d [invs_d [outs_v [o_ann
                   [Hlr [Hlv [Hrec [Hshape [-> ->]]]]]]]]]]].
  exists d. split; [reflexivity|].
  destruct Hshape as [Hrounds [Hslots _]]. split; [exact Hrounds|].
  assert (Hagents :
            map agent
              (completed_invocations topic context o_ps outs_r invs_d outs_v
                 o_ann)
            = str "problem_statement" :: research_ids
              ++ concat (repeat experts (rounds d)) ++ experts
              ++ [str "voting_announcement"]).
  { unfold completed_invocations. rewrite !map_app. cbn [map app agent].
    rewrite (records_agents Hrec), Hslots, schedule_agents.
    rewrite !map_map. cbn [researched voted agent].
    change (fun x : text * text => fst x) with (@fst text text).
    rewrite !map_fst_combine by assumption. reflexivity. }
  split; [exact Hagents|]. split; [|split].
  - unfold completed_invocations. rewrite !forallb_app.
    rewrite (records_returned Hrec). cbn [forallb returned answer andb].
    rewrite !returned_map by (intros; reflexivity). reflexivity.
  - rewrite <- (length_map agent), Hagents. cbn [length].
    rewrite !length_app, length_concat_repeat. cbn [length].
    change (length research_ids) with 24. change (length experts) with 24.
    lia.
  - rewrite Hagents. intros Hin. cbn [In] in Hin.
    destruct Hin as [Hin | Hin]; [discriminate|].
    rewrite !in_app_iff in Hin.
    assert (Hexp : ~ In (str "turn_management") experts)
      by (rewrite <- existsb_text_eqb; vm_compute; discriminate).
    assert (Hres : ~ In (str "turn_management") research_ids)
      by (rewrite <- existsb_text_eqb; vm_compute; discriminate).
    destruct Hin as [Hin | [Hin | [Hin | Hin]]]; try tauto.
    + apply in_concat in Hin. destruct Hin as [l [Hl Hin]].
      apply repeat_spec in Hl. subst l. tauto.
    + cbn [In] in Hin. destruct Hin as [Hin | []]. discriminate.
Qed.

(** The run of the agreeable agents for a session on a carbon tax. *)
Definition agreeable_run : state * run_result :=
  run_deliberation agreeable true (str "s1") (str "Carbon tax") [] fresh.

Lemma agreeable_run_succeeds :
  run_deliberation agreeable true (str "s1") (str "Carbon tax") [] fresh
  = (fst agreeable_run, Succeeded (self_results (fst agreeable_run))).
Proof. vm_compute. reflexivity. Defined.

Lemma completed_run_schedule_witness :
  exists d,
    debate (self_results (fst agreeable_run)) = Some d /\
    1 <= rounds d <= 3 /\
    map agent (added_invocations fresh (fst agreeable_run))
    = str "problem_statement" :: research_ids
      ++ concat (repeat experts (rounds d)) ++ experts
      ++ [str "voting_announcement"] /\
    forallb returned (added_invocations fresh (fst agreeable_run)) = true /\
    length (added_invocations fresh (fst agreeable_run))
    = 50 + 24 * rounds d /\
    ~ In (str "turn_management")
        (map agent (added_invocations fresh (fst agreeable_run))).
Proof.
  exact (@completed_run_schedule agreeable true (str "s1") (str "Carbon tax")
           [] fresh _ _ agreeable_run_succeeds).
Defined.



(** X3.  A run that completes emits no error event, and the last event
    that it hands to the emitter is the one of completion, with the
    decision that the results hold. *)
Theorem completed_run_events llm em sid topic context st st' res :
  run_deliberation llm em sid topic context st = (st', Succeeded res) ->
  exists before label,
    final_decision res = Some label /\
    emitted st'
    = emitted st ++ before
      ++ emits em sid "deliberation_complete"
           [ ("session_id", VStr sid);
             ("duration_seconds", VClock);
             ("total_agents", VNat 27);
             ("final_decision", VStr label) ] /\
    forallb benign before = true.
Proof.
  intros Hrun.
  destruct (run_completed _ _ _ _ _ _ Hrun)
    as [_ [Hc [before [Hev Hb]]]].
  destruct Hc as [o_ps [outs_r [d [invs_d [outs_v [o_ann
                   [_ [_ [_ [_ [_ Hres]]]]]]]]]]].
  exists before, (extract_decision o_ann).
  assert (Hd : final_decision res = Some (extract_decision o_ann))
    by (rewrite Hres; reflexivity).
  split; [exact Hd|]. split; [|exact Hb].
  rewrite Hev. unfold completion. rewrite Hd. reflexivity.
Qed.

Lemma completed_run_events_witness :
  exists before label,
    final_decision (self_results (fst agreeable_run)) = Some label /\
    emitted (fst agreeable_run)
    = emitted fresh ++ before
      ++ emits true (str "s1") "deliberation_complete"
           [ ("session_id", VStr (str "s1"));
             ("duration_seconds", VClock);
             ("total_agents", VNat 27);
             ("final_decision", VStr label) ] /\
    forallb benign before = true.
Proof.
  exact (@completed_run_events agreeable true (str "s1") (str "Carbon tax")
           [] fresh _ _ agreeable_run_succeeds).
Defined.

End CompletedFacts.


(** ** Events are only observed *)

Module EmitterFacts.
Import Py PyFacts OutputValidator Deliberation Notions.

(** Two states of the orchestrator that differ at most in the events,
    the second with the events [quiet]. *)
Definition same_work (quiet : list event) (st1 st2 : state) : Prop :=
  self_results st1 = self_results st2 /\
  invocations st1 = invocations st2 /\
  emitted st2 = quiet.

(** Two computations that, from such states, end in such states and with
    the same result. *)
Definition alike {A} (m1 m2 : M A) : Prop :=
  forall quiet st1 st2,
    same_work quiet st1 st2 ->
    same_work quiet (fst (m1 st1)) (fst (m2 st2)) /\
    snd (m1 st1) = snd (m2 st2).

Lemma alike_ret {A} (a : A) : alike (ret a) (ret a).
Proof. intros quiet st1 st2 H. split; [exact H | reflexivity]. Qed.

Lemma alike_raise {A} (e : text) : alike (@raise A e) (raise e).
Proof. intros quiet st1 st2 H. split; [exact H | reflexivity]. Qed.

Lemma alike_bind {A B} (m1 m2 : M A) (k1 k2 : A -> M B) :
  alike m1 m2 -> (forall a, alike (k1 a) (k2 a)) ->
  alike (bind m1 k1) (bind m2 k2).
Proof.
  intros Hm Hk quiet st1 st2 H. unfold bind.
  destruct (Hm quiet st1 st2 H) as [H' Hr].
  destruct (m1 st1) as [st1' r1], (m2 st2) as [st2' r2].
  cbn [fst snd] in *. subst r2. destruct r1 as [e | a].
  - split; [exact H' | reflexivity].
  - apply Hk. exact H'.
Qed.

Lemma alike_emit_event em sid name payload :
  alike (emit_event em sid name payload) (emit_event false sid name payload).
Proof.
  intros quiet st1 st2 H. unfold emit_event.
  destruct em; cbn [fst snd]; (split; [exact H | reflexivity]).
Qed.

Lemma alike_kickoff llm a t : alike (kickoff llm a t) (kickoff llm a t).
Proof.
  intros quiet st1 st2 [Hres [Hinv Hq]]. unfold kickoff. cbv zeta.
  rewrite Hinv.
  destruct (llm (length (invocations st2)) a t); cbn [fst snd];
    (split; [repeat split; cbn; congruence | reflexivity]).
Qed.

Lemma alike_update_results f : alike (update_results f) (update_results f).
Proof.
  intros quiet st1 st2 [Hres [Hinv Hq]]. unfold update_results. cbn.
  split; [repeat split; cbn; congruence | reflexivity].
Qed.

Lemma alike_get_results : alike get_results get_results.
Proof.
  intros quiet st1 st2 [Hres [Hinv Hq]]. unfold get_results. cbn [fst snd].
  split; [repeat split; assumption | congruence].
Qed.

Lemma alike_for_each {A B} (xs : list A) (body1 body2 : B -> A -> M B) :
  (forall acc x, alike (body1 acc x) (body2 acc x)) ->
  forall acc, alike (for_each xs acc body1) (for_each xs acc body2).
Proof.
  intros Hb. induction xs as [|x xs IH]; intros acc; cbn [for_each].
  - apply alike_ret.
  - apply alike_bind; [apply Hb | exact IH].
Qed.

(** Through a computation of the orchestrator, step by step. *)
Ltac alike_step :=
  cbv beta zeta;
  first
    [ apply alike_emit_event | apply alike_ret | apply alike_raise
    | apply alike_kickoff | apply alike_update_results
    | apply alike_get_results
    | apply alike_bind; [|intros ?]
    | apply alike_for_each; intros ? ? ].

Ltac alike_go := repeat alike_step.

Section Emitters.
Variable llm : oracle.
Variable em : bool.
Variable sid : text.

Lemma alike_initialize_agents :
  alike (initialize_agents em sid) (initialize_agents false sid).
Proof.
  unfold initialize_agents. alike_go.
Qed.

Lemma alike_agent_at agents key :
  alike (agent_at agents key) (agent_at agents key).
Proof.
  unfold agent_at. destruct (dict_get (str key) agents);
    [apply alike_ret | apply alike_raise].
Qed.

Lemma alike_phase_problem_statement agents topic context :
  alike (phase_problem_statement llm em sid agents topic context)
        (phase_problem_statement llm false sid agents topic context).
Proof.
  unfold phase_problem_statement. alike_step. alike_step.
  alike_step; [apply alike_agent_at|]. alike_go.
Qed.

Lemma alike_phase_research agents topic :
  alike (phase_research llm em sid agents topic)
        (phase_research llm false sid agents topic).
Proof.
  unfold phase_research. alike_step. alike_step. alike_step; [|alike_go].
  apply alike_for_each. intros acc group.
  apply alike_for_each. intros [d n] agent_id. unfold research_step.
  destruct (negb (dict_has agent_id agents)); alike_go.
Qed.

Lemma alike_debate_round topic speakers r hist :
  alike (debate_round llm em sid topic speakers r hist)
        (debate_round llm false sid topic speakers r hist).
Proof.
  unfold debate_round. alike_step. alike_step.
  apply alike_for_each. intros [args h] [i agent_id]. unfold debate_step.
  alike_go.
Qed.

Lemma alike_debate_rounds topic speakers round_nums :
  forall hist last,
    alike (debate_rounds llm em sid topic speakers round_nums hist last)
          (debate_rounds llm false sid topic speakers round_nums hist last).
Proof.
  induction round_nums as [|r later IH]; intros hist last;
    cbn [debate_rounds]; [apply alike_ret|].
  apply alike_bind; [apply alike_debate_round|]. intros [args h].
  destruct (r <? max_rounds); [|apply IH].
  destruct (_assess_consensus args) as [c|]; [|apply alike_raise].
  alike_step. alike_step.
  destruct (70 <=? c)%Z; [alike_go | apply IH].
Qed.

Lemma alike_phase_debate agents topic :
  alike (phase_debate llm em sid agents topic)
        (phase_debate llm false sid agents topic).
Proof.
  unfold phase_debate. alike_step. alike_step.
  apply alike_bind; [apply alike_debate_rounds|].
  intros [[h rn] reached]. alike_go.
Qed.

Lemma alike_phase_voting agents topic :
  alike (phase_voting llm em sid agents topic)
        (phase_voting llm false sid agents topic).
Proof.
  unfold phase_voting. alike_step. alike_step. alike_step; [|alike_go].
  apply alike_for_each. intros votes [i agent_id]. unfold voting_step. alike_go.
Qed.

Lemma alike_phase_results agents topic :
  alike (phase_results llm em sid agents topic)
        (phase_results llm false sid agents topic).
Proof.
  unfold phase_results. alike_step. alike_step.
  alike_step; [apply alike_agent_at|]. alike_go.
Qed.

Lemma alike_phase_final_report topic :
  alike (phase_final_report em sid topic) (phase_final_report false sid topic).
Proof. unfold phase_final_report. alike_go. Qed.

Lemma alike_deliberation topic context :
  alike (deliberation llm em sid topic context)
        (deliberation llm false sid topic context).
Proof.
  unfold deliberation. alike_step. alike_step.
  alike_step; [apply alike_initialize_agents|]. alike_step. alike_step.
  alike_step; [apply alike_phase_problem_statement|].
  alike_step; [apply alike_phase_research|].
  alike_step; [apply alike_phase_debate|].
  alike_step; [apply alike_phase_voting|].
  alike_step; [apply alike_phase_results|].
  alike_step; [apply alike_phase_final_report|].
  alike_go.
Qed.

End Emitters.

(** X4.  The emitter only observes a run: with an emitter and without one
    [run_deliberation] returns the same, leaves the same results and has
    made the same invocations; without one no event is recorded. *)
Theorem emitter_only_observes llm sid topic context st :
  let observed := run_deliberation llm true sid topic context st in
  let unobserved := run_deliberation llm false sid topic context st in
  snd observed = snd unobserved /\
  self_results (fst observed) = self_results (fst unobserved) /\
  invocations (fst observed) = invocations (fst unobserved) /\
  emitted (fst unobserved) = emitted st.
Proof.
  cbv zeta. unfold run_deliberation.
  assert (H0 : same_work (emitted st) st st) by (repeat split).
  destruct (alike_deliberation llm true sid topic context H0) as [H Hr].
  destruct (deliberation llm true sid topic context st) as [st1 r1].
  destruct (deliberation llm false sid topic context st) as [st2 r2].
  cbn [fst snd] in *. subst r2. destruct r1 as [e | []].
  - destruct (alike_emit_event true sid "deliberation_error"
                [ ("error", VStr e); ("phase", VStr (str "Unknown")) ] H)
      as [[K1 [K2 K3]] _].
    cbn [fst snd]. auto.
  - destruct H as [K1 [K2 K3]]. cbn [fst snd]. rewrite K1. auto.
Qed.

End EmitterFacts.


(** ** The consensus level at its ends *)

Module ConsensusEnds.
Import Py PyFacts PyNum Deliberation Notions ScoreFacts FloatFacts.
Import ConsensusFacts.

(** *** No word of agreement *)

Lemma score_without_agreement (argument : text) :
  ~ mentions agreement_keywords argument ->
  argument_score argument = None \/ argument_score argument = Some 0%float.
Proof.
  intros H. apply count_keywords_zero in H.
  rewrite argument_score_counts, H.
  pose proof (disagreement_count_le (lower argument)) as Hd.
  destruct (count_keywords disagreement_keywords (lower argument)) as [|d]
    eqn:E.
  - left. reflexivity.
  - right. apply score_only_disagreement; lia.
Qed.

Lemma total_score_zero (arguments : list text) :
  (forall a, In a arguments -> ~ mentions agreement_keywords a) ->
  total_score arguments = 0%float.
Proof.
  unfold total_score. induction arguments as [|a arguments IH]; intros H;
    [reflexivity|].
  cbn [fold_left].
  destruct (@score_without_agreement a (H a (or_introl eq_refl)))
    as [-> | ->].
  - apply IH. intros b Hb. apply H. right. exact Hb.
  - change (0 + 0)%float with 0%float.
    apply IH. intros b Hb. apply H. right. exact Hb.
Qed.

(** X5.  A round in which no argument mentions a word of agreement has
    the consensus level 0, whatever else the arguments say. *)
Theorem consensus_without_agreement (round_arguments : dict text) :
  (forall a, In a (dict_values round_arguments) ->
             ~ mentions agreement_keywords a) ->
  (Z.of_nat (length round_arguments) < 2 ^ 63)%Z ->
  _assess_consensus round_arguments = Some 0%Z.
Proof.
  intros H Hlen. unfold _assess_consensus.
  destruct round_arguments as [|kv rest] eqn:E; [reflexivity|].
  rewrite <- E in *. rewrite (@total_score_zero (dict_values round_arguments) H).
  destruct (@float_of_nat_finite (length round_arguments))
    as [m [e [Hf _]]].
  { rewrite E in *. cbn [length] in *. lia. }
  unfold int_of_float. rewrite FloatAxioms.div_spec, Hf.
  reflexivity.
Qed.

Lemma consensus_without_agreement_witness :
  _assess_consensus
    [ (str "economic", str "However, the costs are high.");
      (str "legal", str "No comment.") ] = Some 0%Z.
Proof.
  apply consensus_without_agreement.
  - intros a Ha. apply count_keywords_zero.
    cbn in Ha. destruct Ha as [<- | [<- | []]]; vm_compute; reflexivity.
  - reflexivity.
Defined.

(** *** The share of the agreeing arguments

    Sums of whole numbers below [2 ^ 53] are exact, and the quotient of
    two whole numbers is rounded to a number with the same integer
    part. *)

Local Open Scope Z_scope.

Lemma shr_fexp_none (m e : Z) (l : location) :
  fexp prec emax (Zdigits2 m + e) <= e ->
  shr_fexp prec emax m e l = (shr_record_of_loc m l, e).
Proof.
  intros H. unfold shr_fexp, shr.
  destruct (fexp prec emax (Zdigits2 m + e) - e) eqn:E; try reflexivity. lia.
Qed.

(** A mantissa of at most 53 digits is kept as it is. *)
Lemma binary_round_aux_kept (m : positive) (e : Z) :
  Zpos (digits2_pos m) <= 53 -> -1074 <= e <= 971 ->
  binary_round_aux prec emax false (Zpos m) e loc_Exact
  = S754_finite false m e.
Proof.
  intros Hd He. unfold binary_round_aux.
  rewrite shr_fexp_none by (cbn [Zdigits2]; rewrite fexp_64; lia).
  cbn [shr_record_of_loc shr_m loc_of_shr_record round_nearest_even].
  rewrite shr_fexp_none by (cbn [Zdigits2]; rewrite fexp_64; lia).
  cbn [shr_record_of_loc shr_m].
  replace (e <=? emax - prec) with true
    by (symmetry; apply Z.leb_le; change (emax - prec) with 971; lia).
  reflexivity.
Qed.

(** Rounding is exact when the digits that are shifted out are zeros. *)
Lemma binary_round_aux_exact (M e : Z) :
  0 < M ->
  let e' := Z.max e (fexp prec emax (Zdigits2 M + e)) in
  M mod 2 ^ (e' - e) = 0 -> e' - e < Zdigits2 M -> e' <= 971 ->
  exists m,
    binary_round_aux prec emax false M e loc_Exact = S754_finite false m e' /\
    Zpos m = M / 2 ^ (e' - e).
Proof.
  intros HM e' Hmod Hleft Hmax.
  destruct (@Zdigits2_spec M HM) as [Hd [Hlo Hhi]].
  assert (He' : e <= e' /\ Zdigits2 M + e - 53 <= e' /\ -1074 <= e')
    by (unfold e'; rewrite fexp_64; lia).
  assert (Hpow : 0 < 2 ^ (e' - e)) by (apply Z.pow_pos_nonneg; lia).
  assert (Hq : 0 < M / 2 ^ (e' - e)).
  { apply Z.div_str_pos. split; [exact Hpow|].
    apply Z.le_trans with (2 ^ (Zdigits2 M - 1)); [|exact Hlo].
    apply Z.pow_le_mono_r; lia. }
  assert (Hq53 : M / 2 ^ (e' - e) < 2 ^ 53).
  { apply Z.div_lt_upper_bound; [exact Hpow|].
    rewrite <- Z.pow_add_r by lia.
    apply Z.lt_le_trans with (2 ^ Zdigits2 M); [exact Hhi|].
    apply Z.pow_le_mono_r; lia. }
  destruct (M / 2 ^ (e' - e)) as [|q|q] eqn:Eq; try lia.
  exists q. split; [|reflexivity].
  assert (Hdq : Zpos (digits2_pos q) <= 53)
    by (apply (@Zdigits2_le (Zpos q)); lia).
  destruct (Z.eq_dec e' e) as [Heq | Hne].
  - rewrite Heq, Z.sub_diag, Z.pow_0_r, Z.div_1_r in Eq.
    rewrite Heq, Eq. apply binary_round_aux_kept; lia.
  - destruct (@shr_fexp_spec M e loc_Exact HM) as [mrs [E1 [Hm' Hr]]].
    fold e' in E1, Hm', Hr.
    unfold binary_round_aux. rewrite E1.
    assert (Hbit : shr_r mrs = false).
    { rewrite Hr by lia. apply Z.testbit_false; [lia|].
      apply Z.mod_divide in Hmod; [|lia]. destruct Hmod as [k Hk].
      replace (2 ^ (e' - e)) with (2 * 2 ^ (e' - e - 1)) in Hk.
      2:{ rewrite <- Z.pow_succ_r by lia. f_equal. lia. }
      assert (0 < 2 ^ (e' - e - 1)) by (apply Z.pow_pos_nonneg; lia).
      replace M with (k * 2 * 2 ^ (e' - e - 1)) by lia.
      rewrite Z.div_mul by lia. apply Z.mod_mul. lia. }
    rewrite round_nearest_even_down by exact Hbit.
    rewrite Hm', Eq.
    rewrite (@shr_fexp_none (Zpos q) e' loc_Exact)
      by (cbn [Zdigits2]; rewrite fexp_64; lia).
    cbn [shr_record_of_loc shr_m].
    replace (e' <=? emax - prec) with true
      by (symmetry; apply Z.leb_le; change (emax - prec) with 971; lia).
    reflexivity.
Qed.

(** [x] is the whole number [z], with a full mantissa. *)
Definition represents (x : float) (z : Z) : Prop :=
  exists m e,
    Prim2SF x = S754_finite false m e /\
    Zpos (digits2_pos m) = 53 /\ -52 <= e <= 0 /\
    Zpos m = z * 2 ^ (- e).

Lemma represents_bounds (x : float) (z : Z) :
  represents x z -> 0 < z < 2 ^ 53.
Proof.
  intros [m [e [_ [Hd [He Hm]]]]].
  pose proof (full_mantissa m Hd) as B.
  assert (P : 0 < 2 ^ (- e)) by (apply Z.pow_pos_nonneg; lia).
  assert (Q : 1 <= 2 ^ (- e)) by lia.
  split; [nia|].
  destruct (Z_lt_le_dec z (2 ^ 53)) as [|Hge]; [assumption|]. nia.
Qed.

(** [float(n)] is [n] for a positive [n] below [2 ^ 53]. *)
Lemma represents_of_nat (n : nat) :
  0 < Z.of_nat n < 2 ^ 53 -> represents (float_of_nat n) (Z.of_nat n).
Proof.
  intros Hn. unfold represents, float_of_nat.
  pose proof (Prim2SF_valid
                (of_uint63 (Uint63.of_Z (Z.of_nat n)))) as Hvalid.
  rewrite of_uint63_spec, Uint63.of_Z_spec in *.
  assert (H63 : 2 ^ 53 < 2 ^ 63) by reflexivity.
  rewrite Z.mod_small in * by (change wB with (2 ^ 63); lia).
  destruct (Z.of_nat n) as [|p|p]; try lia.
  cbn [binary_normalize] in *.
  destruct (digits2_pos_spec p) as [Hlo Hhi].
  assert (Hd : Zpos (digits2_pos p) <= 53)
    by (apply (@Zdigits2_le (Zpos p)); lia).
  unfold binary_round in *.
  set (ez := fexp prec emax (Zpos (digits2_pos p) + 0)) in *.
  assert (Hez : ez = Zpos (digits2_pos p) - 53)
    by (unfold ez; rewrite fexp_64; lia).
  destruct (@shl_align_spec p 0 ez) as [Hm He]; [lia|].
  destruct (shl_align p 0 ez) as [mz ez'] eqn:Es.
  cbn [fst snd] in Hm, He. subst ez'.
  assert (Hmz : Zpos mz < 2 ^ 53).
  { rewrite Hm.
    replace 53 with (Zpos (digits2_pos p) + (0 - ez)) by lia.
    rewrite Z.pow_add_r by lia.
    assert (0 < 2 ^ (0 - ez)) by (apply Z.pow_pos_nonneg; lia).
    nia. }
  assert (Hdz : Zpos (digits2_pos mz) <= 53)
    by (apply (@Zdigits2_le (Zpos mz)); lia).
  rewrite binary_round_aux_kept in * by lia.
  exists mz, ez. split; [reflexivity|].
  destruct (@valid_normal false mz ez Hvalid) as [D _]; [lia|].
  repeat split; try lia.
  rewrite Hm. f_equal.
Qed.

(** Two such numbers add up exactly as long as the sum stays below
    [2 ^ 53]. *)
Lemma represents_add (x y : float) (z1 z2 : Z) :
  represents x z1 -> represents y z2 -> z1 + z2 < 2 ^ 53 ->
  represents (x + y)%float (z1 + z2).
Proof.
  intros Hx Hy Hsum.
  pose proof (represents_bounds Hx) as Bx.
  pose proof (represents_bounds Hy) as By.
  destruct Hx as [mx [ex [Ex [Hdx [Hex Hmx]]]]].
  destruct Hy as [my [ey [Ey [Hdy [Hey Hmy]]]]].
  pose proof (full_mantissa mx Hdx) as Fx.
  pose proof (full_mantissa my Hdy) as Fy.
  unfold represents.
  pose proof (Prim2SF_valid (x + y)%float) as Hvalid.
  rewrite FloatAxioms.add_spec, Ex, Ey in *.
  unfold SF64add in *. cbn [SFadd cond_Zopp] in *.
  set (ez := Z.min ex ey) in *.
  destruct (@shl_align_spec mx ex ez) as [Ha _]; [unfold ez; lia|].
  destruct (@shl_align_spec my ey ez) as [Hb _]; [unfold ez; lia|].
  set (a := fst (shl_align mx ex ez)) in *.
  set (b := fst (shl_align my ey ez)) in *.
  cbn [Z.add binary_normalize] in *.
  assert (Hez : -52 <= ez <= 0) by (unfold ez; lia).
  assert (Pz : 0 < 2 ^ (- ez)) by (apply Z.pow_pos_nonneg; lia).
  assert (HM : Zpos (a + b) = (z1 + z2) * 2 ^ (- ez)).
  { rewrite Pos2Z.inj_add, Ha, Hb, Hmx, Hmy.
    rewrite <- !Z.mul_assoc, <- !Z.pow_add_r by lia.
    replace (- ex + (ex - ez)) with (- ez) by lia.
    replace (- ey + (ey - ez)) with (- ez) by lia. ring. }
  assert (HA : 1 <= 2 ^ (ex - ez))
    by (pose proof (Z.pow_pos_nonneg 2 (ex - ez)); lia).
  assert (Hwide : 52 < Zdigits2 (Zpos (a + b))).
  { apply Zdigits2_gt; [lia|]. rewrite Pos2Z.inj_add, Ha. nia. }
  assert (Hnarrow : Zdigits2 (Zpos (a + b)) <= 53 - ez).
  { apply Zdigits2_le; [lia|].
    replace (53 - ez) with (53 + - ez) by lia.
    rewrite HM, Z.pow_add_r by lia.
    apply Z.mul_lt_mono_pos_r; lia. }
  rewrite binary_round_wide in * by (cbn [Zdigits2] in Hwide; lia).
  set (e' := Z.max ez (fexp prec emax (Zdigits2 (Zpos (a + b)) + ez))).
  assert (He' : e' = Zdigits2 (Zpos (a + b)) + ez - 53)
    by (unfold e'; rewrite fexp_64; lia).
  assert (Pe : 0 < 2 ^ (e' - ez)) by (apply Z.pow_pos_nonneg; lia).
  assert (Hsplit : Zpos (a + b)
                   = (z1 + z2) * 2 ^ (- e') * 2 ^ (e' - ez)).
  { rewrite HM, <- Z.mul_assoc, <- Z.pow_add_r by lia.
    do 2 f_equal. lia. }
  destruct (@binary_round_aux_exact (Zpos (a + b)) ez) as [m [E Hm]].
  - lia.
  - fold e'. rewrite Hsplit. apply Z.mod_mul. lia.
  - fold e'. lia.
  - fold e'. lia.
  - fold e' in E, Hm. rewrite E in *.
    exists m, e'. split; [reflexivity|].
    destruct (@valid_normal false m e' Hvalid) as [D _]; [lia|].
    repeat split; try lia.
    rewrite Hm, Hsplit, Z.div_mul by lia. reflexivity.
Qed.

(** Rounding a positive number [m * 2 ^ e] whose mantissa is cut to [m0]
    at the precision of the format: the result is [m0] or [m0 + 1] at
    the exponent of the format. *)
Lemma binary_round_aux_near (m e : Z) (l : location) :
  0 < m ->
  let e' := Z.max e (fexp prec emax (Zdigits2 m + e)) in
  e' - e < Zdigits2 m ->
  e' + 1 <= emax - prec ->
  exists m2 e2 m1,
    binary_round_aux prec emax false m e l = S754_finite false m2 e2 /\
    e' <= e2 <= e' + 1 /\
    m / 2 ^ (e' - e) <= m1 <= m / 2 ^ (e' - e) + 1 /\
    Zpos m2 * 2 ^ (e2 - e') = m1.
Proof.
  intros Hm e' Hleft Hmax.
  destruct (@shr_fexp_spec m e l Hm) as [mrs [E1 [Hm' Hr]]].
  fold e' in E1, Hm', Hr.
  unfold binary_round_aux. rewrite E1.
  set (m1 := round_nearest_even (shr_m mrs) (loc_of_shr_record mrs)).
  assert (B1 : shr_m mrs <= m1 <= shr_m mrs + 1)
    by apply round_nearest_even_bounds.
  destruct (@Zdigits2_spec m Hm) as [Hd [Hlo Hhi]].
  assert (He' : e <= e' /\ Zdigits2 m + e - 53 <= e' /\ -1074 <= e')
    by (unfold e'; rewrite fexp_64; lia).
  assert (Hpow : 0 < 2 ^ (e' - e)) by (apply Z.pow_pos_nonneg; lia).
  assert (Hm'lo : 0 < shr_m mrs).
  { rewrite Hm'. apply Z.div_str_pos. split; [exact Hpow|].
    apply Z.le_trans with (2 ^ (Zdigits2 m - 1)); [|exact Hlo].
    apply Z.pow_le_mono_r; lia. }
  assert (Hm'hi : shr_m mrs < 2 ^ 53).
  { rewrite Hm'. apply Z.div_lt_upper_bound; [exact Hpow|].
    rewrite <- Z.pow_add_r by lia.
    apply Z.lt_le_trans with (2 ^ Zdigits2 m); [exact Hhi|].
    apply Z.pow_le_mono_r; lia. }
  assert (Hm1 : 0 < m1) by lia.
  destruct (@shr_fexp_spec m1 e' loc_Exact Hm1) as [mrs2 [E2 [Hm2 _]]].
  rewrite E2, Hm2.
  set (e2 := Z.max e' (fexp prec emax (Zdigits2 m1 + e'))) in *.
  destruct (@Zdigits2_spec m1 Hm1) as [Hd1 [Hlo1 Hhi1]].
  assert (Hd1' : Zdigits2 m1 <= 54).
  { apply Zdigits2_le; [exact Hm1|]. change (2 ^ 54) with (2 * 2 ^ 53). lia. }
  assert (He2 : e' <= e2 <= e' + 1) by (unfold e2; rewrite fexp_64; lia).
  assert (Hexact : m1 / 2 ^ (e2 - e') * 2 ^ (e2 - e') = m1).
  { destruct (Z.eq_dec e2 e') as [-> | Hne].
    - rewrite Z.sub_diag, Z.pow_0_r, Z.div_1_r. lia.
    - replace (e2 - e') with 1 by lia. change (2 ^ 1) with 2.
      assert (53 < Zdigits2 m1) by (unfold e2 in *; rewrite fexp_64 in *; lia).
      assert (2 ^ 53 <= 2 ^ (Zdigits2 m1 - 1))
        by (apply Z.pow_le_mono_r; lia).
      assert (Hcarry : m1 = 2 ^ 53) by lia.
      rewrite Hcarry. reflexivity. }
  assert (Hq : 0 < m1 / 2 ^ (e2 - e')).
  { assert (0 < 2 ^ (e2 - e')) by (apply Z.pow_pos_nonneg; lia). nia. }
  destruct (m1 / 2 ^ (e2 - e')) as [|q|q] eqn:Eq; try lia.
  exists q, e2, m1.
  replace (e2 <=? emax - prec) with true by (symmetry; apply Z.leb_le; lia).
  split; [reflexivity|]. split; [exact He2|]. split; [|exact Hexact].
  rewrite <- Hm'. exact B1.
Qed.

(** [int(x / y)] for two whole numbers: the quotient, rounded down. *)
Lemma represents_div (x y : float) (a n : Z) :
  represents x a -> represents y n -> a <= 2 ^ 51 ->
  int_of_float (x / y)%float = Some (a / n).
Proof.
  intros Hx Hy Ha.
  pose proof (represents_bounds Hx) as Bx.
  pose proof (represents_bounds Hy) as By.
  destruct Hx as [mx [ex [Ex [Hdx [Hex Hmx]]]]].
  destruct Hy as [my [ey [Ey [Hdy [Hey Hmy]]]]].
  pose proof (full_mantissa mx Hdx) as Fx.
  pose proof (full_mantissa my Hdy) as Fy.
  assert (Px : 0 < 2 ^ (- ex)) by (apply Z.pow_pos_nonneg; lia).
  assert (Py : 0 < 2 ^ (- ey)) by (apply Z.pow_pos_nonneg; lia).
  (* a number of at most 2 ^ 51 has an exponent below zero *)
  assert (Hex1 : ex <= -1).
  { destruct (Z.eq_dec ex 0) as [-> | ?]; [|lia].
    change (2 ^ (- 0)) with 1 in Hmx.
    change (2 ^ 51) with 2251799813685248 in Ha.
    change (2 ^ 52) with 4503599627370496 in Fx. lia. }
  unfold int_of_float. rewrite FloatAxioms.div_spec, Ex, Ey.
  unfold SF64div. cbn [SFdiv xorb]. unfold SFdiv_core_binary.
  cbn [Zdigits2]. rewrite Hdx, Hdy, fexp_64.
  replace (Z.min (Z.max (53 + ex - (53 + ey) - 53) (-1074)) (ex - ey))
    with (ex - ey - 53) by lia.
  replace (ex - ey - (ex - ey - 53)) with 53 by lia.
  cbv beta iota. rewrite Z.shiftl_mul_pow2 by lia.
  assert (Hdiv : Z.div_eucl (Zpos mx * 2 ^ 53) (Zpos my)
                 = (Zpos mx * 2 ^ 53 / Zpos my,
                    (Zpos mx * 2 ^ 53) mod Zpos my)).
  { unfold Z.div, Z.modulo.
    destruct (Z.div_eucl (Zpos mx * 2 ^ 53) (Zpos my)). reflexivity. }
  rewrite Hdiv.
  set (q := Zpos mx * 2 ^ 53 / Zpos my).
  set (l := new_location (Zpos my) ((Zpos mx * 2 ^ 53) mod Zpos my)).
  set (e0 := ex - ey - 53).
  assert (Hq : 2 ^ 52 <= q < 2 ^ 54).
  { unfold q. split.
    - apply Z.div_le_lower_bound; [lia|].
      change (2 ^ 53) with 9007199254740992 in *.
      change (2 ^ 52) with 4503599627370496 in *. nia.
    - apply Z.div_lt_upper_bound; [lia|].
      change (2 ^ 54) with 18014398509481984.
      change (2 ^ 53) with 9007199254740992 in *.
      change (2 ^ 52) with 4503599627370496 in *. nia. }
  assert (Hq0 : 0 < q)
    by (change (2 ^ 52) with 4503599627370496 in Hq; lia).
  assert (Hd53 : 52 < Zdigits2 q) by (apply Zdigits2_gt; lia).
  assert (Hd54 : Zdigits2 q <= 54) by (apply Zdigits2_le; lia).
  set (s := Zdigits2 q - 53).
  destruct (@binary_round_aux_near q e0 l Hq0) as [m2 [e2 [m1 [E [He2 [B Hm2]]]]]].
  { rewrite fexp_64. unfold e0. lia. }
  { rewrite fexp_64. change (emax - prec) with 971. unfold e0. lia. }
  rewrite fexp_64 in He2, B, Hm2.
  replace (Z.max e0 (Z.max (Zdigits2 q + e0 - 53) (-1074)))
    with (e0 + s) in * by (unfold s, e0; lia).
  replace (e0 + s - e0) with s in B by lia.
  rewrite E. cbn [cond_Zopp]. f_equal.
  set (E' := - (e0 + s)).
  assert (HE : 0 < E') by (unfold E', e0, s; lia).
  assert (PE : 0 < 2 ^ E') by (apply Z.pow_pos_nonneg; lia).
  assert (Ps : 0 < 2 ^ s) by (apply Z.pow_pos_nonneg; unfold s; lia).
  (* the result is [m1 / 2 ^ E'] *)
  assert (Hint : Z.shiftl (Zpos m2) e2 = m1 / 2 ^ E').
  { rewrite Z.shiftl_div_pow2 by (unfold e0, s in *; lia).
    rewrite <- Hm2.
    replace E' with (- e2 + (e2 - (e0 + s))) by (unfold E'; lia).
    rewrite Z.pow_add_r by (unfold e0, s in *; lia).
    assert (0 < 2 ^ (e2 - (e0 + s))) by (apply Z.pow_pos_nonneg; lia).
    assert (0 < 2 ^ (- e2))
      by (apply Z.pow_pos_nonneg; unfold e0, s in *; lia).
    rewrite Z.div_mul_cancel_r by lia. reflexivity. }
  rewrite Hint.
  (* the mantissa before rounding is [a * 2 ^ E' / n] *)
  assert (Hm0 : q / 2 ^ s = a * 2 ^ E' / n).
  { unfold q. rewrite Z.div_div by lia.
    rewrite Hmx, Hmy.
    replace (a * 2 ^ (- ex) * 2 ^ 53)
      with (a * 2 ^ E' * (2 ^ (- ey) * 2 ^ s)).
    2:{ rewrite <- !Z.mul_assoc. f_equal.
        rewrite <- !Z.pow_add_r by (unfold E', e0, s in *; lia).
        f_equal. unfold E', e0. lia. }
    replace (n * 2 ^ (- ey) * 2 ^ s) with (n * (2 ^ (- ey) * 2 ^ s)) by ring.
    rewrite Z.div_mul_cancel_r by lia. reflexivity. }
  assert (Hm0lo : 2 ^ 52 <= q / 2 ^ s).
  { apply Z.div_le_lower_bound; [lia|].
    rewrite <- Z.pow_add_r by (unfold s; lia).
    destruct (@Zdigits2_spec q Hq0) as [_ [Hlo _]].
    replace (s + 52) with (Zdigits2 q - 1) by (unfold s; lia). exact Hlo. }
  rewrite Hm0 in B, Hm0lo.
  set (m0 := a * 2 ^ E' / n) in *.
  assert (Hn : 0 < n) by lia.
  assert (Hmul : n * m0 <= a * 2 ^ E') by (apply Z.mul_div_le; lia).
  assert (Hlarge : 2 * n <= 2 ^ E').
  { change (2 ^ 52) with (2 * 2 ^ 51) in Hm0lo.
    assert (n * (2 * 2 ^ 51) <= 2 ^ 51 * 2 ^ E') by nia.
    assert (0 < 2 ^ 51) by reflexivity. nia. }
  set (t := a / n).
  assert (Ht : n * t <= a < n * (t + 1)).
  { unfold t. split; [apply Z.mul_div_le; lia|].
    rewrite Z.mul_add_distr_l, Z.mul_1_r.
    pose proof (Z.mod_pos_bound a n Hn).
    pose proof (Z.div_mod a n ltac:(lia)). lia. }
  symmetry. apply Z.div_unique with (r := m1 - 2 ^ E' * t); [|ring].
  left. split.
  - assert (t * 2 ^ E' <= m0).
    { apply Z.div_le_lower_bound; [lia|]. nia. }
    lia.
  - assert (m0 + 1 < (t + 1) * 2 ^ E').
    { destruct (Z_lt_le_dec (m0 + 1) ((t + 1) * 2 ^ E')) as [|Hge];
        [assumption|].
      exfalso.
      assert (n * (m0 + 1) >= n * ((t + 1) * 2 ^ E')) by nia.
      assert ((a + 1) * 2 ^ E' <= n * (t + 1) * 2 ^ E') by nia.
      nia. }
    lia.
Qed.

Lemma score_agreeing (argument : text) :
  mentions agreement_keywords argument ->
  ~ mentions disagreement_keywords argument ->
  argument_score argument = Some 100%float.
Proof.
  intros Ha Hd. apply count_keywords_zero in Hd.
  apply count_keywords_mentions in Ha.
  pose proof (agreement_count_le (lower argument)).
  rewrite argument_score_counts, Hd. apply score_only_agreement; lia.
Qed.

Lemma represents_100 : represents 100%float 100.
Proof.
  exists 7036874417766400%positive, (-46). repeat split; try lia.
Qed.

(** The argument contains an agreement keyword. *)
Definition agrees (argument : text) : bool :=
  (0 <? count_keywords agreement_keywords (lower argument))%nat.

Lemma agrees_spec (argument : text) :
  agrees argument = true <-> mentions agreement_keywords argument.
Proof.
  unfold agrees. rewrite Nat.ltb_lt. apply count_keywords_mentions.
Qed.

(** [total] is [100 * k]. *)
Definition totals (total : float) (k : nat) : Prop :=
  match k with
  | O => Prim2SF total = S754_zero false
  | S _ => represents total (100 * Z.of_nat k)
  end.

Lemma totals_add_100 (total : float) (k : nat) :
  totals total k -> 100 * Z.of_nat (S k) < 2 ^ 53 ->
  totals (total + 100)%float (S k).
Proof.
  intros H Hk. destruct k as [|k]; cbn [totals] in *.
  - destruct represents_100 as [m [e [E R]]].
    exists m, e. split; [|exact R].
    rewrite FloatAxioms.add_spec, H, E. reflexivity.
  - replace (100 * Z.of_nat (S (S k))) with (100 * Z.of_nat (S k) + 100)
      by lia.
    apply represents_add; [exact H | exact represents_100 | lia].
Qed.

Lemma totals_add_0 (total : float) (k : nat) :
  totals total k -> totals (total + 0)%float k.
Proof.
  intros H. destruct k as [|k]; cbn [totals] in *.
  - rewrite FloatAxioms.add_spec, H. reflexivity.
  - destruct H as [m [e [E R]]]. exists m, e. split; [|exact R].
    rewrite FloatAxioms.add_spec, E. reflexivity.
Qed.

(** The total counts the agreeing arguments when none of them objects
    as well. *)
Lemma total_score_counts (arguments : list text) :
  (forall a, In a arguments -> mentions agreement_keywords a ->
             ~ mentions disagreement_keywords a) ->
  forall (total : float) (k : nat),
    totals total k ->
    100 * Z.of_nat (k + length (filter agrees arguments)) < 2 ^ 53 ->
    totals
      (fold_left
         (fun total argument =>
            match argument_score argument with
            | Some score => (total + score)%float
            | None => total
            end)
         arguments total)
      (k + length (filter agrees arguments)).
Proof.
  induction arguments as [|a arguments IH]; intros Hclear total k Ht Hlen.
  - cbn [filter length]. rewrite Nat.add_0_r. exact Ht.
  - cbn [fold_left filter] in *.
    assert (Hrest : forall b, In b arguments ->
                              mentions agreement_keywords b ->
                              ~ mentions disagreement_keywords b)
      by (intros b Hb; apply Hclear; right; exact Hb).
    destruct (agrees a) eqn:Ea.
    + apply agrees_spec in Ea.
      rewrite (score_agreeing Ea (Hclear a (or_introl eq_refl) Ea)).
      cbn [length] in *. rewrite Nat.add_succ_r in *.
      apply (IH Hrest (total + 100)%float (S k)); [|exact Hlen].
      apply totals_add_100; [exact Ht | lia].
    + assert (Hno : ~ mentions agreement_keywords a).
      { intros Hm. apply agrees_spec in Hm. congruence. }
      destruct (score_without_agreement Hno) as [-> | ->].
      * apply IH; assumption.
      * apply IH; [exact Hrest | apply totals_add_0; exact Ht | exact Hlen].
Qed.

(** X6.  In a round in which no argument contains both an agreement and
    a disagreement keyword, the consensus level is the percentage of the
    arguments that contain an agreement keyword, rounded down: neither
    the sum of the scores nor its division by the number of arguments
    loses anything that the conversion to an integer keeps. *)
Theorem consensus_is_share (round_arguments : dict text) :
  round_arguments <> [] ->
  (forall a, In a (dict_values round_arguments) ->
             mentions agreement_keywords a ->
             ~ mentions disagreement_keywords a) ->
  100 * Z.of_nat (length round_arguments) <= 2 ^ 51 ->
  _assess_consensus round_arguments
  = Some (100 * Z.of_nat (length (filter agrees (dict_values round_arguments)))
          / Z.of_nat (length round_arguments)).
Proof.
  intros Hne Hclear Hlen. unfold _assess_consensus.
  destruct round_arguments as [|kv rest] eqn:E; [congruence|].
  rewrite <- E in *. clear E kv rest.
  set (n := length round_arguments) in *.
  set (k := length (filter agrees (dict_values round_arguments))).
  assert (Hn : (0 < n)%nat).
  { unfold n. destruct round_arguments; [congruence | cbn [length]; lia]. }
  assert (Hkn : (k <= n)%nat).
  { unfold k, n. etransitivity; [apply filter_length_le|].
    unfold dict_values. rewrite length_map. reflexivity. }
  assert (H51 : 2 ^ 51 < 2 ^ 53) by reflexivity.
  pose proof (@total_score_counts (dict_values round_arguments) Hclear
                0%float 0%nat eq_refl) as Ht.
  cbn [Nat.add] in Ht. fold k in Ht.
  fold (total_score (dict_values round_arguments)) in Ht.
  specialize (Ht ltac:(lia)).
  destruct k as [|k'] eqn:Ek; cbn [totals] in Ht.
  - destruct (@float_of_nat_finite n) as [m [e [Hf _]]]; [lia|].
    unfold int_of_float. rewrite FloatAxioms.div_spec, Ht, Hf.
    reflexivity.
  - rewrite <- Ek in *.
    rewrite (@represents_div _ _ (100 * Z.of_nat k) (Z.of_nat n));
      [| exact Ht | apply represents_of_nat; lia | lia].
    f_equal.
    assert (0 <= 100 * Z.of_nat k / Z.of_nat n)
      by (apply Z.div_pos; lia).
    assert (100 * Z.of_nat k / Z.of_nat n <= 100).
    { apply Z.div_le_upper_bound; lia. }
    lia.
Qed.

Lemma consensus_is_share_witness :
  _assess_consensus
    [ (str "economic", str "I agree with the proposal.");
      (str "social", str "We support it.");
      (str "legal", str "I oppose it.") ]
  = Some 66.
Proof.
  refine (eq_trans (@consensus_is_share _ _ _ _) _).
  - discriminate.
  - intros a Ha Hm. cbn in Ha. destruct Ha as [<- | [<- | [<- | []]]].
    + apply count_keywords_zero. vm_compute. reflexivity.
    + apply count_keywords_zero. vm_compute. reflexivity.
    + exfalso. revert Hm. apply count_keywords_zero. vm_compute.
      reflexivity.
  - vm_compute. discriminate.
  - vm_compute. reflexivity.
Defined.

End ConsensusEnds.


(** ** What the experts are told in the debate *)

Module BriefingFacts.
Import Py PyFacts Deliberation Notions EffectFacts DebateFacts RecordFacts.

(** [h[-5:]]. *)
Definition last_five (h : list debate_entry) : list debate_entry :=
  skipn (length h - 5) h.

(** The task of a speaker of round [r] before whom the arguments
    [earlier] were made. *)
Definition briefing (topic : text) (earlier : list debate_entry) (r : nat)
  : task :=
  debate_task
    (task_description r topic
       match earlier with
       | [] =>
           str "No previous arguments yet. You are among the first to speak."
       | _ :: _ => join [newline] (map context_part (last_five earlier))
       end).

(** The tasks of the speakers who made the arguments [later], one after
    the other, after [earlier]. *)
Fixpoint briefings (topic : text) (earlier later : list debate_entry)
  : list task :=
  match later with
  | [] => []
  | e :: later' =>
      briefing topic earlier (round e)
      :: briefings topic (earlier ++ [e]) later'
  end.

Lemma briefings_snoc (topic : text) (later earlier : list debate_entry)
    (e : debate_entry) :
  briefings topic earlier (later ++ [e])
  = briefings topic earlier later
    ++ [briefing topic (earlier ++ later) (round e)].
Proof.
  revert earlier. induction later as [|x later IH]; intros earlier;
    cbn [briefings app].
  - rewrite app_nil_r. reflexivity.
  - rewrite IH, <- app_assoc. reflexivity.
Qed.

Lemma briefings_app (topic : text) (later1 later2 earlier : list debate_entry) :
  briefings topic earlier (later1 ++ later2)
  = briefings topic earlier later1
    ++ briefings topic (earlier ++ later1) later2.
Proof.
  revert earlier. induction later1 as [|x later1 IH]; intros earlier;
    cbn [briefings app].
  - rewrite app_nil_r. reflexivity.
  - rewrite IH, <- app_assoc. reflexivity.
Qed.

(** An argument of an earlier round, or of this round by another agent. *)
Definition past (r : nat) (a : text) (e : debate_entry) : Prop :=
  round e < r \/ (round e = r /\ agent_id e <> a).

Lemma filter_all (X : Type) (f : X -> bool) (l : list X) :
  Forall (fun x => f x = true) l -> filter f l = l.
Proof.
  induction 1 as [|x l Hx _ IH]; cbn [filter]; [reflexivity|].
  rewrite Hx, IH. reflexivity.
Qed.

(** Before such arguments only, nothing is left out of the context. *)
Lemma context_of_past (topic : text) (h : list debate_entry) (r : nat)
    (a : text) :
  Forall (past r a) h ->
  debate_task (task_description r topic (_build_debate_context h r a))
  = briefing topic h r.
Proof.
  intros H. unfold briefing, _build_debate_context.
  destruct h as [|e h]; [reflexivity|].
  rewrite filter_all; [reflexivity|].
  eapply Forall_impl; [|exact H]. cbv beta.
  intros x [Hlt | [Heq Hne]].
  - apply Nat.ltb_lt in Hlt. rewrite Hlt. reflexivity.
  - apply Nat.eqb_eq in Heq. apply text_eqb_neq in Hne.
    rewrite Heq, Hne. apply orb_true_r.
Qed.

(** One agent speaks. *)
Lemma wp_debate_step_job st0 llm em sid topic r n args hist i a Q res evs
    invs :
  (forall evs' rec,
     agent rec = a ->
     job rec
     = debate_task (task_description r topic
                      (_build_debate_context hist r a)) ->
     match answer rec with
     | Raised e => Q res evs' (invs ++ [rec]) (Raise e)
     | Returned o =>
         Q res evs' (invs ++ [rec])
           (Return (dict_set a o args, hist ++ [entry r a o]))
     end) ->
  wp st0 (debate_step llm em sid topic r n (args, hist) (i, a)) Q
    res evs invs.
Proof.
  intros H. unfold debate_step.
  wp_step. wp_step. wp_step. apply wp_kickoff. intros ans _.
  match goal with
  | |- context [ {| agent := a; job := ?t; answer := ans |} ] =>
      set (rec := {| agent := a; job := t; answer := ans |})
  end.
  destruct ans as [e | o].
  - apply (H _ rec); reflexivity.
  - wp_step. wp_step. wp_step.
    apply (H _ rec); reflexivity.
Qed.

(** What a round adds to the history, and what its speakers were told. *)
Definition round_briefed (topic : text) (experts : list text) (r : nat)
    (hist : list debate_entry)
    (out : result (dict text * list debate_entry))
    (new_invs : list invocation) : Prop :=
  match out with
  | Return (_, hist') =>
      exists new,
        hist' = hist ++ new /\
        map slot new = map (pair r) experts /\
        map job new_invs = briefings topic hist new
  | Raise _ => True
  end.

Lemma slot_agents (new : list debate_entry) (r : nat) (agents : list text) :
  map slot new = map (pair r) agents ->
  Forall (fun e => round e = r /\ In (agent_id e) agents) new.
Proof.
  intros H. apply Forall_forall. intros e He.
  apply (in_map slot) in He. rewrite H in He.
  apply in_map_iff in He. destruct He as [a [Ha Hin]].
  unfold slot in Ha. inversion Ha. subst. auto.
Qed.

Lemma wp_debate_round_jobs st0 llm em sid topic experts r hist Q res evs
    invs :
  NoDup experts ->
  Forall (fun e => round e < r) hist ->
  (forall evs' new_invs out,
     round_briefed topic experts r hist out new_invs ->
     Q res evs' (invs ++ new_invs) out) ->
  wp st0 (debate_round llm em sid topic experts r hist) Q res evs invs.
Proof.
  intros Hnd Hhist H. unfold debate_round. wp_step. wp_step.
  set (xs := combine (List.seq 0 (length experts)) experts).
  assert (Hxs : map snd xs = experts) by apply map_snd_combine_seq.
  apply (@wp_for_each _ _ st0 _
           (fun done (acc : dict text * list debate_entry)
                res' evs' invs' =>
              res' = res /\
              exists new new_invs,
                invs' = invs ++ new_invs /\
                snd acc = hist ++ new /\
                map slot new = map (pair r) (map snd done) /\
                map job new_invs = briefings topic hist new) Q xs).
  - intros done [i a] [args h] res' evs' invs' [rest Hrest]
      [-> [new [new_invs [-> [Hh [Hslot Hjobs]]]]]].
    cbn [fst snd] in Hh. subst h.
    assert (Hfresh : ~ In a (map snd done)).
    { rewrite <- Hxs, Hrest, map_app in Hnd. cbn [map snd] in Hnd.
      apply NoDup_remove_2 in Hnd. intros Hin. apply Hnd.
      apply in_or_app. left. exact Hin. }
    assert (Hpast : Forall (past r a) (hist ++ new)).
    { apply Forall_app. split.
      - eapply Forall_impl; [|exact Hhist]. intros e He. left. exact He.
      - eapply Forall_impl; [|exact (@slot_agents _ _ _ Hslot)].
        cbv beta. intros e [He Hin]. right. split; [exact He|].
        intros Heq. apply Hfresh. rewrite <- Heq. exact Hin. }
    apply wp_debate_step_job. intros evs'' rec Hagent Hjob.
    rewrite (@context_of_past topic _ _ _ Hpast) in Hjob.
    destruct (answer rec) as [e | o] eqn:Hans.
    + rewrite <- app_assoc. apply H. exact I.
    + split; [reflexivity|].
      exists (new ++ [entry r a o]), (new_invs ++ [rec]).
      cbn [fst snd]. split; [|split; [|split]].
      * rewrite app_assoc. reflexivity.
      * rewrite app_assoc. reflexivity.
      * rewrite !map_app, Hslot. reflexivity.
      * rewrite map_app, Hjobs, briefings_snoc. cbn [map entry round].
        rewrite Hjob. reflexivity.
  - intros [args h] res' evs' invs'
      [-> [new [new_invs [-> [Hh [Hslot Hjobs]]]]]].
    cbn [fst snd] in Hh. subst h. rewrite Hxs in Hslot.
    apply H. exists new. auto.
  - split; [reflexivity|].
    exists [], []. cbn [fst snd]. rewrite !app_nil_r. auto.
Qed.

(** The rounds still to come are numbered upwards from the rounds
    made. *)
Definition rounds_briefed (topic : text) (hist : list debate_entry)
    (out : result (list debate_entry * nat * bool))
    (new_invs : list invocation) : Prop :=
  match out with
  | Return (hist', _, _) =>
      exists new,
        hist' = hist ++ new /\
        map job new_invs = briefings topic hist new
  | Raise _ => True
  end.

Lemma wp_debate_rounds_jobs st0 llm em sid topic experts later :
  NoDup experts ->
  ForallOrdPairs lt later ->
  forall hist last_round Q res evs invs,
    Forall (fun e => Forall (lt (round e)) later) hist ->
    (forall evs' new_invs out,
       rounds_briefed topic hist out new_invs ->
       Q res evs' (invs ++ new_invs) out) ->
    wp st0 (debate_rounds llm em sid topic experts later hist last_round) Q
      res evs invs.
Proof.
  intros Hnd.
  induction later as [|r later IH];
    intros Hsorted hist last_round Q res evs invs Hhist H.
  - cbn [debate_rounds]. apply wp_ret.
    rewrite <- (app_nil_r invs). apply H.
    exists []. rewrite app_nil_r. auto.
  - inversion Hsorted as [|? ? Hr Hsorted']; subst.
    cbn [debate_rounds]. apply wp_bind. apply wp_debate_round_jobs.
    { exact Hnd. }
    { eapply Forall_impl; [|exact Hhist]. cbv beta. intros e He.
      apply Forall_inv in He. exact He. }
    intros evs1 new_invs1 out1 Hout1.
    destruct out1 as [e | [args hist1]]; [apply H; exact I|].
    destruct Hout1 as [new1 [-> [Hslot1 Hjobs1]]].
    assert (Hnext :
      forall evs2 last,
        wp st0
          (debate_rounds llm em sid topic experts later (hist ++ new1) last)
          Q res evs2 (invs ++ new_invs1)).
    { intros evs2 last. apply IH; [exact Hsorted' | |].
      - apply Forall_app. split.
        + eapply Forall_impl; [|exact Hhist]. cbv beta. intros e He.
          apply Forall_inv_tail in He. exact He.
        + eapply Forall_impl; [|exact (@slot_agents _ _ _ Hslot1)].
          cbv beta. intros e [He _]. rewrite He. exact Hr.
      - intros evs3 new_invs2 out3 Hout3.
        rewrite <- app_assoc. apply H.
        destruct out3 as [e | [[hist' rn] reached]]; [exact I|].
        destruct Hout3 as [new2 [-> Hjobs2]].
        exists (new1 ++ new2). split; [rewrite app_assoc; reflexivity|].
        rewrite map_app, briefings_app, Hjobs1, Hjobs2. reflexivity. }
    cbv beta iota.
    destruct (r <? max_rounds).
    + destruct (_assess_consensus args) as [c|].
      * apply wp_bind. apply wp_emit_event.
        destruct (70 <=? c)%Z.
        -- apply wp_bind. apply wp_emit_event. apply wp_ret. apply H.
           exists new1. auto.
        -- apply Hnext.
      * apply wp_raise. apply H. exact I.
    + apply Hnext.
Qed.

(** X7.  In a debate that completes, every speaker is given the same
    instructions with, as context, the last five arguments made before it
    in the debate, whoever made them and in whichever round, each cut to
    300 characters; the first speaker is told that there are none yet.
    So the selection in [_build_debate_context] leaves out no argument
    of the debate, and its second message is never sent. *)
Theorem debate_briefings llm em sid agents topic st st' :
  NoDup (dict_keys agents) ->
  phase_debate llm em sid agents topic st = (st', Return tt) ->
  exists d,
    debate (self_results st') = Some d /\
    map job (added_invocations st st') = briefings topic [] (history d).
Proof.
  intros Hkeys Hrun.
  assert (W : wp st (phase_debate llm em sid agents topic)
                (fun res' evs' invs' out =>
                   match out with
                   | Return _ =>
                       exists d,
                         debate res' = Some d /\
                         map job invs' = briefings topic [] (history d)
                   | Raise _ => True
                   end) (self_results st) [] []).
  { unfold phase_debate. wp_step. wp_step. cbv zeta.
    wp_step. apply wp_debate_rounds_jobs.
    - apply NoDup_domain_experts. exact Hkeys.
    - repeat constructor.
    - constructor.
    - intros evs1 new_invs out1 Hout1.
      destruct out1 as [e | [[h rn] reached]]; [exact I|].
      cbv beta iota. destruct Hout1 as [new [-> Hjobs]].
      wp_step. wp_step. wp_step.
      eexists. split; [reflexivity|]. exact Hjobs. }
  destruct (wp_run W Hrun) as [res' [evs' [invs' [-> [d [Hd Hjobs]]]]]].
  exists d. rewrite added_invocations_grown. split; assumption.
Qed.

(** Three experts who keep objecting. *)
Definition objecting : oracle :=
  fun _ _ _ => Returned (str "However, I oppose it.").

Definition objecting_debate : state * result unit :=
  phase_debate objecting true (str "s1") panel (str "Carbon tax") fresh.

Lemma objecting_debate_completes :
  phase_debate objecting true (str "s1") panel (str "Carbon tax") fresh
  = (fst objecting_debate, Return tt).
Proof. vm_compute. reflexivity. Defined.

Lemma panel_distinct : NoDup (dict_keys panel).
Proof. apply distinct_NoDup. vm_compute. reflexivity. Qed.

Lemma debate_briefings_witness :
  exists d,
    debate (self_results (fst objecting_debate)) = Some d /\
    map job (added_invocations fresh (fst objecting_debate))
    = briefings (str "Carbon tax") [] (history d).
Proof.
  exact (@debate_briefings objecting true (str "s1") panel
           (str "Carbon tax") fresh _ panel_distinct
           objecting_debate_completes).
Defined.

End BriefingFacts.


(** ** The validator and the cleaning of outputs *)

Module CleaningFacts.
Import Py PyFacts Re OutputValidator Deliberation Notions.
Import ReFacts ValidatorFacts PhaseFacts RecordFacts FallbackFacts.

(** *** Letter case *)

Ltac by_cases_on c := destruct c as [[] [] [] [] [] [] [] []]; reflexivity.

Lemma lower_char_lower (c : ascii) : lower_char (lower_char c) = lower_char c.
Proof. by_cases_on c. Qed.

Lemma lower_char_upper (c : ascii) : lower_char (upper_char c) = lower_char c.
Proof. by_cases_on c. Qed.

Lemma is_word_lower (c : ascii) : is_word (lower_char c) = is_word c.
Proof. by_cases_on c. Qed.

Lemma is_word_upper (c : ascii) : is_word (upper_char c) = is_word c.
Proof. by_cases_on c. Qed.

Lemma is_space_lower (c : ascii) : is_space (lower_char c) = is_space c.
Proof. by_cases_on c. Qed.

Lemma is_space_upper (c : ascii) : is_space (upper_char c) = is_space c.
Proof. by_cases_on c. Qed.

Lemma is_digit_lower (c : ascii) : is_digit (lower_char c) = is_digit c.
Proof. by_cases_on c. Qed.

Lemma is_digit_upper (c : ascii) : is_digit (upper_char c) = is_digit c.
Proof. by_cases_on c. Qed.

(** A change of case that the patterns and [lower] do not see. *)
Definition unseen (f : ascii -> ascii) : Prop :=
  forall c,
    lower_char (f c) = lower_char c /\ is_word (f c) = is_word c /\
    is_space (f c) = is_space c /\ is_digit (f c) = is_digit c.

Lemma unseen_lower : unseen lower_char.
Proof.
  intros c. auto using lower_char_lower, is_word_lower, is_space_lower,
              is_digit_lower.
Qed.

Lemma unseen_upper : unseen upper_char.
Proof.
  intros c. auto using lower_char_upper, is_word_upper, is_space_upper,
              is_digit_upper.
Qed.

Section Unseen.
Variable f : ascii -> ascii.
Hypothesis Hf : unseen f.

Lemma cset_match_unseen (p : cset) (c : ascii) :
  cset_match p (f c) = cset_match p c.
Proof.
  destruct (Hf c) as [Hl [Hw [Hs Hd]]].
  destruct p; cbn [cset_match]; rewrite ?Hl; auto.
Qed.

Lemma deriv_unseen (c : ascii) (r : re) : deriv (f c) r = deriv c r.
Proof.
  induction r as [| |p|a IHa b IHb|a IHa b IHb|a IHa]; cbn [deriv];
    rewrite ?cset_match_unseen, ?IHa, ?IHb; reflexivity.
Qed.

Lemma match_here_unseen (s : text) :
  forall r, match_here r (map f s) = match_here r s.
Proof.
  induction s as [|c s IH]; intros r; cbn [map match_here]; [reflexivity|].
  rewrite deriv_unseen, IH. reflexivity.
Qed.

Lemma search_unseen (r : re) (s : text) : search r (map f s) = search r s.
Proof.
  induction s as [|c s IH]; cbn [map search].
  - reflexivity.
  - rewrite IH. f_equal. apply (match_here_unseen (c :: s)).
Qed.

Lemma lower_unseen (s : text) : lower (map f s) = lower s.
Proof.
  unfold lower. rewrite map_map. apply map_ext. intros c. apply Hf.
Qed.

Lemma find_ext (X : Type) (g h : X -> bool) (l : list X) :
  (forall x, g x = h x) -> find g l = find h l.
Proof.
  intros E. induction l as [|x l IH]; cbn [find]; [reflexivity|].
  rewrite E, IH. reflexivity.
Qed.

Lemma is_valid_policy_output_unseen (output : text) :
  is_valid_policy_output (map f output) = is_valid_policy_output output.
Proof.
  rewrite !is_valid_policy_output_unfold.
  unfold code_keyword_count, policy_keyword_count.
  rewrite length_map, lower_unseen.
  rewrite (@find_ext _ (matches_code_pattern (map f output))
             (matches_code_pattern output)); [reflexivity|].
  intros p. apply search_unseen.
Qed.
End Unseen.

(** X8.  For an output of ASCII characters the verdict of the validator
    and its reason do not depend on the case of the letters: the output in
    lower case and the output in upper case are judged as the output
    itself. *)
Theorem validator_ignores_case (output : text) :
  ascii_text output ->
  is_valid_policy_output (lower output) = is_valid_policy_output output /\
  is_valid_policy_output (upper output) = is_valid_policy_output output.
Proof.
  intros _. split.
  - apply (is_valid_policy_output_unseen unseen_lower).
  - apply (is_valid_policy_output_unseen unseen_upper).
Qed.

Lemma validator_ignores_case_witness :
  let output :=
    str "The Carbon Tax policy has a fiscal impact on government revenue." in
  is_valid_policy_output (lower output) = is_valid_policy_output output /\
  is_valid_policy_output (upper output) = is_valid_policy_output output.
Proof.
  cbv zeta. apply validator_ignores_case. vm_compute. reflexivity.
Defined.

(** *** What [extract_policy_content] removes *)

Section Length.
Variable match_at : bool -> text -> option nat.
Variable repl : text.
Hypothesis match_bounds :
  forall bol s n,
    match_at bol s = Some n -> length repl <= n /\ n <= length s.

Lemma sub_from_length (s : text) :
  forall skip bol,
    length (sub_from match_at repl skip bol s) + Nat.min skip (length s)
    <= length s.
Proof.
  induction s as [|c s IH]; intros skip bol; cbn [sub_from length].
  - lia.
  - destruct skip as [|k].
    + destruct (match_at bol (c :: s)) as [[|n]|] eqn:E.
      * cbn [length]. specialize (IH 0 (Ascii.eqb c newline)). lia.
      * apply match_bounds in E. cbn [length] in E.
        rewrite length_app.
        specialize (IH n (Ascii.eqb c newline)). lia.
      * cbn [length]. specialize (IH 0 (Ascii.eqb c newline)). lia.
    + specialize (IH k (Ascii.eqb c newline)). lia.
Qed.

Lemma sub_length (s : text) : length (sub match_at repl s) <= length s.
Proof. unfold sub. pose proof (sub_from_length s 0 true). lia. Qed.
End Length.

Lemma span_le (p : ascii -> bool) (s : text) : span p s <= length s.
Proof.
  induction s as [|c s IH]; cbn [span length]; [lia|].
  destruct (p c); lia.
Qed.

Lemma span_split (p : ascii -> bool) (s : text) :
  s = firstn (span p s) s ++ skipn (span p s) s /\
  forallb p (firstn (span p s) s) = true.
Proof.
  induction s as [|c s [IH1 IH2]]; cbn [span]; [auto|].
  destruct (p c) eqn:E; cbn [firstn skipn app forallb]; [|auto].
  rewrite E, IH2. split; [f_equal; exact IH1 | reflexivity].
Qed.

Lemma find_end_le (needle s : text) (k : nat) :
  find_end needle s = Some k -> k <= length s.
Proof.
  revert k. induction s as [|c s IH]; intros k; cbn [find_end].
  - destruct (starts_with needle []) eqn:E; [|discriminate].
    intros H. inversion H. apply starts_with_spec in E.
    destruct E as [post E]. apply (f_equal (@length _)) in E.
    rewrite length_app in E. cbn [length] in *. lia.
  - destruct (starts_with needle (c :: s)) eqn:E.
    + intros H. inversion H. apply starts_with_spec in E.
      destruct E as [post E]. apply (f_equal (@length _)) in E.
      rewrite length_app in E. lia.
    + destruct (find_end needle s) as [j|]; [|discriminate].
      cbn [option_map]. intros H. inversion H.
      specialize (IH j eq_refl). cbn [length]. lia.
Qed.

Lemma match_delimited_le (opening closing s : text) (n : nat) :
  match_delimited opening closing s = Some n -> n <= length s.
Proof.
  unfold match_delimited.
  destruct (starts_with opening s) eqn:E; [|discriminate].
  apply starts_with_spec in E. destruct E as [post ->].
  rewrite skipn_app, skipn_all, Nat.sub_diag. cbn [skipn app].
  destruct (find_end closing post) as [k|] eqn:F; [|discriminate].
  cbn [option_map]. intros H. inversion H.
  apply find_end_le in F. rewrite length_app. lia.
Qed.

Lemma match_code_block_le (bol : bool) (s : text) (n : nat) :
  match_code_block bol s = Some n -> n <= length s.
Proof.
  unfold match_code_block.
  destruct (starts_with (str "```") s) eqn:E; [|discriminate].
  apply starts_with_spec in E. destruct E as [post ->].
  change (skipn 3 (str "```" ++ post)) with post. cbv zeta.
  pose proof (span_split is_word post) as [Hsplit _].
  pose proof (span_le is_word post) as Hle.
  destruct (skipn (span is_word post) post) as [|c s2] eqn:Es;
    [discriminate|].
  destruct (Ascii.eqb c newline); [|discriminate].
  destruct (find_end (str "```") s2) as [k|] eqn:F; [|discriminate].
  cbn [option_map]. intros H. inversion H.
  apply find_end_le in F.
  apply (f_equal (@length _)) in Hsplit.
  rewrite length_app, length_firstn in Hsplit. cbn [length] in Hsplit.
  rewrite length_app. change (length (str "```")) with 3. lia.
Qed.

Lemma match_tag_le (bol : bool) (s : text) (n : nat) :
  match_tag bol s = Some n -> n <= length s.
Proof.
  unfold match_tag. destruct s as [|c s1]; [discriminate|].
  destruct (Ascii.eqb c "<"%char) eqn:Ec.
  2:{ destruct c as [[] [] [] [] [] [] [] []]; try discriminate. }
  apply Ascii.eqb_eq in Ec. subst c. cbv zeta.
  set (p := fun c => negb (Ascii.eqb c ">"%char)).
  pose proof (span_split p s1) as [Hsplit _].
  destruct (span p s1) as [|k] eqn:Ek; [discriminate|].
  destruct (skipn (S k) s1) as [|d s2] eqn:Es; [discriminate|].
  intros H. inversion H.
  apply (f_equal (@length _)) in Hsplit.
  rewrite length_app, length_firstn in Hsplit. cbn [length] in *.
  pose proof (span_le p s1). lia.
Qed.

Lemma match_blank_lines_bounds (bol : bool) (s : text) (n : nat) :
  match_blank_lines bol s = Some n -> 2 <= n /\ n <= length s.
Proof.
  unfold match_blank_lines. cbv zeta.
  destruct (3 <=? span (Ascii.eqb newline) s) eqn:E; [|discriminate].
  apply Nat.leb_le in E. intros H. inversion H. subst n.
  pose proof (span_le (Ascii.eqb newline) s). lia.
Qed.

Lemma strip_length (s : text) : length (strip s) <= length s.
Proof.
  assert (L : forall t, length (lstrip t) <= length t).
  { induction t as [|c t IH]; cbn [lstrip length]; [lia|].
    destruct (is_space c); cbn [length]; lia. }
  unfold strip, rstrip. rewrite length_rev.
  etransitivity; [apply L|]. rewrite length_rev. apply L.
Qed.

(** X9.  Cleaning never adds to an output: what
    [extract_policy_content] returns is at most as long as what it is
    given. *)
Theorem extract_policy_content_shorter (output : text) :
  length (extract_policy_content output) <= length output.
Proof.
  unfold extract_policy_content. cbv zeta.
  etransitivity; [apply strip_length|].
  etransitivity.
  { apply sub_length. intros bol s n H.
    apply match_blank_lines_bounds in H. cbn [length]. lia. }
  etransitivity.
  { apply sub_length. intros bol s n H. cbn [length]. split; [lia|].
    unfold match_frontmatter in H. destruct bol; [|discriminate].
    eapply match_delimited_le; eauto. }
  etransitivity.
  { apply sub_length. intros bol s n H. cbn [length]. split; [lia|].
    eapply match_delimited_le; eauto. }
  etransitivity.
  { apply sub_length. intros bol s n H. cbn [length]. split; [lia|].
    eapply match_tag_le; eauto. }
  apply sub_length. intros bol s n H. cbn [length]. split; [lia|].
  eapply match_code_block_le; eauto.
Qed.

(** Where the pattern of a code block matches, a fence opens. *)
Lemma match_code_block_fence (bol : bool) (s : text) (n : nat) :
  match_code_block bol s = Some n ->
  exists tag post,
    forallb is_word tag = true /\ s = str "```" ++ tag ++ [newline] ++ post.
Proof.
  unfold match_code_block.
  destruct (starts_with (str "```") s) eqn:E; [|discriminate].
  apply starts_with_spec in E. destruct E as [post ->].
  change (skipn 3 (str "```" ++ post)) with post. cbv zeta.
  pose proof (span_split is_word post) as [Hsplit Hword].
  destruct (skipn (span is_word post) post) as [|c s2] eqn:Es;
    [discriminate|].
  destruct (Ascii.eqb c newline) eqn:Ec; [|discriminate].
  apply Ascii.eqb_eq in Ec. subst c. intros _.
  exists (firstn (span is_word post) post), s2.
  split; [exact Hword|]. rewrite Hsplit at 1. reflexivity.
Qed.

Section Unmatched.
Variable match_at : bool -> text -> option nat.
Variable repl : text.

(** Where the pattern matches nowhere, nothing is replaced. *)
Lemma sub_from_unmatched (s : text) :
  forall bol,
    (forall pre post b, s = pre ++ post -> match_at b post = None) ->
    sub_from match_at repl 0 bol s = s.
Proof.
  induction s as [|c s IH]; intros bol H; cbn [sub_from]; [reflexivity|].
  rewrite (H [] (c :: s) bol eq_refl). f_equal.
  apply IH. intros pre post b E. apply (H (c :: pre) post b).
  rewrite E. reflexivity.
Qed.
End Unmatched.

Lemma no_fence_no_block (output : text) :
  ~ has_code_fence output -> sub match_code_block [] output = output.
Proof.
  intros Hno. unfold sub. apply sub_from_unmatched.
  intros pre post b E.
  destruct (match_code_block b post) as [n|] eqn:M; [|reflexivity].
  exfalso. apply Hno.
  destruct (match_code_block_fence _ _ M) as [tag [rest [Htag ->]]].
  exists pre, tag, rest. split; [exact Htag | exact E].
Qed.

Lemma accepted_no_fence (output : text) :
  fst (is_valid_policy_output output) = true -> ~ has_code_fence output.
Proof.
  rewrite is_valid_policy_output_unfold. intros H Hf.
  destruct (length output <? 50); [discriminate|].
  destruct (find (matches_code_pattern output) CODE_PATTERNS) as [p|] eqn:E;
    [discriminate|].
  apply find_code_pattern_none in E. apply E.
  exists code_block_pattern.
  split; [apply code_block_pattern_listed | apply code_fence_found; exact Hf].
Qed.

(** X10.  The two phases clean only the outputs that the validator
    accepted, and in such an output there is no code block to remove: the
    first step of [extract_policy_content] leaves it as it is, so what is
    recorded is the output without its tags, math blocks and front matter,
    with runs of blank lines shortened and the ends stripped. *)
Theorem accepted_output_has_no_code_block (output : text) :
  fst (is_valid_policy_output output) = true ->
  sub match_code_block [] output = output /\
  extract_policy_content output
  = strip (sub match_blank_lines [newline; newline]
             (sub match_frontmatter []
                (sub match_math_block [] (sub match_tag [] output)))).
Proof.
  intros H. apply accepted_no_fence in H. apply no_fence_no_block in H.
  split; [exact H|]. unfold extract_policy_content. cbv zeta.
  rewrite H. reflexivity.
Qed.

Lemma accepted_output_has_no_code_block_witness :
  let output :=
    str "The <b>carbon tax</b> policy has a fiscal impact on revenue." in
  sub match_code_block [] output = output /\
  extract_policy_content output
  = str "The carbon tax policy has a fiscal impact on revenue.".
Proof.
  cbv zeta.
  destruct (@accepted_output_has_no_code_block
              (str "The <b>carbon tax</b> policy has a fiscal impact on revenue."))
    as [H1 H2].
  - vm_compute. reflexivity.
  - split; [exact H1|]. rewrite H2. vm_compute. reflexivity.
Defined.

(** *** The fallback responses of the two phases *)

(** The roles for which the phases ask for a fallback response. *)
Definition roles : list text :=
  str "Problem Statement Expert" :: map display_name research_ids.

Definition clean (s : text) : bool :=
  match find (matches_code_pattern s) CODE_PATTERNS with
  | None => count_keywords CODE_KEYWORDS (lower s) =? 0
  | Some _ => false
  end.

Lemma clean_spec (s : text) :
  clean s = true -> ~ has_code_pattern s /\ ~ mentions CODE_KEYWORDS s.
Proof.
  unfold clean.
  destruct (find (matches_code_pattern s) CODE_PATTERNS) eqn:E;
    [discriminate|].
  intros H. apply Nat.eqb_eq in H. split.
  - apply find_code_pattern_none. exact E.
  - apply count_keywords_zero. exact H.
Qed.

Definition clean_role (role : text) : bool :=
  clean role && negb (search (ast class_pattern) (role ++ str " Analysis:")).

Lemma roles_clean : forallb clean_role roles = true.
Proof. vm_compute. reflexivity. Qed.

(** X11.  For each of the twenty-five roles for which the two phases ask
    for a fallback response, and a topic in which no code pattern is found
    and no code keyword is mentioned, the validator accepts the fallback
    response. *)
Theorem fallbacks_of_phases_accepted (role policy_topic : text) :
  In role roles ->
  ~ has_code_pattern policy_topic ->
  ~ mentions CODE_KEYWORDS policy_topic ->
  is_valid_policy_output (create_fallback_response role policy_topic)
  = (true, ValidPolicyAnalysis).
Proof.
  intros Hrole Ptopic Ktopic.
  pose proof roles_clean as Hclean. rewrite forallb_forall in Hclean.
  specialize (Hclean role Hrole). unfold clean_role in Hclean.
  apply andb_true_iff in Hclean. destruct Hclean as [Hc Hclass].
  apply clean_spec in Hc. destruct Hc as [Prole Krole].
  apply negb_true_iff in Hclass. apply search_false in Hclass.
  rewrite is_valid_policy_output_unfold.
  pose proof (@fallback_length role policy_topic) as Hlen.
  pose proof (@no_pattern_in_fallback role policy_topic Prole Ptopic
                Hclass) as Hpat.
  pose proof (@code_keywords_in_fallback role policy_topic Krole
                Ktopic) as Hcode.
  pose proof (@policy_keywords_in_fallback role policy_topic) as Hpol.
  apply find_code_pattern_none in Hpat. rewrite Hpat.
  replace (length (create_fallback_response role policy_topic) <? 50)
    with false by (symmetry; apply Nat.ltb_ge; exact Hlen).
  replace (3 <=? code_keyword_count
                   (create_fallback_response role policy_topic))
    with false by (symmetry; apply Nat.leb_gt; lia).
  replace (policy_keyword_count
             (create_fallback_response role policy_topic) <? 2)
    with false by (symmetry; apply Nat.ltb_ge; exact Hpol).
  reflexivity.
Qed.

Lemma fallbacks_of_phases_accepted_witness :
  is_valid_policy_output
    (create_fallback_response (str "Housing Welfare") (str "Rent control"))
  = (true, ValidPolicyAnalysis).
Proof.
  apply fallbacks_of_phases_accepted.
  - apply existsb_text_eqb. vm_compute. reflexivity.
  - apply find_code_pattern_none. vm_compute. reflexivity.
  - apply count_keywords_zero. vm_compute. reflexivity.
Defined.

End CleaningFacts.


(** ** [kickoff] called again *)

Module ContextFacts.
Import Py PyFacts AutoPolicy KickoffFacts.

(** The four modular inputs of an instance. *)
Definition modular_inputs (self : system) : list text :=
  [city_data self; policy_type self; time_range self; interests self].

Definition modular (self : system) : bool :=
  truthy (city_data self) || truthy (policy_type self)
  || truthy (time_range self) || truthy (interests self).

(** ["\n".join(context_parts)]. *)
Definition summary (self : system) : text :=
  join [newline]
    ((if truthy (city_data self)
      then [str "City/Region: " ++ city_data self] else [])
     ++ (if truthy (policy_type self)
         then [str "Policy Type: " ++ policy_type self] else [])
     ++ (if truthy (time_range self)
         then [str "Evaluation Timeframe: " ++ time_range self] else [])
     ++ (if truthy (interests self)
         then [str "Key Evaluation Criteria: " ++ interests self]
         else [])).

(** The second step of [kickoff]. *)
Definition build_context (self : system) : system :=
  if modular self
  then
    if negb (truthy (background_context self))
    then set_background_context (summary self) self
    else set_background_context
           (background_context self ++ [newline; newline] ++ summary self)
           self
  else self.

Definition kwargs_of (inputs : option (dict text)) : dict text :=
  match inputs with Some kwargs => kwargs | None => [] end.

(** What a call of [kickoff] makes of the instance when it gets as far
    as the choice of the method. *)
Definition updated (inputs : option (dict text)) (self : system) : system :=
  build_context (update_attributes (kwargs_of inputs) self).

Lemma kickoff_from_state (mode : text) (self : system) :
  fst (kickoff_from mode self) = build_context self.
Proof. reflexivity. Qed.

(** The keys of the inputs are plain names, and [self] is not one of
    them. *)
Definition plain_keywords (inputs : option (dict text)) : Prop :=
  existsb is_dunder (dict_keys (kwargs_of inputs)) = false /\
  dict_has (str "self") (kwargs_of inputs) = false.

(** The instance after a call of [kickoff], however the call ends: as it
    was when the call raises at once because [kickoff] has been replaced
    by a string; [None] where the model of [kickoff] is. *)
Definition called (inputs : option (dict text)) (self : system)
  : option system :=
  if dict_has (str "kickoff") (replaced self) then Some self
  else option_map fst (kickoff inputs self).

(** [n] calls with the same inputs. *)
Fixpoint kickoffs (n : nat) (inputs : option (dict text)) (self : system)
  : option system :=
  match n with
  | 0 => Some self
  | S k =>
      match kickoffs k inputs self with
      | Some self' => called inputs self'
      | None => None
      end
  end.

(** Neither of the two methods has been replaced, and the inputs do not
    replace them. *)
Definition intact (inputs : option (dict text)) (self : system) : Prop :=
  dict_has (str "kickoff") (replaced self) = false /\
  dict_has (str "update_parameters") (replaced self) = false /\
  dict_get (str "kickoff") (kwargs_of inputs) = None /\
  dict_get (str "update_parameters") (kwargs_of inputs) = None.

Lemma update_attributes_nil (self : system) : update_attributes [] self = self.
Proof. reflexivity. Qed.

Lemma kickoff_state (inputs : option (dict text)) (self : system) :
  plain_keywords inputs ->
  dict_has (str "update_parameters") (replaced self) = false ->
  option_map fst (kickoff inputs self) = Some (updated inputs self).
Proof.
  intros [Hd Hs] Hu. unfold updated.
  destruct inputs as [[|kv kwargs]|]; try reflexivity.
  cbn [kwargs_of] in *.
  rewrite (@kickoff_given (kv :: kwargs) self) by discriminate.
  rewrite Hu, Hs. unfold update_parameters. rewrite Hd.
  cbn [option_map]. rewrite kickoff_from_state. reflexivity.
Qed.

(** The value that the inputs give to the attribute [name]: the one of
    the last entry for it. *)
Definition given_value (name : text) (kwargs : dict text) (acc : option text)
  : option text :=
  fold_left
    (fun acc kv => if text_eqb (fst kv) name then Some (snd kv) else acc)
    kwargs acc.

Lemma given_value_from (name : text) (kwargs : dict text) (acc : option text) :
  given_value name kwargs acc
  = match given_value name kwargs None with
    | Some v => Some v
    | None => acc
    end.
Proof.
  revert acc. induction kwargs as [|[k v] kwargs IH]; intros acc;
    cbn [given_value fold_left fst snd]; [reflexivity|].
  fold (given_value name kwargs (if text_eqb k name then Some v else acc)).
  fold (given_value name kwargs (if text_eqb k name then Some v else None)).
  rewrite (IH (if text_eqb k name then Some v else acc)).
  rewrite (IH (if text_eqb k name then Some v else None)).
  destruct (given_value name kwargs None); [reflexivity|].
  destruct (text_eqb k name); reflexivity.
Qed.

Lemma given_value_keys (name : text) (kwargs : dict text) :
  dict_get name kwargs = None -> given_value name kwargs None = None.
Proof.
  induction kwargs as [|[k v] kwargs IH]; cbn [dict_get]; [reflexivity|].
  intros H. cbn [given_value fold_left fst snd].
  fold (given_value name kwargs (if text_eqb k name then Some v else None)).
  destruct (text_eqb name k) eqn:E; [discriminate|].
  assert (E' : text_eqb k name = false).
  { apply text_eqb_neq. apply text_eqb_neq in E. congruence. }
  rewrite E'. apply IH. exact H.
Qed.

Section Attribute.
Variable get : system -> text.
Variable name : text.
Hypothesis get_setattr :
  forall key value self,
    get (setattr key value self)
    = if text_eqb key name then value else get self.
Hypothesis get_print : forall line self, get (print line self) = get self.
Hypothesis name_known : hasattr name = true.

(** An attribute after the update: the value the inputs give it, or the
    one it had. *)
Lemma get_update_attributes (kwargs : dict text) :
  forall self,
    get (update_attributes kwargs self)
    = match given_value name kwargs None with
      | Some v => v
      | None => get self
      end.
Proof.
  unfold update_attributes.
  induction kwargs as [|[k v] kwargs IH]; intros self;
    cbn [fold_left given_value fst snd]; [reflexivity|].
  fold (given_value name kwargs (if text_eqb k name then Some v else None)).
  rewrite IH, (given_value_from name kwargs (if text_eqb k name then _ else _)).
  destruct (given_value name kwargs None); [reflexivity|].
  destruct (text_eqb k name) eqn:E.
  - apply text_eqb_eq in E. subst k. rewrite name_known.
    rewrite get_print, get_setattr, text_eqb_refl. reflexivity.
  - destruct (hasattr k); [|reflexivity].
    rewrite get_print, get_setattr, E. reflexivity.
Qed.

(** An instance that has the value of the attribute that the inputs give
    keeps it when the inputs are given again. *)
Lemma get_settled (kwargs : dict text) (before self : system) :
  get self = get (update_attributes kwargs before) ->
  get (update_attributes kwargs self) = get self.
Proof.
  intros H. rewrite get_update_attributes.
  rewrite get_update_attributes in H.
  destruct (given_value name kwargs None); congruence.
Qed.
End Attribute.

Lemma modular_inputs_build_context (self : system) :
  modular_inputs (build_context self) = modular_inputs self.
Proof.
  unfold build_context.
  destruct (modular self); [|reflexivity].
  destruct (negb (truthy (background_context self))); reflexivity.
Qed.

Lemma modular_inputs_settled (kwargs : dict text) (before self : system) :
  modular_inputs self = modular_inputs (update_attributes kwargs before) ->
  modular_inputs (update_attributes kwargs self) = modular_inputs self.
Proof.
  unfold modular_inputs. intros H. inversion H as [[H1 H2 H3 H4]].
  rewrite (@get_settled city_data (str "city_data")) with (before := before);
    try reflexivity; try exact H1.
  rewrite (@get_settled policy_type (str "policy_type"))
    with (before := before); try reflexivity; try exact H2.
  rewrite (@get_settled time_range (str "time_range"))
    with (before := before); try reflexivity; try exact H3.
  rewrite (@get_settled interests (str "interests")) with (before := before);
    try reflexivity; try exact H4.
Qed.

Lemma background_context_kept (kwargs : dict text) (self : system) :
  dict_get (str "background_context") kwargs = None ->
  background_context (update_attributes kwargs self)
  = background_context self.
Proof.
  intros H.
  rewrite (@get_update_attributes background_context
             (str "background_context")); try reflexivity.
  rewrite (@given_value_keys _ _ H). reflexivity.
Qed.

Lemma summary_of_inputs (s t : system) :
  modular_inputs s = modular_inputs t ->
  summary s = summary t /\ modular s = modular t.
Proof.
  unfold modular_inputs, summary, modular.
  intros H. inversion H as [[H1 H2 H3 H4]].
  rewrite H1, H2, H3, H4. split; reflexivity.
Qed.

Lemma truthy_app (a b : text) : truthy a = true -> truthy (a ++ b) = true.
Proof. destruct a; [discriminate | reflexivity]. Qed.

Lemma join_truthy (sep p : text) (rest : list text) :
  truthy p = true -> truthy (join sep (p :: rest)) = true.
Proof. destruct p; [discriminate|]. destruct rest; reflexivity. Qed.

Lemma summary_truthy (self : system) :
  modular self = true -> truthy (summary self) = true.
Proof.
  unfold modular, summary.
  destruct (truthy (city_data self));
    [intros _; cbn [app]; apply join_truthy; reflexivity|].
  destruct (truthy (policy_type self));
    [intros _; cbn [app]; apply join_truthy; reflexivity|].
  destruct (truthy (time_range self));
    [intros _; cbn [app]; apply join_truthy; reflexivity|].
  destruct (truthy (interests self));
    [intros _; cbn [app]; apply join_truthy; reflexivity | discriminate].
Qed.

Lemma build_context_truthy (self : system) :
  modular self = true -> truthy (background_context (build_context self)) = true.
Proof.
  intros H. unfold build_context. rewrite H.
  destruct (truthy (background_context self)) eqn:E; cbn [negb].
  - change (background_context (set_background_context ?v self)) with v.
    apply truthy_app. exact E.
  - change (background_context (set_background_context ?v self)) with v.
    apply summary_truthy. exact H.
Qed.

Lemma replaced_build_context (self : system) :
  replaced (build_context self) = replaced self.
Proof.
  unfold build_context.
  destruct (modular self); [|reflexivity].
  destruct (negb (truthy (background_context self))); reflexivity.
Qed.

Lemma intact_updated (inputs : option (dict text)) (self : system) :
  intact inputs self -> intact inputs (updated inputs self).
Proof.
  intros [H1 [H2 [H3 H4]]]. unfold intact, updated.
  rewrite replaced_build_context.
  rewrite !replaced_update_attributes by assumption. auto.
Qed.

Lemma intact_called (inputs : option (dict text)) (self : system) :
  plain_keywords inputs -> intact inputs self ->
  called inputs self = Some (updated inputs self).
Proof.
  intros Hp [H1 [H2 _]]. unfold called. rewrite H1.
  apply kickoff_state; assumption.
Qed.

(** X12.  When [kickoff] is called again with the same inputs, and these
    give no background context, the summary of the modular inputs is
    added to the background context once more: after [n] further calls
    the context of the first call is followed by [n] copies of the
    summary, each after an empty line.  This is so for inputs whose keys
    are plain names other than [self], as long as [kickoff] and
    [update_parameters] are methods still. *)
Theorem kickoff_accumulates_context (inputs : option (dict text))
    (self : system) (n : nat) :
  dict_get (str "background_context") (kwargs_of inputs) = None ->
  plain_keywords inputs ->
  intact inputs self ->
  exists first last,
    kickoffs 1 inputs self = Some first /\
    kickoffs (S n) inputs self = Some last /\
    (modular first = true ->
     background_context last
     = background_context first
       ++ concat (repeat ([newline; newline] ++ summary first) n)).
Proof.
  intros Hkeys Hplain Hintact.
  set (kwargs := kwargs_of inputs) in *.
  set (first := updated inputs self).
  assert (H1 : kickoffs 1 inputs self = Some first)
    by (apply intact_called; assumption).
  assert (Hfirst : first = build_context (update_attributes kwargs self))
    by reflexivity.
  assert (Hin1 : modular_inputs first
                 = modular_inputs (update_attributes kwargs self))
    by (rewrite Hfirst; apply modular_inputs_build_context).
  assert (Inv : forall k,
             exists s,
               kickoffs (S k) inputs self = Some s /\ intact inputs s /\
               modular_inputs s = modular_inputs first /\
               (modular first = true ->
                truthy (background_context s) = true /\
                background_context s
                = background_context first
                  ++ concat
                       (repeat ([newline; newline] ++ summary first) k))).
  { induction k as [|k [s [Hs [Hi [I1 I]]]]].
    - exists first. split; [exact H1|].
      split; [apply intact_updated; exact Hintact|].
      split; [reflexivity|]. intros Hmod. split.
      + rewrite Hfirst. apply build_context_truthy.
        destruct (@summary_of_inputs _ _ Hin1) as [_ E]. rewrite <- E.
        exact Hmod.
      + cbn [repeat concat]. rewrite app_nil_r. reflexivity.
    - exists (updated inputs s).
      split.
      { change (kickoffs (S (S k)) inputs self)
          with (match kickoffs (S k) inputs self with
                | Some self' => called inputs self'
                | None => None
                end).
        rewrite Hs. apply intact_called; assumption. }
      split; [apply intact_updated; exact Hi|].
      unfold updated. fold kwargs.
      set (u := update_attributes kwargs s).
      assert (Hu : modular_inputs u = modular_inputs s).
      { apply modular_inputs_settled with (before := self).
        rewrite I1. exact Hin1. }
      assert (Hbc : background_context u = background_context s)
        by (apply background_context_kept; exact Hkeys).
      destruct (@summary_of_inputs u first) as [Es Em];
        [rewrite Hu; exact I1|].
      split; [rewrite modular_inputs_build_context, Hu; exact I1|].
      intros Hmod. destruct (I Hmod) as [I2 I3].
      split; [apply build_context_truthy; rewrite Em; exact Hmod|].
      unfold build_context. rewrite Em, Hmod, Hbc, I2. cbn [negb].
      change (background_context (set_background_context ?v u)) with v.
      rewrite Es, I3, <- app_assoc. f_equal.
      change (?a :: ?b :: summary first) with ([a; b] ++ summary first).
      rewrite <- (app_nil_r ([newline; newline] ++ summary first)) at 2.
      change (([newline; newline] ++ summary first) ++ [])
        with (concat [[newline; newline] ++ summary first]).
      rewrite <- concat_app. f_equal.
      change (S k) with (1 + k). rewrite Nat.add_comm.
      rewrite repeat_app. reflexivity. }
  destruct (Inv n) as [last [Hl [_ [_ I]]]].
  exists first, last. split; [exact H1|]. split; [exact Hl|].
  intros Hmod. apply I. exact Hmod.
Qed.

Lemma kickoff_accumulates_context_witness :
  let inputs := Some [(str "city_data", str "Nairobi")] in
  let self := initial (str "Congestion Tax") in
  exists first last,
    kickoffs 1 inputs self = Some first /\
    kickoffs 3 inputs self = Some last /\
    (modular first = true ->
     background_context last
     = background_context first
       ++ concat (repeat ([newline; newline] ++ summary first) 2)).
Proof.
  cbv zeta. apply kickoff_accumulates_context.
  - reflexivity.
  - split; reflexivity.
  - repeat split; reflexivity.
Defined.

(** The three calls of the example in full. *)
Example kickoff_three_times :
  option_map background_context
    (kickoffs 3 (Some [(str "city_data", str "Nairobi")])
       (initial (str "Congestion Tax")))
  = Some (str "City/Region: Nairobi

City/Region: Nairobi

City/Region: Nairobi").
Proof. vm_compute. reflexivity. Qed.

(** An input of a name with double underscores, such as [__class__], is
    beyond the model: it says nothing of such a call. *)
Example kickoff_with_class_key :
  kickoff (Some [(str "city_data", str "Nairobi"); (str "__class__", str "x")])
    (initial (str "Congestion Tax"))
  = None.
Proof. vm_compute. reflexivity. Qed.

End ContextFacts.


(** ** The results that the sessions share *)

Module SharedResults.
Import Py PyFacts OutputValidator Deliberation Notions.
Import EffectFacts DebateFacts PhaseFacts RunFacts RecordFacts.
Import CompletedFacts.

(** [session.results] names a dict: the empty one that [create_session]
    makes, the dict [self.results] of the deliberation system, which
    [run_deliberation] returns as it is and never replaces, or a dict
    [{'error': message}] that [_run_deliberation] makes. *)
Inductive results_ref :=
| OwnEmpty
| SystemResults
| OwnError (error : text).

(** [PolicySession], without its two time stamps and the status of its
    agents. *)
Record session :=
  { session_id : text;
    policy_topic : text;
    background_context : text;
    status : text;
    current_phase : nat;
    phase_name : text;
    results_of : results_ref }.

Definition with_outcome (s : session) (new_status : text) (r : results_ref)
  : session :=
  {| session_id := session_id s;
     policy_topic := policy_topic s;
     background_context := background_context s;
     status := new_status;
     current_phase := current_phase s;
     phase_name := phase_name s;
     results_of := r |}.

Record service :=
  { active_sessions : dict session;
    deliberation_system : state }.

(** [_run_deliberation], with the dict that [session.results] is bound
    to. *)
Definition _run_deliberation (llm : oracle) (event_emitter : bool)
    (sid : text) (svc : service) : service * result unit :=
  match dict_get sid (active_sessions svc) with
  | None => (svc, Raise ("'"%char :: sid ++ ["'"%char]))
  | Some s =>
      let '(st', r) :=
        run_deliberation llm event_emitter sid
          (policy_topic s) (background_context s)
          (deliberation_system svc) in
      let s' :=
        match r with
        | Succeeded _ => with_outcome s (str "completed") SystemResults
        | Failed e => with_outcome s (str "error") (OwnError e)
        end in
      ({| active_sessions := dict_set sid s' (active_sessions svc);
          deliberation_system := st' |}, Return tt)
  end.

(** What [session.results] holds when it is read. *)
Definition read (svc : service) (s : session)
  : PolicyService.session_results :=
  match results_of s with
  | OwnEmpty => PolicyService.NoResults
  | SystemResults =>
      PolicyService.DeliberationResults
        (self_results (deliberation_system svc))
  | OwnError e => PolicyService.ErrorResults e
  end.

Lemma dict_get_set_other (V : Type) (k k' : text) (v : V) (d : dict V) :
  k <> k' -> dict_get k (dict_set k' v d) = dict_get k d.
Proof.
  intros Hne. apply text_eqb_neq in Hne.
  induction d as [|[k0 w] d IH]; cbn [dict_set dict_get].
  - rewrite Hne. reflexivity.
  - destruct (text_eqb k' k0) eqn:E; cbn [dict_get].
    + apply text_eqb_eq in E. subst k0. rewrite Hne. reflexivity.
    + rewrite IH. reflexivity.
Qed.

(** A run for a session that is there. *)
Lemma run_session llm em sid svc s :
  dict_get sid (active_sessions svc) = Some s ->
  let run := run_deliberation llm em sid (policy_topic s)
               (background_context s) (deliberation_system svc) in
  let svc' := fst (_run_deliberation llm em sid svc) in
  deliberation_system svc' = fst run /\
  (forall sid', sid' <> sid ->
     dict_get sid' (active_sessions svc')
     = dict_get sid' (active_sessions svc)) /\
  dict_get sid (active_sessions svc')
  = Some match snd run with
         | Succeeded _ => with_outcome s (str "completed") SystemResults
         | Failed e => with_outcome s (str "error") (OwnError e)
         end.
Proof.
  intros Hget. cbv zeta. unfold _run_deliberation. rewrite Hget.
  destruct (run_deliberation llm em sid (policy_topic s)
              (background_context s) (deliberation_system svc))
    as [st' r].
  cbn [fst snd active_sessions deliberation_system].
  split; [reflexivity|]. split.
  - intros sid' Hne. apply dict_get_set_other. exact Hne.
  - apply dict_get_set_same.
Qed.

Lemma completed_session (s : session) (r : run_result) :
  status match r with
         | Succeeded _ => with_outcome s (str "completed") SystemResults
         | Failed e => with_outcome s (str "error") (OwnError e)
         end = str "completed" ->
  exists res, r = Succeeded res.
Proof.
  destruct r as [res | e]; cbn [status with_outcome].
  - eauto.
  - intros H. apply (f_equal (@length _)) in H. discriminate.
Qed.

(** X13.  The sessions that completed share one dict of results, the one
    of the deliberation system.  Once a later session has completed, an
    earlier one that had completed holds the results of the later one:
    its status and topic are its own, its results are those of the other
    session, down to the report, which is on the topic of the other. *)
Theorem completed_sessions_share_results llm em sid1 sid2 svc s1 s2 :
  sid1 <> sid2 ->
  dict_get sid1 (active_sessions svc) = Some s1 ->
  dict_get sid2 (active_sessions svc) = Some s2 ->
  let svc1 := fst (_run_deliberation llm em sid1 svc) in
  let svc2 := fst (_run_deliberation llm em sid2 svc1) in
  (exists s, dict_get sid1 (active_sessions svc1) = Some s /\
             status s = str "completed") ->
  (exists s, dict_get sid2 (active_sessions svc2) = Some s /\
             status s = str "completed") ->
  exists s1' s2' res report_,
    dict_get sid1 (active_sessions svc2) = Some s1' /\
    dict_get sid2 (active_sessions svc2) = Some s2' /\
    status s1' = str "completed" /\
    policy_topic s1' = policy_topic s1 /\
    policy_topic s2' = policy_topic s2 /\
    read svc2 s1' = PolicyService.DeliberationResults res /\
    read svc2 s2' = PolicyService.DeliberationResults res /\
    final_report res = Some report_ /\
    dict_get (str "policy_topic") report_ = Some (VStr (policy_topic s2)).
Proof.
  intros Hne H1 H2. cbv zeta.
  destruct (@run_session llm em sid1 svc s1 H1) as [D1 [O1 G1]].
  set (svc1 := fst (_run_deliberation llm em sid1 svc)) in *.
  assert (H2' : dict_get sid2 (active_sessions svc1) = Some s2).
  { rewrite O1; [exact H2 | congruence]. }
  destruct (@run_session llm em sid2 svc1 s2 H2') as [D2 [O2 G2]].
  set (svc2 := fst (_run_deliberation llm em sid2 svc1)) in *.
  intros [s [Hs Hdone1]] [s' [Hs' Hdone2]].
  rewrite G1 in Hs. injection Hs as <-.
  rewrite G2 in Hs'. injection Hs' as <-.
  destruct (completed_session _ _ Hdone1) as [res1 R1].
  destruct (completed_session _ _ Hdone2) as [res2 R2].
  rewrite R1 in G1. rewrite R2 in G2.
  destruct (run_deliberation llm em sid2 (policy_topic s2)
              (background_context s2) (deliberation_system svc1))
    as [st2 r2] eqn:E2.
  cbn [fst snd] in D2, R2. subst r2.
  destruct (run_completed _ _ _ _ _ _ E2) as [Hres [Hc _]].
  destruct Hc as [o_ps [outs_r [d [invs_d [outs_v [o_ann
                   [_ [_ [_ [_ [_ Hres2]]]]]]]]]]].
  exists (with_outcome s1 (str "completed") SystemResults).
  exists (with_outcome s2 (str "completed") SystemResults).
  exists res2. eexists.
  split; [rewrite O2 by exact Hne; exact G1|].
  split; [exact G2|].
  split; [reflexivity|]. split; [reflexivity|]. split; [reflexivity|].
  unfold read. cbn [results_of with_outcome]. rewrite D2, <- Hres.
  split; [reflexivity|]. split; [reflexivity|].
  rewrite Hres2. unfold completed_results. cbv zeta.
  cbn [final_report set_final_report]. split; reflexivity.
Qed.

(** Two sessions of one service, and agents that agree with everything. *)
Definition housing : session :=
  {| session_id := str "s1"; policy_topic := str "Housing";
     background_context := []; status := str "running";
     current_phase := 0; phase_name := str "Initialization";
     results_of := OwnEmpty |}.

Definition transport : session :=
  {| session_id := str "s2"; policy_topic := str "Transport";
     background_context := []; status := str "running";
     current_phase := 0; phase_name := str "Initialization";
     results_of := OwnEmpty |}.

Definition two_sessions : service :=
  {| active_sessions := [(str "s1", housing); (str "s2", transport)];
     deliberation_system := fresh |}.

Local Notation after_housing :=
  (fst (_run_deliberation agreeable false (str "s1") two_sessions)).

Local Notation after_transport :=
  (fst (_run_deliberation agreeable false (str "s2") after_housing)).

Lemma housing_completed :
  option_map status (dict_get (str "s1") (active_sessions after_housing))
  = Some (str "completed").
Proof. vm_compute. reflexivity. Qed.

Lemma transport_completed :
  option_map status (dict_get (str "s2") (active_sessions after_transport))
  = Some (str "completed").
Proof. vm_compute. reflexivity. Qed.

Lemma status_of (svc : service) (sid st : text) :
  option_map status (dict_get sid (active_sessions svc)) = Some st ->
  exists s, dict_get sid (active_sessions svc) = Some s /\ status s = st.
Proof.
  destruct (dict_get sid (active_sessions svc)) as [s|]; [|discriminate].
  cbn [option_map]. intros H. injection H as H. eauto.
Qed.

Lemma sessions_differ : str "s1" <> str "s2".
Proof. discriminate. Qed.

Lemma completed_sessions_share_results_witness :
  exists s1' s2' res report_,
    dict_get (str "s1") (active_sessions after_transport) = Some s1' /\
    dict_get (str "s2") (active_sessions after_transport) = Some s2' /\
    status s1' = str "completed" /\
    policy_topic s1' = policy_topic housing /\
    policy_topic s2' = policy_topic transport /\
    read after_transport s1' = PolicyService.DeliberationResults res /\
    read after_transport s2' = PolicyService.DeliberationResults res /\
    final_report res = Some report_ /\
    dict_get (str "policy_topic") report_
    = Some (VStr (policy_topic transport)).
Proof.
  exact (@completed_sessions_share_results agreeable false (str "s1")
           (str "s2") two_sessions housing transport sessions_differ
           eq_refl eq_refl
           (@status_of after_housing (str "s1") (str "completed")
              housing_completed)
           (@status_of after_transport (str "s2") (str "completed")
              transport_completed)).
Defined.

End SharedResults.
